(** * mcp-document-search: chunker, embedding gateway, document store, orchestrator

    A shallow embedding of the indexing-and-retrieval pipeline of the Go
    program (packages [chunker], [embeddings], [storage] and [search]) and
    the properties of it that the specification states.

    Conventions.
    - Go's [int] is the 64-bit two's-complement integer: a [Z] on which every
      addition and subtraction is wrapped ([GoInt.add], [GoInt.sub]).
    - A Go [string] is its byte sequence ([gostring], bytes as [Z] in 0..255);
      a [rune] is a code point as [Z].  [[]rune(s)] and [string(runes)] are the
      UTF-8 decoder and encoder of the Go runtime.
    - A [float32] is its IEEE-754 bit pattern, a [Z] in 0..2^32-1.
    - A run-time panic (index out of range) is a result of its own.
    - The SQLite database is a pair of row lists with the AUTOINCREMENT
      counters, a per-connection [foreign_keys] setting and, inside a
      transaction, the journal that ROLLBACK restores. *)

From Stdlib Require Import String Ascii ZArith QArith List Bool Lia Permutation Sorted.
Import ListNotations.
Open Scope Z_scope.

(* ------------------------------------------------------------------ *)
(** ** Go basics *)

Module GoInt.

Definition min_int : Z := - 2 ^ 63.
Definition max_int : Z := 2 ^ 63 - 1.

(** Two's-complement wrap-around of a 64-bit signed integer. *)
Definition wrap (z : Z) : Z := (z + 2 ^ 63) mod 2 ^ 64 - 2 ^ 63.

Definition add (a b : Z) : Z := wrap (a + b).
Definition sub (a b : Z) : Z := wrap (a - b).

(** [len(x)] of a slice or string. *)
Definition len {A : Type} (l : list A) : Z := Z.of_nat (length l).

End GoInt.

Definition gostring : Type := list Z.
Definition rune : Type := Z.
Definition float32 : Type := Z.

(** The Go heap of a 64-bit platform addresses at most [2^48] bytes, so no
    slice or string is longer than that. *)
Definition maxAlloc : Z := 2 ^ 48.
Definition allocatable {A : Type} (l : list A) : Prop := GoInt.len l <= maxAlloc.

(** Errors and formatted messages, kept as the format and its arguments:
    [fmt.Errorf(format, args...)] with [%w]/[%v] arguments as [VErr], and the
    errors that come from outside the program (driver, transport, context). *)
Inductive value : Type :=
| VInt (n : Z)
| VStr (s : gostring)
| VErr (e : error)
with error : Type :=
| External (what : string)
| Errorf (format : string) (args : list value).

(** [fmt.Sprintf(format, args...)]. *)
Inductive text : Type := Sprintf (format : string) (args : list value).

(** A Go [(T, error)] return. *)
Inductive result (A : Type) : Type :=
| Ok (a : A)
| Err (e : error).
Arguments Ok {A} a.
Arguments Err {A} e.

Definition gostring_eqb (a b : gostring) : bool :=
  if list_eq_dec Z.eq_dec a b then true else false.

(** The bytes of an ASCII/Latin-1 literal. *)
Definition gostr (s : string) : gostring :=
  map (fun a => Z.of_N (N_of_ascii a)) (list_ascii_of_string s).

(** What running a Go function gives: a value, a run-time panic, or (for the
    one unbounded loop of the program) no answer within the given number of
    iterations. *)
Inductive outcome (A : Type) : Type :=
| Returns (a : A)
| Panics (msg : string)
| OutOfFuel.
Arguments Returns {A} a.
Arguments Panics {A} msg.
Arguments OutOfFuel {A}.

Definition bind {A B : Type} (m : outcome A) (k : A -> outcome B) : outcome B :=
  match m with
  | Returns a => k a
  | Panics msg => Panics msg
  | OutOfFuel => OutOfFuel
  end.

Notation "x <- m ;; k" := (bind m (fun x => k))
  (at level 61, m at next level, right associativity).

(** [s[i]]: panics outside [0, len(s)). *)
Definition index {A : Type} (s : list A) (i : Z) : outcome A :=
  if (0 <=? i) && (i <? GoInt.len s)
  then match nth_error s (Z.to_nat i) with
       | Some a => Returns a
       | None => Panics "index out of range"
       end
  else Panics "index out of range".

(** [s[lo:hi]]: panics unless [0 <= lo <= hi <= len(s)]. *)
Definition slice {A : Type} (s : list A) (lo hi : Z) : outcome (list A) :=
  if (0 <=? lo) && (lo <=? hi) && (hi <=? GoInt.len s)
  then Returns (firstn (Z.to_nat (hi - lo)) (skipn (Z.to_nat lo) s))
  else Panics "slice bounds out of range".

(* ------------------------------------------------------------------ *)
(** ** UTF-8 and [unicode.IsSpace] *)

Module Utf8.

Definition RuneError : rune := 0xFFFD.

(** For a leading byte: the sequence length and the accepted range of the
    second byte (the [first] and [acceptRanges] tables of [unicode/utf8]). *)
Definition first (b0 : Z) : option (Z * Z * Z) :=
  if (0xC2 <=? b0) && (b0 <=? 0xDF) then Some (2, 0x80, 0xBF)
  else if b0 =? 0xE0 then Some (3, 0xA0, 0xBF)
  else if (0xE1 <=? b0) && (b0 <=? 0xEC) then Some (3, 0x80, 0xBF)
  else if b0 =? 0xED then Some (3, 0x80, 0x9F)
  else if (0xEE <=? b0) && (b0 <=? 0xEF) then Some (3, 0x80, 0xBF)
  else if b0 =? 0xF0 then Some (4, 0x90, 0xBF)
  else if (0xF1 <=? b0) && (b0 <=? 0xF3) then Some (4, 0x80, 0xBF)
  else if b0 =? 0xF4 then Some (4, 0x80, 0x8F)
  else None.

Definition cont (b : Z) : bool := (0x80 <=? b) && (b <=? 0xBF).

Definition low6 (b : Z) : Z := Z.land b 0x3F.

(** [[]rune(s)]: an invalid or truncated sequence gives U+FFFD and consumes
    one byte. *)
Fixpoint runes (s : gostring) : list rune :=
  match s with
  | [] => []
  | b0 :: t =>
    if b0 <? 0x80 then b0 :: runes t
    else
      match first b0 with
      | None => RuneError :: runes t
      | Some (sz, lo, hi) =>
        match t with
        | [] => RuneError :: runes t
        | b1 :: t1 =>
          if negb ((lo <=? b1) && (b1 <=? hi)) then RuneError :: runes t
          else if sz =? 2
          then Z.lor (Z.shiftl (Z.land b0 0x1F) 6) (low6 b1) :: runes t1
          else
            match t1 with
            | [] => RuneError :: runes t
            | b2 :: t2 =>
              if negb (cont b2) then RuneError :: runes t
              else if sz =? 3
              then Z.lor (Z.lor (Z.shiftl (Z.land b0 0x0F) 12)
                                (Z.shiftl (low6 b1) 6)) (low6 b2) :: runes t2
              else
                match t2 with
                | [] => RuneError :: runes t
                | b3 :: t3 =>
                  if negb (cont b3) then RuneError :: runes t
                  else Z.lor (Z.lor (Z.lor (Z.shiftl (Z.land b0 0x07) 18)
                                           (Z.shiftl (low6 b1) 12))
                                    (Z.shiftl (low6 b2) 6)) (low6 b3) :: runes t3
                end
            end
        end
      end
  end.

(** [utf8.AppendRune]: surrogates and values outside 0..0x10FFFF are
    written as U+FFFD. *)
Definition EncodeRune (r : rune) : gostring :=
  if (0 <=? r) && (r <=? 0x7F) then [r]
  else if (0 <=? r) && (r <=? 0x7FF)
  then [Z.lor 0xC0 (Z.shiftr r 6); Z.lor 0x80 (low6 r)]
  else if (r <? 0) || (0x10FFFF <? r) || ((0xD800 <=? r) && (r <=? 0xDFFF))
  then [0xEF; 0xBF; 0xBD]
  else if r <=? 0xFFFF
  then [Z.lor 0xE0 (Z.shiftr r 12); Z.lor 0x80 (low6 (Z.shiftr r 6));
        Z.lor 0x80 (low6 r)]
  else [Z.lor 0xF0 (Z.shiftr r 18); Z.lor 0x80 (low6 (Z.shiftr r 12));
        Z.lor 0x80 (low6 (Z.shiftr r 6)); Z.lor 0x80 (low6 r)].

(** [string(runes)]. *)
Definition string_of_runes (rs : list rune) : gostring :=
  flat_map EncodeRune rs.

(** [utf8.RuneCountInString]: the length of a text in code points. *)
Definition RuneCountInString (s : gostring) : Z := GoInt.len (runes s).

(** [unicode.IsSpace]: the White_Space property. *)
Definition IsSpace (r : rune) : bool :=
  ((0x09 <=? r) && (r <=? 0x0D)) || (r =? 0x20) || (r =? 0x85) || (r =? 0xA0)
  || (r =? 0x1680) || ((0x2000 <=? r) && (r <=? 0x200A))
  || (r =? 0x2028) || (r =? 0x2029) || (r =? 0x202F) || (r =? 0x205F)
  || (r =? 0x3000).

(** [utf8.ValidRune]: a Unicode scalar value. *)
Definition ValidRune (r : rune) : bool :=
  ((0 <=? r) && (r <? 0xD800)) || ((0xDFFF <? r) && (r <=? 0x10FFFF)).

Definition value2 (b0 b1 : Z) : rune :=
  Z.lor (Z.shiftl (Z.land b0 0x1F) 6) (low6 b1).

Definition value3 (b0 b1 b2 : Z) : rune :=
  Z.lor (Z.lor (Z.shiftl (Z.land b0 0x0F) 12) (Z.shiftl (low6 b1) 6)) (low6 b2).

Definition value4 (b0 b1 b2 b3 : Z) : rune :=
  Z.lor (Z.lor (Z.lor (Z.shiftl (Z.land b0 0x07) 18) (Z.shiftl (low6 b1) 12))
               (Z.shiftl (low6 b2) 6)) (low6 b3).

(** The bytes [bs] are one sequence that the decoder reads as [r]. *)
Definition decodes (bs : gostring) (r : rune) : bool :=
  match bs with
  | [b0] => (b0 <? 0x80) && (b0 =? r)
  | [b0; b1] =>
    negb (b0 <? 0x80) &&
    match first b0 with
    | Some (sz, lo, hi) =>
      (lo <=? b1) && (b1 <=? hi) && (sz =? 2) && (value2 b0 b1 =? r)
    | None => false
    end
  | [b0; b1; b2] =>
    negb (b0 <? 0x80) &&
    match first b0 with
    | Some (sz, lo, hi) =>
      (lo <=? b1) && (b1 <=? hi) && negb (sz =? 2) && cont b2 && (sz =? 3)
      && (value3 b0 b1 b2 =? r)
    | None => false
    end
  | [b0; b1; b2; b3] =>
    negb (b0 <? 0x80) &&
    match first b0 with
    | Some (sz, lo, hi) =>
      (lo <=? b1) && (b1 <=? hi) && negb (sz =? 2) && cont b2 && negb (sz =? 3)
      && cont b3 && (value4 b0 b1 b2 b3 =? r)
    | None => false
    end
  | _ => false
  end.

End Utf8.

(* ------------------------------------------------------------------ *)
(** ** Package [chunker] *)

Module Chunker.

Record Chunk : Type := mkChunk {
  Content : gostring;
  Index : Z;
  StartOffset : Z;
  EndOffset : Z
}.

Record Chunker : Type := mkChunker {
  chunkSize : Z;
  overlap : Z
}.

Definition NewChunker (chunkSize overlap : Z) : Chunker :=
  let chunkSize := if chunkSize <=? 0 then 1000 else chunkSize in
  let overlap := if overlap <? 0 then 0 else overlap in
  let overlap := if overlap >=? chunkSize then Z.quot chunkSize 2 else overlap in
  mkChunker chunkSize overlap.

(** The backward scan of [findWordBoundary],
    [for i := endPos - 1; i >= scanStart; i-- { ... }]:
    [n] is the number of indices left in [scanStart .. i].  Gives the index
    of the whitespace it stops at, or [-1]. *)
Fixpoint scanBack (runes : list rune) (i : Z) (n : nat) : outcome Z :=
  match n with
  | O => Returns (-1)
  | S n' =>
    r <- index runes i ;;
    if Utf8.IsSpace r then Returns i
    else scanBack runes (GoInt.sub i 1) n'
  end.

(** [for splitPos < endPos && unicode.IsSpace(runes[splitPos]) { splitPos++ }];
    [n] bounds the iterations by [endPos - splitPos]. *)
Fixpoint skipSpaces (runes : list rune) (splitPos endPos : Z) (n : nat)
  : outcome Z :=
  match n with
  | O => Returns splitPos
  | S n' =>
    if splitPos <? endPos then
      r <- index runes splitPos ;;
      if Utf8.IsSpace r
      then skipSpaces runes (GoInt.add splitPos 1) endPos n'
      else Returns splitPos
    else Returns splitPos
  end.

Definition findWordBoundary (c : Chunker) (runes : list rune)
           (startPos endPos : Z) : outcome Z :=
  let maxScanBack := 100 in
  let maxScanBack :=
    if maxScanBack >? chunkSize c then chunkSize c else maxScanBack in
  let scanStart := GoInt.sub endPos maxScanBack in
  let scanStart := if scanStart <? startPos then startPos else scanStart in
  lastWhitespace <-
    scanBack runes (GoInt.sub endPos 1) (Z.to_nat (endPos - scanStart)) ;;
  if lastWhitespace >=? 0 then
    let splitPos := GoInt.add lastWhitespace 1 in
    skipSpaces runes splitPos endPos (Z.to_nat (endPos - splitPos))
  else Returns endPos.

(** The state of the [for position < totalLen] loop of [ChunkText]. *)
Record loopState : Type := mkLoop {
  chunks : list Chunk;
  chunkIndex : Z;
  position : Z
}.

(** "Determine chunk end position" and "Find word boundary if not at end":
    the [actualEnd] of the chunk that starts at [position]. *)
Definition chunkEnd (c : Chunker) (runes : list rune) (position : Z)
  : outcome Z :=
  let totalLen := GoInt.len runes in
  let endPos := GoInt.add position (chunkSize c) in
  let endPos := if endPos >? totalLen then totalLen else endPos in
  if endPos <? totalLen
  then findWordBoundary c runes position endPos
  else Returns endPos.

(** "Next chunk starts at (current end - overlap)", clamped at 0. *)
Definition nextPosition (c : Chunker) (actualEnd : Z) : Z :=
  let position := GoInt.sub actualEnd (overlap c) in
  if position <? 0 then 0 else position.

(** One iteration of the loop body: either the loop is left with the final
    chunk list ([inr]) or it goes round again ([inl]). *)
Definition loopBody (c : Chunker) (runes : list rune) (st : loopState)
  : outcome (loopState + list Chunk) :=
  let totalLen := GoInt.len runes in
  actualEnd <- chunkEnd c runes (position st) ;;
  chunkRunes <- slice runes (position st) actualEnd ;;
  let content := Utf8.string_of_runes chunkRunes in
  let chunks' :=
    chunks st ++ [mkChunk content (chunkIndex st) (position st) actualEnd] in
  if actualEnd >=? totalLen then Returns (inr chunks')
  else
    Returns (inl (mkLoop chunks' (GoInt.add (chunkIndex st) 1)
                         (nextPosition c actualEnd))).

Fixpoint chunkLoop (fuel : nat) (c : Chunker) (runes : list rune)
         (st : loopState) : outcome (list Chunk) :=
  match fuel with
  | O => OutOfFuel
  | S fuel' =>
    if position st <? GoInt.len runes then
      r <- loopBody c runes st ;;
      match r with
      | inr result => Returns result
      | inl st' => chunkLoop fuel' c runes st'
      end
    else Returns (chunks st)
  end.

(** The loop as a relation: [spans c runes p l] when the loop, entered
    with [position = p], is left after it has emitted chunks with the
    [(StartOffset, EndOffset)] pairs [l]. *)
Inductive spans (c : Chunker) (runes : list rune) : Z -> list (Z * Z) -> Prop :=
| spans_last (p e : Z) :
    chunkEnd c runes p = Returns e ->
    GoInt.len runes <= e ->
    spans c runes p [(p, e)]
| spans_more (p e : Z) (l : list (Z * Z)) :
    chunkEnd c runes p = Returns e ->
    e < GoInt.len runes ->
    spans c runes (nextPosition c e) l ->
    spans c runes p ((p, e) :: l).

Definition span (ch : Chunk) : Z * Z := (StartOffset ch, EndOffset ch).

(** [ChunkText], run for at most [fuel] iterations of its loop. *)
Definition ChunkText (fuel : nat) (c : Chunker) (text : gostring)
  : outcome (list Chunk) :=
  match text with
  | [] => Returns []
  | _ =>
    let runes := Utf8.runes text in
    let totalLen := GoInt.len runes in
    if totalLen <=? chunkSize c
    then Returns [mkChunk text 0 0 totalLen]
    else chunkLoop fuel c runes (mkLoop [] 0 0)
  end.

(** The rune at offset [i] is whitespace; no rune at an offset in
    [[lo, hi)] is. *)
Definition spaceAt (runes : list rune) (i : Z) : Prop :=
  exists r, nth_error runes (Z.to_nat i) = Some r /\ Utf8.IsSpace r = true.

Definition noSpaceIn (runes : list rune) (lo hi : Z) : Prop :=
  forall i r, lo <= i < hi -> nth_error runes (Z.to_nat i) = Some r ->
              Utf8.IsSpace r = false.

(** The runes of a text between two offsets. *)
Definition runesBetween (runes : list rune) (lo hi : Z) : list rune :=
  firstn (Z.to_nat (hi - lo)) (skipn (Z.to_nat lo) runes).

End Chunker.

(* ------------------------------------------------------------------ *)
(** ** Package [embeddings] *)

Module Embeddings.

Definition maxBatchSize : Z := 100.
Definition embeddingDimension : Z := 1536.
Definition maxRetries : Z := 3.
Definition StatusOK : Z := 200.
Definition StatusTooManyRequests : Z := 429.

Record apiError : Type := mkApiError {
  Message : gostring;
  Type_ : gostring;
  Code : gostring
}.

(** An element of [embeddingResponse.Data]. *)
Record dataItem : Type := mkItem {
  Embedding : list float32;
  Index : Z
}.

Record embeddingResponse : Type := mkResponse {
  Data : list dataItem;
  Error : option apiError
}.

(** What reading and parsing a response body gives. *)
Inductive body : Type :=
| Unreadable
| Malformed
| Json (r : embeddingResponse).

Record httpResponse : Type := mkHttp {
  StatusCode : Z;
  Body : body
}.

(** The world outside the client: [Do n input] is the answer to the [n]-th
    request the client sends ([None]: the transport fails), [ctxDone n]
    says whether the context is cancelled during the [n]-th wait. *)
Record Provider : Type := mkProvider {
  Do : nat -> list gostring -> option httpResponse;
  ctxDone : nat -> bool
}.

Record clientState : Type := mkClient {
  requests : nat;
  waits : nat
}.

Definition sent (st : clientState) : clientState :=
  mkClient (S (requests st)) (waits st).
Definition waited (st : clientState) : clientState :=
  mkClient (requests st) (S (waits st)).

(** The request loop of [embedBatch]: [retriesLeft] is
    [maxRetries - 1 - attempt].  A response with status 429 has its body
    closed before the loop is left or repeated. *)
Fixpoint requestLoop (p : Provider) (texts : list gostring)
         (retriesLeft : nat) (st : clientState)
  : clientState * result (httpResponse * bool) :=
  match Do p (requests st) texts with
  | None =>
    (sent st, Err (Errorf "failed to execute request: %w" [VErr (External "transport")]))
  | Some resp =>
    if StatusCode resp =? StatusTooManyRequests then
      match retriesLeft with
      | S k =>
        if ctxDone p (waits st)
        then (waited (sent st), Err (External "context canceled"))
        else requestLoop p texts k (waited (sent st))
      | O => (sent st, Ok (resp, true))
      end
    else (sent st, Ok (resp, false))
  end.

(** [s[i] = v] on a slice: panics outside [0, len(s)). *)
Definition assign {A : Type} (s : list A) (i : Z) (v : A) : outcome (list A) :=
  if (0 <=? i) && (i <? GoInt.len s)
  then Returns (firstn (Z.to_nat i) s ++ v :: skipn (S (Z.to_nat i)) s)
  else Panics "index out of range".

(** [for _, item := range embResp.Data { ... embeddings[item.Index] = item.Embedding }];
    a [nil] entry of [embeddings] is [None]. *)
Fixpoint place (embeddings : list (option (list float32)))
         (data : list dataItem)
  : outcome (result (list (option (list float32)))) :=
  match data with
  | [] => Returns (Ok embeddings)
  | item :: rest =>
    if Index item >=? GoInt.len embeddings
    then Returns (Err (Errorf "invalid embedding index: %d" [VInt (Index item)]))
    else if negb (GoInt.len (Embedding item) =? embeddingDimension)
    then Returns (Err (Errorf "unexpected embedding dimension: got %d, expected %d"
                              [VInt (GoInt.len (Embedding item));
                               VInt embeddingDimension]))
    else
      embeddings' <- assign embeddings (Index item) (Some (Embedding item)) ;;
      place embeddings' rest
  end.

(** [for i, emb := range embeddings { if emb == nil { return error } }]. *)
Fixpoint verify (embeddings : list (option (list float32))) (i : Z)
  : result (list (list float32)) :=
  match embeddings with
  | [] => Ok []
  | None :: _ => Err (Errorf "missing embedding for index %d" [VInt i])
  | Some emb :: rest =>
    match verify rest (i + 1) with
    | Ok l => Ok (emb :: l)
    | Err e => Err e
    end
  end.

(** "Extract embeddings in correct order" and "Verify all embeddings were
    received": the end of [embedBatch]. *)
Definition reassemble (n : nat) (data : list dataItem)
  : outcome (result (list (list float32))) :=
  r <- place (repeat None n) data ;;
  match r with
  | Ok embeddings => Returns (verify embeddings 0)
  | Err e => Returns (Err e)
  end.

Definition embedBatch (p : Provider) (texts : list gostring)
           (st : clientState)
  : clientState * outcome (result (list (list float32))) :=
  match requestLoop p texts (Z.to_nat (maxRetries - 1)) st with
  | (st', Err e) => (st', Returns (Err e))
  | (st', Ok (resp, closed)) =>
    if closed
    then (st', Returns (Err (Errorf "failed to read response: %w"
                                    [VErr (External "read on closed response body")])))
    else
      match Body resp with
      | Unreadable =>
        (st', Returns (Err (Errorf "failed to read response: %w" [VErr (External "read")])))
      | Malformed =>
        (st', Returns (Err (Errorf "failed to parse response: %w" [VErr (External "json")])))
      | Json embResp =>
        match Error embResp with
        | Some e =>
          (st', Returns (Err (Errorf "OpenAI API error: %s (type: %s)"
                                     [VStr (Message e); VStr (Type_ e)])))
        | None =>
          if negb (StatusCode resp =? StatusOK)
          then (st', Returns (Err (Errorf "HTTP error: %d %s, body: %s"
                                          [VInt (StatusCode resp)])))
          else (st', reassemble (length texts) (Data embResp))
        end
      end
  end.

(** The batch loop of [Embed], [for i := 0; i < len(texts); i += maxBatchSize]. *)
Fixpoint embedLoop (fuel : nat) (p : Provider) (texts : list gostring)
         (i : Z) (allEmbeddings : list (list float32)) (st : clientState)
  : clientState * outcome (result (list (list float32))) :=
  match fuel with
  | O => (st, OutOfFuel)
  | S fuel' =>
    if i <? GoInt.len texts then
      let end_ := GoInt.add i maxBatchSize in
      let end_ := if end_ >? GoInt.len texts then GoInt.len texts else end_ in
      match slice texts i end_ with
      | Returns batch =>
        match embedBatch p batch st with
        | (st1, Returns (Ok embeddings)) =>
          let allEmbeddings := allEmbeddings ++ embeddings in
          if end_ <? GoInt.len texts then
            if ctxDone p (waits st1)
            then (waited st1, Returns (Err (External "context canceled")))
            else embedLoop fuel' p texts (GoInt.add i maxBatchSize)
                           allEmbeddings (waited st1)
          else embedLoop fuel' p texts (GoInt.add i maxBatchSize)
                         allEmbeddings st1
        | (st1, Returns (Err e)) =>
          (st1, Returns (Err (Errorf "failed to embed batch [%d:%d]: %w"
                                     [VInt i; VInt end_; VErr e])))
        | (st1, Panics msg) => (st1, Panics msg)
        | (st1, OutOfFuel) => (st1, OutOfFuel)
        end
      | Panics msg => (st, Panics msg)
      | OutOfFuel => (st, OutOfFuel)
      end
    else (st, Returns (Ok allEmbeddings))
  end.

(** [Embed]; the loop runs once per batch and once more to leave. *)
Definition Embed (p : Provider) (texts : list gostring) (st : clientState)
  : clientState * outcome (result (list (list float32))) :=
  if GoInt.len texts =? 0 then (st, Returns (Ok []))
  else embedLoop (S (length texts)) p texts 0 [] st.

(** The batch that holds the [i]-th text. *)
Definition batchOf (texts : list gostring) (i : nat) : list gostring :=
  firstn 100 (skipn (100 * (i / 100)) texts).

(** An item that passes the two checks of the reassembly loop and whose
    tag is a position of the batch. *)
Definition wellTagged (n : Z) (item : dataItem) : Prop :=
  0 <= Index item < n /\ GoInt.len (Embedding item) = embeddingDimension.


End Embeddings.

(* ------------------------------------------------------------------ *)
(** ** Package [storage] *)

Module Storage.

Definition embeddingDimension : Z := 1536.

Record Chunk : Type := mkChunk {
  ID : Z;
  DocumentID : Z;
  ChunkIndex : Z;
  Content : gostring;
  StartOffset : Z;
  EndOffset : Z;
  Embedding : list float32
}.

Record SearchResult : Type := mkResult {
  ResultContent : gostring;
  ResultSource : gostring;
  ResultChunkIndex : Z;
  Score : Q
}.

(** *** The database *)

(** A row of table [documents]. *)
Record documentRow : Type := mkDocumentRow {
  id : Z;
  source : gostring;
  source_type : gostring;
  indexed_at : Z;
  content_size : Z;
  chunk_count : Z;
  title : gostring
}.

(** A row of table [chunks]. *)
Record chunkRow : Type := mkChunkRow {
  chunk_id : Z;
  document_id : Z;
  chunk_index : Z;
  content : gostring;
  start_offset : Z;
  end_offset : Z;
  embedding : list Z
}.

(** The two tables in rowid order and their AUTOINCREMENT counters (the
    rows of [sqlite_sequence]). *)
Record Tables : Type := mkTables {
  documents : list documentRow;
  chunks : list chunkRow;
  seq_documents : Z;
  seq_chunks : Z
}.

(** A connection: SQLite's per-connection [foreign_keys] setting and the
    current content of the database. *)
Record Database : Type := mkDatabase {
  foreign_keys : bool;
  tables : Tables
}.

(** The calls into [database/sql] that can fail for reasons other than
    the constraints of the schema: I/O, locking, a full disk, a limit of
    the engine (a row that is too big, a table out of rowids). *)
Inductive call : Type :=
| Begin
| ExecDelete
| ExecInsertDocument
| LastInsertId
| Prepare
| ExecInsertChunk (i : nat)
| Commit
| RowsAffected
| Query
| Scan (i : nat)
| RowsErr
| QueryRowScan
| SqlOpen
| ExecSchema.

(** The environment of a call: which driver calls fail, and the clock that
    [DEFAULT CURRENT_TIMESTAMP] reads. *)
Record Env : Type := mkEnv {
  fails : call -> bool;
  now : Z
}.

Definition driverError : error := External "sqlite3".

Definition emptyTables : Tables := mkTables [] [] 0 0.

(** [runMigrations]: [CREATE TABLE IF NOT EXISTS] keeps what the file
    holds and creates the two empty tables otherwise.  The foreign key of
    [chunks] is declared [ON DELETE CASCADE]. *)
Definition runMigrations (file : option Tables) : Tables :=
  match file with
  | Some t => t
  | None => emptyTables
  end.

(** [strings.IndexRune(s, c)] for an ASCII [c], counted from [i]: the
    offset of the first byte [c], or [-1]. *)
Fixpoint indexFrom (c : Z) (s : gostring) (i : Z) : Z :=
  match s with
  | [] => -1
  | b :: s' => if b =? c then i else indexFrom c s' (i + 1)
  end.

(** What the driver makes of the parameters of a data source name, the
    text after its first ['?'] (go-sqlite3 parses it with
    [url.ParseQuery] and reads [_foreign_keys] or [_fk] and its other
    parameters from it): an error, or the [foreign_keys] setting of the
    connections it opens. *)
Definition DSNReader : Type := gostring -> result bool.

(** The [foreign_keys] setting of a connection to [dsn], the string given
    to [sql.Open].  A ['?'] after the first byte starts the parameters;
    without parameters no PRAGMA is issued and the setting is SQLite's
    default, OFF. *)
Definition connect (readDSN : DSNReader) (dsn : gostring) : result bool :=
  let pos := indexFrom 63 dsn 0 in
  if pos >=? 1 then readDSN (skipn (Z.to_nat (pos + 1)) dsn) else Ok false.

(** [NewDatabase]: [dbPath] is the string given to [sql.Open], [file]
    what the database file holds, [vecLoaded] whether the [vec_version()]
    query succeeds.  [sql.Open] opens no connection: the first one is opened for
    the [vec_version()] query, and an error in the parameters of [dbPath]
    is reported there. *)
Definition NewDatabase (env : Env) (readDSN : DSNReader) (vecLoaded : bool)
           (file : option Tables) (dbPath : gostring) : result Database :=
  if fails env SqlOpen
  then Err (Errorf "failed to open database: %w" [VErr driverError])
  else
    match connect readDSN dbPath with
    | Err e =>
      Err (Errorf "sqlite-vec not available (did you call sqlite_vec.Auto()?): %w"
                  [VErr e])
    | Ok fk =>
      if negb vecLoaded
      then Err (Errorf "sqlite-vec not available (did you call sqlite_vec.Auto()?): %w"
                       [VErr driverError])
      else if fails env ExecSchema
      then Err (Errorf "failed to run migrations: %w" [VErr driverError])
      else Ok (mkDatabase fk (runMigrations file))
    end.

(** [DELETE FROM documents WHERE source = ?]: the rows removed from
    [documents] are counted; with [foreign_keys] on, [ON DELETE CASCADE]
    removes the chunk rows that reference them. *)
Definition deleteBySource (fk : bool) (src : gostring) (t : Tables)
  : Tables * Z :=
  let gone := filter (fun r => gostring_eqb (source r) src) (documents t) in
  let kept := filter (fun r => negb (gostring_eqb (source r) src)) (documents t) in
  let chunks' :=
    if fk
    then filter (fun c => negb (existsb (fun r => id r =? document_id c) gone))
                (chunks t)
    else chunks t in
  (mkTables kept chunks' (seq_documents t) (seq_chunks t), GoInt.len gone).

(** The rowid an AUTOINCREMENT table gives to a new row (a table that has
    run out of rowids makes the [Exec] fail with SQLITE_FULL, one of the
    failures of the driver call). *)
Definition nextRowid (seq : Z) (ids : list Z) : Z :=
  Z.max seq (fold_right Z.max 0 ids) + 1.

(** [INSERT INTO documents (source, source_type, content_size, chunk_count,
    title) VALUES (...)]: [source] is UNIQUE. *)
Definition insertDocument (env : Env) (src sourceType : gostring)
           (contentSize chunkCount : Z) (ttl : gostring) (t : Tables)
  : result (Tables * Z) :=
  if existsb (fun r => gostring_eqb (source r) src) (documents t)
  then Err (External "UNIQUE constraint failed: documents.source")
  else
    let rowid := nextRowid (seq_documents t) (map id (documents t)) in
    let row := mkDocumentRow rowid src sourceType (now env)
                             contentSize chunkCount ttl in
    Ok (mkTables (documents t ++ [row]) (chunks t) rowid (seq_chunks t), rowid).

(** [INSERT INTO chunks (document_id, chunk_index, content, start_offset,
    end_offset, embedding) VALUES (...)].  [embedding] is [BLOB NOT NULL],
    and the driver binds an empty [[]byte] that is [nil] (what
    [serializeEmbedding] returns for an empty vector) as NULL; the other
    columns are bound from Go integers and strings, which are never NULL.
    With [foreign_keys] on, [document_id] has to be the id of a
    document. *)
Definition insertChunk (fk : bool) (documentID chunkIndex : Z)
           (cont : gostring) (startOffset endOffset : Z) (blob : list Z)
           (t : Tables) : result Tables :=
  match blob with
  | [] => Err (External "NOT NULL constraint failed: chunks.embedding")
  | _ :: _ =>
    if fk && negb (existsb (fun r => id r =? documentID) (documents t))
    then Err (External "FOREIGN KEY constraint failed")
    else
      let rowid := nextRowid (seq_chunks t) (map chunk_id (chunks t)) in
      let row := mkChunkRow rowid documentID chunkIndex cont
                            startOffset endOffset blob in
      Ok (mkTables (documents t) (chunks t ++ [row]) (seq_documents t) rowid)
  end.

(** *** Serialization *)

(** The four bytes of a [float32], little-endian. *)
Definition le32 (bits : float32) : list Z :=
  [Z.land bits 255; Z.land (Z.shiftr bits 8) 255;
   Z.land (Z.shiftr bits 16) 255; Z.land (Z.shiftr bits 24) 255].

(** [binary.Write] of a [[]float32] has no failing case. *)
Definition serializeEmbedding (emb : list float32) : result (list Z) :=
  Ok (flat_map le32 emb).

(** *** IndexDocument *)

(** [for _, chunk := range chunks { contentSize += len(chunk.Content) }]. *)
Definition contentSizeOf (chunks : list Chunk) : Z :=
  fold_left (fun contentSize chunk => GoInt.add contentSize (GoInt.len (Content chunk)))
            chunks 0.

(** The chunk loop of [IndexDocument], on the tables of the open
    transaction; [i] counts the [stmt.Exec] calls. *)
Fixpoint insertChunks (env : Env) (fk : bool) (documentID : Z)
         (cs : list Chunk) (i : nat) (t : Tables) : result Tables :=
  match cs with
  | [] => Ok t
  | chunk :: rest =>
    match serializeEmbedding (Embedding chunk) with
    | Err e => Err (Errorf "failed to serialize embedding: %w" [VErr e])
    | Ok embeddingBlob =>
      if fails env (ExecInsertChunk i)
      then Err (Errorf "failed to insert chunk: %w" [VErr driverError])
      else
        match insertChunk fk documentID (ChunkIndex chunk) (Content chunk)
                          (StartOffset chunk) (EndOffset chunk)
                          embeddingBlob t with
        | Err e => Err (Errorf "failed to insert chunk: %w" [VErr e])
        | Ok t' => insertChunks env fk documentID rest (S i) t'
        end
    end
  end.

(** The statements of [IndexDocument] between [Begin] and [Commit], run on
    the tables of the open transaction: the tables reached and the error,
    if any, that makes the function return. *)
Definition indexStatements (env : Env) (fk : bool)
           (src sourceType ttl : gostring) (cs : list Chunk) (t : Tables)
  : Tables * option error :=
  if fails env ExecDelete
  then (t, Some (Errorf "failed to delete existing document: %w" [VErr driverError]))
  else
    let t1 := fst (deleteBySource fk src t) in
    let contentSize := contentSizeOf cs in
    if fails env ExecInsertDocument
    then (t1, Some (Errorf "failed to insert document: %w" [VErr driverError]))
    else
      match insertDocument env src sourceType contentSize (GoInt.len cs) ttl t1 with
      | Err e => (t1, Some (Errorf "failed to insert document: %w" [VErr e]))
      | Ok (t2, documentID) =>
        if fails env LastInsertId
        then (t2, Some (Errorf "failed to get document ID: %w" [VErr driverError]))
        else if fails env Prepare
        then (t2, Some (Errorf "failed to prepare chunk insert: %w" [VErr driverError]))
        else
          match insertChunks env fk documentID cs 0 t2 with
          | Err e => (t2, Some e)
          | Ok t3 => (t3, None)
          end
      end.

(** [IndexDocument].  [tx.Begin] journals the database; the deferred
    [tx.Rollback] restores the journal on every return before [Commit]; a
    [Commit] that fails leaves the transaction rolled back, and after a
    [Commit] the deferred [Rollback] does nothing. *)
Definition IndexDocument (env : Env) (d : Database)
           (src sourceType ttl : gostring) (cs : list Chunk)
  : Database * option error :=
  if fails env Begin
  then (d, Some (Errorf "failed to begin transaction: %w" [VErr driverError]))
  else
    let journal := tables d in
    let rollback := mkDatabase (foreign_keys d) journal in
    match indexStatements env (foreign_keys d) src sourceType ttl cs (tables d) with
    | (_, Some e) => (rollback, Some e)
    | (t, None) =>
      if fails env Commit
      then (rollback, Some driverError)
      else (mkDatabase (foreign_keys d) t, None)
    end.

(** *** Search *)

Section Search.

(** The value SQLite computes for
    [(1 - vec_distance_cosine(c.embedding, ?))] on a chunk's blob and
    the query's blob (the function comes from the sqlite-vec
    extension). *)
Variable cosineScore : list Z -> list Z -> Q.

(** [FROM chunks c JOIN documents d ON c.document_id = d.id]. *)
Definition joinRows (t : Tables) : list (chunkRow * documentRow) :=
  flat_map (fun c =>
              map (fun d => (c, d))
                  (filter (fun d => document_id c =? id d) (documents t)))
           (chunks t).

(** [WHERE 1=1] and, for a non-empty filter, [AND d.source = ?]. *)
Definition whereSource (sourceFilter : gostring)
           (rows : list (chunkRow * documentRow))
  : list (chunkRow * documentRow) :=
  match sourceFilter with
  | [] => rows
  | _ => filter (fun cd => gostring_eqb (source (snd cd)) sourceFilter) rows
  end.

(** [SELECT c.content, d.source, c.chunk_index, (...) AS score]. *)
Definition selectColumns (queryBlob : list Z) (cd : chunkRow * documentRow)
  : SearchResult :=
  mkResult (content (fst cd)) (source (snd cd)) (chunk_index (fst cd))
           (cosineScore (embedding (fst cd)) queryBlob).

(** [ORDER BY score DESC]: rows of equal score keep their order. *)
Fixpoint insertDesc (r : SearchResult) (l : list SearchResult)
  : list SearchResult :=
  match l with
  | [] => [r]
  | x :: l' =>
    if Qle_bool (Score x) (Score r) then r :: l else x :: insertDesc r l'
  end.

Definition orderByScoreDesc (l : list SearchResult) : list SearchResult :=
  fold_right insertDesc [] l.

(** Descending by score. *)
Definition descending (a b : SearchResult) : Prop := (Score b <= Score a)%Q.

(** [LIMIT ?]: a negative limit is no limit in SQLite. *)
Definition limit (topK : Z) (l : list SearchResult) : list SearchResult :=
  if topK <? 0 then l else firstn (Z.to_nat topK) l.

(** The rows the query of [Search] yields. *)
Definition searchQuery (t : Tables) (queryBlob : list Z) (topK : Z)
           (sourceFilter : gostring) : list SearchResult :=
  limit topK
        (orderByScoreDesc
           (map (selectColumns queryBlob)
                (whereSource sourceFilter (joinRows t)))).

(** The rows that the query ranks: every chunk joined to its document,
    restricted to the source when one is given. *)
Definition candidates (t : Tables) (queryBlob : list Z)
           (sourceFilter : gostring) : list SearchResult :=
  map (selectColumns queryBlob) (whereSource sourceFilter (joinRows t)).

(** [for rows.Next() { Scan; if result.Score >= minScore { append } }]. *)
Fixpoint scanRows (env : Env) (minScore : Q) (rows : list SearchResult)
         (i : nat) (results : list SearchResult)
  : result (list SearchResult) :=
  match rows with
  | [] => Ok results
  | row :: rest =>
    if fails env (Scan i)
    then Err (Errorf "failed to scan search result: %w" [VErr driverError])
    else if Qle_bool minScore (Score row)
    then scanRows env minScore rest (S i) (results ++ [row])
    else scanRows env minScore rest (S i) results
  end.

Definition Search (env : Env) (d : Database) (queryEmbedding : list float32)
           (topK : Z) (minScore : Q) (sourceFilter : gostring)
  : result (list SearchResult) :=
  if negb (GoInt.len queryEmbedding =? embeddingDimension)
  then Err (Errorf "invalid query embedding dimension: got %d, expected %d"
                   [VInt (GoInt.len queryEmbedding); VInt embeddingDimension])
  else
    match serializeEmbedding queryEmbedding with
    | Err e => Err (Errorf "failed to serialize query embedding: %w" [VErr e])
    | Ok queryBlob =>
      if fails env Query
      then Err (Errorf "failed to execute search query: %w" [VErr driverError])
      else
        match scanRows env minScore
                       (searchQuery (tables d) queryBlob topK sourceFilter)
                       0 [] with
        | Err e => Err e
        | Ok results =>
          if fails env RowsErr
          then Err (Errorf "error iterating search results: %w" [VErr driverError])
          else Ok results
        end
    end.

End Search.

(** *** DeleteDocument and DocumentExists *)

(** [DeleteDocument]: the statement runs outside a transaction and is
    committed when [Exec] returns. *)
Definition DeleteDocument (env : Env) (d : Database) (src : gostring)
  : Database * option error :=
  if fails env ExecDelete
  then (d, Some (Errorf "failed to delete document: %w" [VErr driverError]))
  else
    let (t, rowsAffected) := deleteBySource (foreign_keys d) src (tables d) in
    let d' := mkDatabase (foreign_keys d) t in
    if fails env RowsAffected
    then (d', Some (Errorf "failed to get rows affected: %w" [VErr driverError]))
    else if rowsAffected =? 0
    then (d', Some (Errorf "document not found: %s" [VStr src]))
    else (d', None).

Definition DocumentExists (env : Env) (d : Database) (src : gostring)
  : result bool :=
  if fails env QueryRowScan
  then Err (Errorf "failed to check document existence: %w" [VErr driverError])
  else
    let count :=
      GoInt.len (filter (fun r => gostring_eqb (source r) src)
                        (documents (tables d))) in
    Ok (count >? 0).

(** The chunk row that stores [ch] for document [documentID]. *)
Definition stores (documentID : Z) (row : chunkRow) (ch : Chunk) : Prop :=
  row = mkChunkRow (chunk_id row) documentID (ChunkIndex ch) (Content ch)
                   (StartOffset ch) (EndOffset ch)
                   (flat_map le32 (Embedding ch)).

(** The calls of an [IndexDocument] of [n] chunks, in program order. *)
Definition indexCalls (n : nat) : list call :=
  [Begin; ExecDelete; ExecInsertDocument; LastInsertId; Prepare]
    ++ map ExecInsertChunk (seq 0 n) ++ [Commit].

(** AUTOINCREMENT keeps the counter of [documents] at or above every id
    it has given out: those of the document rows and those that chunk rows
    refer to. *)
Definition sequenced (t : Tables) : Prop :=
  Forall (fun r => id r <= seq_documents t) (documents t) /\
  Forall (fun c => document_id c <= seq_documents t) (chunks t).

(** A chunk row whose [document_id] is the id of no document row. *)
Definition orphan (t : Tables) (c : chunkRow) : bool :=
  negb (existsb (fun r => id r =? document_id c) (documents t)).

(** *** deserializeEmbedding *)

(** [binary.LittleEndian.Uint32]: the [float32] whose four bytes these
    are. *)
Definition fromLe32 (b0 b1 b2 b3 : Z) : float32 :=
  Z.lor b0 (Z.lor (Z.shiftl b1 8) (Z.lor (Z.shiftl b2 16) (Z.shiftl b3 24))).

(** Decoding [n] values from the buffer [binary.Read] has filled. *)
Fixpoint decodeFloats (n : nat) (buf : list Z) : list float32 :=
  match n with
  | O => []
  | S n' =>
    match buf with
    | b0 :: b1 :: b2 :: b3 :: rest => fromLe32 b0 b1 b2 b3 :: decodeFloats n' rest
    | _ => []
    end
  end.

(** [deserializeEmbedding]: [binary.Read] into a slice of
    [embeddingDimension] values reads exactly [embeddingDimension * 4] bytes
    with [io.ReadFull]: fewer bytes are an error ([io.EOF] for none,
    [io.ErrUnexpectedEOF] otherwise), bytes beyond are left unread. *)
Definition deserializeEmbedding (data : list Z) : result (list float32) :=
  let size := embeddingDimension * 4 in
  if GoInt.len data =? 0 then Err (External "EOF")
  else if GoInt.len data <? size then Err (External "unexpected EOF")
  else Ok (decodeFloats (Z.to_nat embeddingDimension)
                        (firstn (Z.to_nat size) data)).

(** *** ListDocuments *)

Record Document : Type := mkDocument {
  DocID : Z;
  Source : gostring;
  SourceType : gostring;
  IndexedAt : Z;
  ContentSize : Z;
  ChunkCount : Z;
  Title : gostring
}.

(** [ORDER BY indexed_at DESC]: rows of equal time keep their order. *)
Fixpoint insertNewest (r : documentRow) (l : list documentRow)
  : list documentRow :=
  match l with
  | [] => [r]
  | x :: l' =>
    if indexed_at x <=? indexed_at r then r :: l else x :: insertNewest r l'
  end.

Definition orderByIndexedAtDesc (l : list documentRow) : list documentRow :=
  fold_right insertNewest [] l.

(** [WHERE 1=1] and, for a non-empty filter, [AND source_type = ?]. *)
Definition whereSourceType (sourceTypeFilter : gostring)
           (rows : list documentRow) : list documentRow :=
  match sourceTypeFilter with
  | [] => rows
  | _ => filter (fun r => gostring_eqb (source_type r) sourceTypeFilter) rows
  end.

(** The rows the query of [ListDocuments] yields. *)
Definition listQuery (t : Tables) (sourceTypeFilter : gostring)
  : list documentRow :=
  orderByIndexedAtDesc (whereSourceType sourceTypeFilter (documents t)).

(** [for rows.Next() { Scan; documents = append(documents, doc) }]. *)
Fixpoint scanDocuments (env : Env) (rows : list documentRow) (i : nat)
         (docs : list Document) : result (list Document) :=
  match rows with
  | [] => Ok docs
  | row :: rest =>
    if fails env (Scan i)
    then Err (Errorf "failed to scan document: %w" [VErr driverError])
    else scanDocuments env rest (S i)
                       (docs ++ [mkDocument (id row) (source row) (source_type row)
                                            (indexed_at row) (content_size row)
                                            (chunk_count row) (title row)])
  end.

Definition ListDocuments (env : Env) (d : Database)
           (sourceTypeFilter : gostring) : result (list Document) :=
  if fails env Query
  then Err (Errorf "failed to list documents: %w" [VErr driverError])
  else
    match scanDocuments env (listQuery (tables d) sourceTypeFilter) 0 [] with
    | Err e => Err e
    | Ok docs =>
      if fails env RowsErr
      then Err (Errorf "error iterating documents: %w" [VErr driverError])
      else Ok docs
    end.

(** The [Document] that [ListDocuments] scans from a row. *)
Definition documentOf (row : documentRow) : Document :=
  mkDocument (id row) (source row) (source_type row) (indexed_at row)
             (content_size row) (chunk_count row) (title row).

(** Newest first. *)
Definition newestFirst (a b : Document) : Prop := IndexedAt b <= IndexedAt a.

(** *** The databases the program reaches *)

(** From a fresh file, by [IndexDocument] and [DeleteDocument] under any
    environment, and by opening the file again. *)
Inductive reachable : Database -> Prop :=
| reach_new (env : Env) (readDSN : DSNReader) (dbPath : gostring)
            (d : Database) :
    NewDatabase env readDSN true None dbPath = Ok d -> reachable d
| reach_reopen (env : Env) (readDSN : DSNReader) (dbPath : gostring)
               (d d' : Database) :
    reachable d ->
    NewDatabase env readDSN true (Some (tables d)) dbPath = Ok d' ->
    reachable d'
| reach_index (env : Env) (d : Database) (src sourceType ttl : gostring)
              (cs : list Chunk) :
    reachable d ->
    reachable (fst (IndexDocument env d src sourceType ttl cs))
| reach_delete (env : Env) (d : Database) (src : gostring) :
    reachable d -> reachable (fst (DeleteDocument env d src)).

(** The chunk rows of a document. *)
Definition chunksOf (t : Tables) (documentID : Z) : list chunkRow :=
  filter (fun c => document_id c =? documentID) (chunks t).

(** Keys are unique and every document row counts its chunk rows. *)
Definition consistent (t : Tables) : Prop :=
  NoDup (map source (documents t)) /\
  NoDup (map id (documents t)) /\
  sequenced t /\
  Forall (fun r => chunk_count r = GoInt.len (chunksOf t (id r))) (documents t).

End Storage.

(* ------------------------------------------------------------------ *)
(** ** Package [config] *)

Module Config.

Record Config : Type := mkConfig {
  OpenAIAPIKey : gostring;
  DBPath : gostring;
  ChunkSize : Z;
  Overlap : Z
}.

(** The decimal digits of [strconv.Atoi]'s argument, most significant
    first; [None] at a byte that is no digit. *)
Fixpoint digits (s : gostring) (n : Z) : option Z :=
  match s with
  | [] => Some n
  | ch :: s' =>
    if (48 <=? ch) && (ch <=? 57) then digits s' (n * 10 + (ch - 48)) else None
  end.

(** [strconv.Atoi]: an optional sign and at least one decimal digit, the
    value within [int]; [None] for the syntax and range errors. *)
Definition Atoi (s : gostring) : option Z :=
  let signed (neg : bool) (ds : gostring) : option Z :=
    match ds with
    | [] => None
    | _ =>
      match digits ds 0 with
      | None => None
      | Some n =>
        let n := if neg then - n else n in
        if (GoInt.min_int <=? n) && (n <=? GoInt.max_int) then Some n else None
      end
    end in
  match s with
  | [] => None
  | ch :: rest =>
    if ch =? 45 then signed true rest
    else if ch =? 43 then signed false rest
         else signed false s
  end.

Definition getEnvOrDefault (Getenv : gostring -> gostring)
           (key defaultValue : gostring) : gostring :=
  match Getenv key with
  | [] => defaultValue
  | value => value
  end.

Definition getEnvAsIntOrDefault (Getenv : gostring -> gostring)
           (key : gostring) (defaultValue : Z) : Z :=
  match Getenv key with
  | [] => defaultValue
  | valueStr =>
    match Atoi valueStr with
    | Some value => value
    | None => defaultValue
    end
  end.

(** [LoadConfig], in the environment [Getenv] ([os.Getenv]: the value
    of a variable, empty when it is not set). *)
Definition LoadConfig (Getenv : gostring -> gostring) : result Config :=
  let cfg :=
    mkConfig (Getenv (gostr "OPENAI_API_KEY"))
             (getEnvOrDefault Getenv (gostr "DB_PATH") (gostr "db_data/doc_search.db"))
             (getEnvAsIntOrDefault Getenv (gostr "CHUNK_SIZE") 1000)
             (getEnvAsIntOrDefault Getenv (gostr "OVERLAP") 100) in
  match OpenAIAPIKey cfg with
  | [] => Err (Errorf "OPENAI_API_KEY environment variable is required" [])
  | _ =>
    if ChunkSize cfg <=? 0
    then Err (Errorf "CHUNK_SIZE must be positive, got %d" [VInt (ChunkSize cfg)])
    else if Overlap cfg <? 0
    then Err (Errorf "OVERLAP must be non-negative, got %d" [VInt (Overlap cfg)])
    else if Overlap cfg >=? ChunkSize cfg
    then Err (Errorf "OVERLAP must be less than CHUNK_SIZE (overlap: %d, chunk_size: %d)"
                     [VInt (Overlap cfg); VInt (ChunkSize cfg)])
    else Ok cfg
  end.

End Config.

(* ------------------------------------------------------------------ *)
(** ** Package [fetcher] *)

Module Fetcher.

Record FetchResult : Type := mkFetchResult {
  Content : gostring;
  Title : gostring;
  Size : Z
}.

(** [strings.HasPrefix]. *)
Fixpoint HasPrefix (s prefix : gostring) : bool :=
  match prefix, s with
  | [], _ => true
  | _ :: _, [] => false
  | p :: prefix', b :: s' => (b =? p) && HasPrefix s' prefix'
  end.

(** [strings.Contains]: [substr] starts at some offset of [s]. *)
Fixpoint Contains (s substr : gostring) : bool :=
  HasPrefix s substr ||
  match s with
  | [] => false
  | _ :: s' => Contains s' substr
  end.

(** [isTextContent]; [ToLower] is [strings.ToLower]. *)
Definition isTextContent (ToLower : gostring -> gostring)
           (contentType : gostring) : bool :=
  let contentType := ToLower contentType in
  Contains contentType (gostr "text/plain") ||
  Contains contentType (gostr "text/html") ||
  Contains contentType (gostr "text/markdown") ||
  Contains contentType (gostr "text/").

End Fetcher.

(* ------------------------------------------------------------------ *)
(** ** Package [search]: the orchestrator *)

Module Service.

Record DeleteRequest : Type := mkDeleteRequest {
  RequestSource : gostring
}.

Record DeleteResponse : Type := mkDeleteResponse {
  Source : gostring;
  Deleted : bool;
  Message : text
}.

(** [Delete]: the response, the error (always [nil]) and the database
    afterwards. *)
Definition Delete (env : Storage.Env) (db : Storage.Database)
           (req : DeleteRequest)
  : Storage.Database * (DeleteResponse * option error) :=
  match Storage.DeleteDocument env db (RequestSource req) with
  | (db', Some err) =>
    (db', (mkDeleteResponse (RequestSource req) false
                            (Sprintf "Failed to delete: %v" [VErr err]),
           None))
  | (db', None) =>
    (db', (mkDeleteResponse (RequestSource req) true
                            (Sprintf "Successfully deleted %s"
                                     [VStr (RequestSource req)]),
           None))
  end.

Record SearchRequest : Type := mkSearchRequest {
  Query : gostring;
  TopK : Z;
  MinScore : Q;
  SourceFilter : gostring
}.

Record SearchResultItem : Type := mkItem {
  ItemContent : gostring;
  ItemSource : gostring;
  ItemChunkIndex : Z;
  ItemScore : Q
}.

Record SearchResponse : Type := mkSearchResponse {
  Results : list SearchResultItem;
  Count : Z
}.

(** [Search]: a [TopK] that is not positive becomes 5 before the store is
    asked. *)
Definition Search (cosineScore : list Z -> list Z -> Q)
           (p : Embeddings.Provider) (env : Storage.Env) (db : Storage.Database)
           (req : SearchRequest) (st : Embeddings.clientState)
  : Embeddings.clientState * outcome (result SearchResponse) :=
  let topK := if TopK req <=? 0 then 5 else TopK req in
  match Embeddings.Embed p [Query req] st with
  | (st', Returns (Ok embeddings)) =>
    match embeddings with
    | [] => (st', Returns (Err (Errorf "no embedding returned for query" [])))
    | queryEmbedding :: _ =>
      match Storage.Search cosineScore env db queryEmbedding topK
                           (MinScore req) (SourceFilter req) with
      | Err e =>
        (st', Returns (Err (Errorf "failed to search database: %w" [VErr e])))
      | Ok results =>
        let items :=
          map (fun r => mkItem (Storage.ResultContent r) (Storage.ResultSource r)
                               (Storage.ResultChunkIndex r) (Storage.Score r))
              results in
        (st', Returns (Ok (mkSearchResponse items (GoInt.len items))))
      end
    end
  | (st', Returns (Err e)) =>
    (st', Returns (Err (Errorf "failed to embed query: %w" [VErr e])))
  | (st', Panics msg) => (st', Panics msg)
  | (st', OutOfFuel) => (st', OutOfFuel)
  end.

(** What [Index] reads from outside the program: [os.ReadFile] and the
    fetcher's [FetchURL]. *)
Record World : Type := mkWorld {
  ReadFile : gostring -> result gostring;
  FetchURL : gostring -> result Fetcher.FetchResult
}.

Record IndexRequest : Type := mkIndexRequest {
  FilePath : gostring;
  URL : gostring;
  RequestContent : gostring;
  IndexSource : gostring;
  Reindex : bool
}.

Record IndexResponse : Type := mkIndexResponse {
  IndexedSource : gostring;
  IndexedSourceType : gostring;
  ChunkCount : Z;
  IndexMessage : text
}.

(** [s != ""]. *)
Definition nonEmpty (s : gostring) : bool :=
  match s with
  | [] => false
  | _ => true
  end.

Definition hasFilePath (req : IndexRequest) : bool := nonEmpty (FilePath req).

Definition hasURL (req : IndexRequest) : bool := nonEmpty (URL req).

Definition hasContent (req : IndexRequest) : bool :=
  nonEmpty (RequestContent req) && nonEmpty (IndexSource req).

Definition sourceCount (req : IndexRequest) : Z :=
  let sourceCount := 0 in
  let sourceCount := if hasFilePath req then sourceCount + 1 else sourceCount in
  let sourceCount := if hasURL req then sourceCount + 1 else sourceCount in
  if hasContent req then sourceCount + 1 else sourceCount.

(** What is indexed, read off the request. *)
Record fetched : Type := mkFetched {
  content : gostring;
  source : gostring;
  sourceType : gostring;
  title : gostring
}.

(** "Fetch content based on source type". *)
Definition fetchContent (w : World) (req : IndexRequest) : result fetched :=
  if hasFilePath req then
    match ReadFile w (FilePath req) with
    | Err readErr => Err (Errorf "failed to read file: %w" [VErr readErr])
    | Ok contentBytes => Ok (mkFetched contentBytes (FilePath req) (gostr "file") [])
    end
  else if hasURL req then
    match FetchURL w (URL req) with
    | Err fetchErr => Err (Errorf "failed to fetch URL: %w" [VErr fetchErr])
    | Ok fetchResult =>
      Ok (mkFetched (Fetcher.Content fetchResult) (URL req) (gostr "url")
                    (Fetcher.Title fetchResult))
    end
  else Ok (mkFetched (RequestContent req) (IndexSource req) (gostr "content") []).

(** "Check if already indexed". *)
Definition checkIndexed (env : Storage.Env) (db : Storage.Database)
           (req : IndexRequest) (src : gostring) : option error :=
  if Reindex req then None
  else
    match Storage.DocumentExists env db src with
    | Err err => Some (Errorf "failed to check if document exists: %w" [VErr err])
    | Ok true =>
      Some (Errorf "document already indexed: %s (use reindex=true to force re-indexing)"
                   [VStr src])
    | Ok false => None
    end.

(** "Create storage chunks": [chunkEmbeddings] has as many entries as
    [chunks] where this is reached. *)
Definition storageChunks (chunks : list Chunker.Chunk)
           (chunkEmbeddings : list (list float32)) : list Storage.Chunk :=
  map (fun ce =>
         Storage.mkChunk 0 0 (Chunker.Index (fst ce)) (Chunker.Content (fst ce))
                         (Chunker.StartOffset (fst ce)) (Chunker.EndOffset (fst ce))
                         (snd ce))
      (combine chunks chunkEmbeddings).

(** [Index], with [fuel] iterations for the loop of the chunker: the
    state of the embeddings client and the database afterwards, and the
    response or the error. *)
Definition Index (w : World) (p : Embeddings.Provider) (env : Storage.Env)
           (c : Chunker.Chunker) (fuel : nat)
           (db : Storage.Database) (req : IndexRequest)
           (st : Embeddings.clientState)
  : Embeddings.clientState * Storage.Database * outcome (result IndexResponse) :=
  if sourceCount req =? 0 then
    (st, db,
     Returns (Err (Errorf "must provide exactly one of: file_path, url, or (content + source)" [])))
  else if sourceCount req >? 1 then
    (st, db,
     Returns (Err (Errorf "provide exactly one of: file_path, url, or (content + source)" [])))
  else
    match fetchContent w req with
    | Err e => (st, db, Returns (Err e))
    | Ok f =>
      match checkIndexed env db req (source f) with
      | Some e => (st, db, Returns (Err e))
      | None =>
        match Chunker.ChunkText fuel c (content f) with
        | Panics msg => (st, db, Panics msg)
        | OutOfFuel => (st, db, OutOfFuel)
        | Returns [] =>
          (st, db,
           Returns (Err (Errorf "no chunks generated from content (is the content empty?)" [])))
        | Returns chunks =>
          let chunkTexts := map Chunker.Content chunks in
          match Embeddings.Embed p chunkTexts st with
          | (st', Panics msg) => (st', db, Panics msg)
          | (st', OutOfFuel) => (st', db, OutOfFuel)
          | (st', Returns (Err err)) =>
            (st', db, Returns (Err (Errorf "failed to embed chunks: %w" [VErr err])))
          | (st', Returns (Ok chunkEmbeddings)) =>
            if negb (GoInt.len chunkEmbeddings =? GoInt.len chunks) then
              (st', db,
               Returns (Err (Errorf "embedding count mismatch: got %d embeddings for %d chunks"
                                    [VInt (GoInt.len chunkEmbeddings);
                                     VInt (GoInt.len chunks)])))
            else
              match Storage.IndexDocument env db (source f) (sourceType f) (title f)
                                          (storageChunks chunks chunkEmbeddings) with
              | (db', Some err) =>
                (st', db',
                 Returns (Err (Errorf "failed to store document: %w" [VErr err])))
              | (db', None) =>
                (st', db',
                 Returns (Ok (mkIndexResponse
                                (source f) (sourceType f) (GoInt.len chunks)
                                (Sprintf "Successfully indexed %s (%d chunks)"
                                         [VStr (source f); VInt (GoInt.len chunks)]))))
              end
          end
        end
      end
    end.

End Service.

(* ------------------------------------------------------------------ *)
(** ** Concrete inputs used below *)

Module Examples.

(** A provider that embeds a text as 1536 copies of its length and
    returns the items of a batch in reverse order. *)
Fixpoint taggedFrom (i : Z) (input : list gostring) : list Embeddings.dataItem :=
  match input with
  | [] => []
  | t :: rest =>
    Embeddings.mkItem (repeat (GoInt.len t) 1536) i :: taggedFrom (i + 1) rest
  end.

Definition reversingProvider : Embeddings.Provider :=
  Embeddings.mkProvider
    (fun _ input =>
       Some (Embeddings.mkHttp 200
               (Embeddings.Json
                  (Embeddings.mkResponse (rev (taggedFrom 0 input)) None))))
    (fun _ => false).

(** A provider whose answer carries one well-sized vector tagged [-1]. *)
Definition negativeTagProvider : Embeddings.Provider :=
  Embeddings.mkProvider
    (fun _ _ =>
       Some (Embeddings.mkHttp 200
               (Embeddings.Json
                  (Embeddings.mkResponse
                     [Embeddings.mkItem (repeat 0 1536) (-1)] None))))
    (fun _ => false).

(** A store in which no driver call fails. *)
Definition quietEnv : Storage.Env := Storage.mkEnv (fun _ => false) 0.

Definition dbPath : gostring := gostr "db_data/doc_search.db".

(** The database [NewDatabase] opens on a fresh file at the default
    path. *)
Definition freshDatabase : Storage.Database :=
  Storage.mkDatabase false Storage.emptyTables.

Definition helloChunk : Storage.Chunk :=
  Storage.mkChunk 0 0 0 (gostr "hello") 0 5 (repeat 0 1536).

Definition worldChunk : Storage.Chunk :=
  Storage.mkChunk 0 0 0 (gostr "world") 0 5 (repeat 1 1536).

(** The text U+4E16 U+754C: two code points, six bytes of UTF-8. *)
Definition twoHan : gostring := [0xE4; 0xB8; 0x96; 0xE7; 0x95; 0x8C].

Definition hanChunk : Storage.Chunk :=
  Storage.mkChunk 0 0 0 twoHan 0 2 (repeat 0 1536).

(** A stand-in for the score SQLite computes: a tenth of the first byte
    of the chunk's blob. *)
Definition byteScore (blob queryBlob : list Z) : Q := Qmake (nth 0 blob 0) 10.

Definition scored (text : string) (index : Z) (bits : float32) : Storage.Chunk :=
  Storage.mkChunk 0 0 index (gostr text) 0 4 (repeat bits 1536).

(** A store that held ["gone.txt"], now deleted, and holds ["a.txt"] with
    three chunks of scores 0.5, 0.9 and 0.2. *)
Definition rankedDatabase : Storage.Database :=
  let d1 := fst (Storage.IndexDocument quietEnv freshDatabase
                                       (gostr "gone.txt") (gostr "file") []
                                       [helloChunk]) in
  let d2 := fst (Storage.DeleteDocument quietEnv d1 (gostr "gone.txt")) in
  fst (Storage.IndexDocument quietEnv d2 (gostr "a.txt") (gostr "file") []
                             [scored "half" 0 5; scored "nine" 1 9;
                              scored "two " 2 2]).

Definition query : list float32 := repeat 0 1536.

(** A vector of dimension 1536 with values 1.0, -2.5 and the largest
    finite [float32], as bit patterns. *)
Definition mixedVector : list float32 :=
  repeat 0x3F800000 512 ++ repeat 0xC0200000 512 ++ repeat 0x7F7FFFFF 512.

(** A store that holds ["a.txt"] indexed at time 10, ["b.txt"] indexed at
    time 20 and the inline content ["note"] indexed at time 30. *)
Definition listedDatabase : Storage.Database :=
  let at_ (now : Z) := Storage.mkEnv (fun _ => false) now in
  let d1 := fst (Storage.IndexDocument (at_ 10) freshDatabase
                                       (gostr "a.txt") (gostr "file") []
                                       [helloChunk]) in
  let d2 := fst (Storage.IndexDocument (at_ 20) d1
                                       (gostr "b.txt") (gostr "file") []
                                       [worldChunk]) in
  fst (Storage.IndexDocument (at_ 30) d2 (gostr "note") (gostr "content") []
                             [helloChunk]).

(** A store whose second chunk insert fails. *)
Definition secondInsertFails : Storage.Env :=
  Storage.mkEnv (fun c => match c with
                          | Storage.ExecInsertChunk 1 => true
                          | _ => false
                          end) 0.

(** The store that holds ["a.txt"] with the chunk ["hello"]. *)
Definition helloDatabase : Storage.Database :=
  fst (Storage.IndexDocument quietEnv freshDatabase
                             (gostr "a.txt") (gostr "file") [] [helloChunk]).

(** A machine without files or network. *)
Definition offlineWorld : Service.World :=
  Service.mkWorld (fun _ => Err (External "no such file or directory"))
                  (fun _ => Err (External "no route to host")).

(** A request to index the inline content ["hello world"] as ["note"]. *)
Definition noteRequest : Service.IndexRequest :=
  Service.mkIndexRequest [] [] (gostr "hello world") (gostr "note") false.

(** An environment that sets the API key and, with [CHUNK_SIZE] and
    [OVERLAP], the sizes of the overlap test. *)
Definition testEnvironment (key : gostring) : gostring :=
  if gostring_eqb key (gostr "OPENAI_API_KEY") then gostr "sk-test"
  else if gostring_eqb key (gostr "CHUNK_SIZE") then gostr "20"
  else if gostring_eqb key (gostr "OVERLAP") then gostr "5"
  else [].

(** An environment that sets the API key and a [CHUNK_SIZE] of 50, and
    nothing else. *)
Definition smallChunkEnvironment (key : gostring) : gostring :=
  if gostring_eqb key (gostr "OPENAI_API_KEY") then gostr "sk-test"
  else if gostring_eqb key (gostr "CHUNK_SIZE") then gostr "50"
  else [].

End Examples.

(* ================================================================== *)
(** * Properties *)

(** ** Go basics *)

Lemma wrap_small (z : Z) :
  GoInt.min_int <= z <= GoInt.max_int -> GoInt.wrap z = z.
Proof.
  unfold GoInt.min_int, GoInt.max_int, GoInt.wrap. intros H.
  rewrite Z.mod_small; lia.
Qed.

Lemma add_small (a b : Z) :
  GoInt.min_int <= a + b <= GoInt.max_int -> GoInt.add a b = a + b.
Proof. apply wrap_small. Qed.

Lemma sub_small (a b : Z) :
  GoInt.min_int <= a - b <= GoInt.max_int -> GoInt.sub a b = a - b.
Proof. apply wrap_small. Qed.

Lemma wrap_succ (z : Z) : GoInt.add (GoInt.wrap z) 1 = GoInt.wrap (z + 1).
Proof.
  unfold GoInt.add, GoInt.wrap.
  replace ((z + 2 ^ 63) mod 2 ^ 64 - 2 ^ 63 + 1 + 2 ^ 63)
    with ((z + 2 ^ 63) mod 2 ^ 64 + 1) by lia.
  replace (z + 1 + 2 ^ 63) with ((z + 2 ^ 63) + 1) by lia.
  rewrite Zplus_mod_idemp_l. reflexivity.
Qed.

Lemma len_nonneg {A : Type} (l : list A) : 0 <= GoInt.len l.
Proof. unfold GoInt.len. lia. Qed.

Lemma index_in_range {A : Type} (s : list A) (i : Z) :
  0 <= i < GoInt.len s -> exists a, index s i = Returns a.
Proof.
  intros H. unfold index.
  replace ((0 <=? i) && (i <? GoInt.len s)) with true
    by (symmetry; apply andb_true_iff; split; [apply Z.leb_le | apply Z.ltb_lt]; lia).
  destruct (nth_error s (Z.to_nat i)) eqn:E.
  - eauto.
  - apply nth_error_None in E. unfold GoInt.len in H. lia.
Qed.

Lemma slice_in_range {A : Type} (s : list A) (lo hi : Z) :
  0 <= lo <= hi -> hi <= GoInt.len s -> exists l, slice s lo hi = Returns l.
Proof.
  intros H1 H2. unfold slice.
  replace ((0 <=? lo) && (lo <=? hi) && (hi <=? GoInt.len s)) with true.
  - eauto.
  - symmetry. rewrite !andb_true_iff, !Z.leb_le. lia.
Qed.

(** ** UTF-8 *)

Lemma runes_length_le (n : nat) :
  forall s : gostring, (length s <= n)%nat ->
    (length (Utf8.runes s) <= length s)%nat /\
    (s <> [] -> Utf8.runes s <> []).
Proof.
  induction n as [|n IH]; intros s Hn.
  - destruct s; simpl in *; [split; [lia | congruence] | lia].
  - destruct s as [|b0 t]; [split; [simpl; lia | congruence]|].
    assert (Ht : (length (Utf8.runes t) <= length t)%nat)
      by (apply IH; simpl in Hn; lia).
    split; [| intros _].
    + simpl. destruct (b0 <? 128); [simpl; lia|].
      destruct (Utf8.first b0) as [[[sz lo] hi]|]; [|simpl; lia].
      destruct t as [|b1 t1]; [simpl; lia|].
      assert (Ht1 : (length (Utf8.runes t1) <= length t1)%nat)
        by (apply IH; simpl in Hn; lia).
      destruct (negb _); [simpl in *; lia|].
      destruct (sz =? 2); [simpl in *; lia|].
      destruct t1 as [|b2 t2]; [simpl in *; lia|].
      assert (Ht2 : (length (Utf8.runes t2) <= length t2)%nat)
        by (apply IH; simpl in Hn; lia).
      destruct (negb _); [simpl in *; lia|].
      destruct (sz =? 3); [simpl in *; lia|].
      destruct t2 as [|b3 t3]; [simpl in *; lia|].
      assert (Ht3 : (length (Utf8.runes t3) <= length t3)%nat)
        by (apply IH; simpl in Hn; lia).
      destruct (negb _); simpl in *; lia.
    + simpl. destruct (b0 <? 128); [congruence|].
      destruct (Utf8.first b0) as [[[sz lo] hi]|]; [|congruence].
      destruct t as [|b1 t1]; [congruence|].
      destruct (negb _); [congruence|].
      destruct (sz =? 2); [congruence|].
      destruct t1 as [|b2 t2]; [congruence|].
      destruct (negb _); [congruence|].
      destruct (sz =? 3); [congruence|].
      destruct t2 as [|b3 t3]; [congruence|].
      destruct (negb _); congruence.
Qed.

Lemma runes_len_le (s : gostring) : GoInt.len (Utf8.runes s) <= GoInt.len s.
Proof.
  unfold GoInt.len. pose proof (proj1 (runes_length_le (length s) s (le_n _))). lia.
Qed.

Lemma runes_nonempty (s : gostring) : s <> [] -> 0 < GoInt.len (Utf8.runes s).
Proof.
  intros H. pose proof (proj2 (runes_length_le (length s) s (le_n _)) H) as H'.
  unfold GoInt.len. destruct (Utf8.runes s); [congruence | simpl; lia].
Qed.

(** ** The chunker *)

Lemma maxAlloc_value : maxAlloc = 281474976710656.
Proof. reflexivity. Qed.

Lemma int_range_value :
  GoInt.min_int = -9223372036854775808 /\ GoInt.max_int = 9223372036854775807.
Proof. split; reflexivity. Qed.

(** Discharges the side conditions of [add_small] and [sub_small] for
    values that are bounded by the length of an allocatable slice. *)
Ltac int_small :=
  destruct int_range_value as [?Hmin ?Hmax];
  pose proof maxAlloc_value;
  unfold allocatable in *; lia.

Section ChunkerLoop.

Import Chunker.

Variable c : Chunker.
Variable runes : list rune.

Hypothesis size_pos : 0 < chunkSize c.
Hypothesis size_lt : chunkSize c < GoInt.len runes.
Hypothesis overlap_range : 0 <= overlap c < chunkSize c.
Hypothesis fits : allocatable runes.

Lemma scanBack_range (n : nat) :
  forall i, i < GoInt.len runes -> 0 <= i + 1 - Z.of_nat n ->
    exists r, scanBack runes i n = Returns r /\
              (r = -1 \/ i + 1 - Z.of_nat n <= r <= i).
Proof.
  induction n as [|n IH]; intros i Hi Hn.
  - simpl. eauto.
  - cbn [scanBack].
    destruct (index_in_range runes i) as [a Ha]; [lia|].
    rewrite Ha. cbn [bind].
    destruct (Utf8.IsSpace a).
    + exists i. split; [reflexivity | right; lia].
    + rewrite sub_small by int_small.
      destruct (IH (i - 1)) as [r [Hr Hrange]]; [lia | lia |].
      exists r. split; [exact Hr | lia].
Qed.

Lemma skipSpaces_range (endPos : Z) (n : nat) :
  forall splitPos, 0 <= splitPos <= endPos -> endPos <= GoInt.len runes ->
    exists r, skipSpaces runes splitPos endPos n = Returns r /\
              splitPos <= r <= endPos.
Proof.
  induction n as [|n IH]; intros splitPos Hs He.
  - simpl. exists splitPos. split; [reflexivity | lia].
  - cbn [skipSpaces].
    destruct (splitPos <? endPos) eqn:Hlt.
    + apply Z.ltb_lt in Hlt.
      destruct (index_in_range runes splitPos) as [a Ha]; [lia|].
      rewrite Ha. cbn [bind].
      destruct (Utf8.IsSpace a).
      * rewrite add_small by int_small.
        destruct (IH (splitPos + 1)) as [r [Hr Hrange]]; [lia | lia |].
        exists r. split; [exact Hr | lia].
      * exists splitPos. split; [reflexivity | lia].
    + exists splitPos. split; [reflexivity | lia].
Qed.

(** The split position lies in the window and is past its start. *)
Lemma findWordBoundary_range (startPos endPos : Z) :
  0 <= startPos < endPos -> endPos <= GoInt.len runes ->
  exists r, findWordBoundary c runes startPos endPos = Returns r /\
            startPos < r <= endPos /\
            endPos - Z.min 100 (chunkSize c) < r.
Proof.
  intros Hs He. unfold findWordBoundary.
  set (maxScanBack := if 100 >? chunkSize c then chunkSize c else 100).
  assert (Hm : 0 < maxScanBack <= 100 /\ maxScanBack = Z.min 100 (chunkSize c))
    by (subst maxScanBack; destruct (100 >? chunkSize c) eqn:E;
        [apply Z.gtb_lt in E | rewrite Z.gtb_ltb in E; apply Z.ltb_ge in E]; lia).
  rewrite (sub_small endPos maxScanBack) by int_small.
  set (scanStart := if endPos - maxScanBack <? startPos
                    then startPos else endPos - maxScanBack).
  assert (Hss : startPos <= scanStart < endPos /\ endPos - maxScanBack <= scanStart)
    by (subst scanStart; destruct (endPos - maxScanBack <? startPos) eqn:E;
        [apply Z.ltb_lt in E | apply Z.ltb_ge in E]; lia).
  rewrite (sub_small endPos 1) by int_small.
  destruct (scanBack_range (Z.to_nat (endPos - scanStart)) (endPos - 1))
    as [w [Hw Hrange]]; [lia | lia |].
  rewrite Hw. cbn [bind].
  destruct (w >=? 0) eqn:Hge.
  - assert (Hw0 : 0 <= w) by (apply Z.geb_le in Hge; lia).
    assert (Hwr : scanStart <= w <= endPos - 1) by lia.
    rewrite add_small by int_small.
    destruct (skipSpaces_range endPos (Z.to_nat (endPos - (w + 1))) (w + 1))
      as [r [Hr Hrr]]; [lia | lia |].
    exists r. split; [exact Hr | lia].
  - exists endPos. split; [reflexivity | lia].
Qed.

(** Every chunk is non-empty and ends inside the text. *)
Lemma chunkEnd_range (p : Z) :
  0 <= p < GoInt.len runes ->
  exists e, chunkEnd c runes p = Returns e /\ p < e <= GoInt.len runes /\
            (e < GoInt.len runes -> p + chunkSize c - Z.min 100 (chunkSize c) < e).
Proof.
  intros Hp. unfold chunkEnd.
  rewrite add_small by int_small.
  set (endPos := if p + chunkSize c >? GoInt.len runes
                 then GoInt.len runes else p + chunkSize c).
  assert (He : p < endPos <= GoInt.len runes)
    by (subst endPos; destruct (p + chunkSize c >? GoInt.len runes) eqn:E;
        [| rewrite Z.gtb_ltb in E; apply Z.ltb_ge in E]; lia).
  destruct (endPos <? GoInt.len runes) eqn:Hlt.
  - apply Z.ltb_lt in Hlt.
    destruct (findWordBoundary_range p endPos) as [r [Hr Hrr]]; [lia | lia |].
    exists r. split; [exact Hr |].
    assert (Hend : endPos = p + chunkSize c)
      by (subst endPos; destruct (p + chunkSize c >? GoInt.len runes); lia).
    lia.
  - apply Z.ltb_ge in Hlt. exists endPos. split; [reflexivity | lia].
Qed.

Lemma nextPosition_range (e : Z) :
  0 < e < GoInt.len runes ->
  0 <= nextPosition c e < GoInt.len runes /\
  (0 < overlap c -> nextPosition c e < e).
Proof.
  intros He. unfold nextPosition.
  rewrite sub_small by int_small.
  destruct (e - overlap c <? 0) eqn:E;
    [apply Z.ltb_lt in E | apply Z.ltb_ge in E]; lia.
Qed.

(** The loop is deterministic: a position fixes what follows. *)
Lemma spans_deterministic (p : Z) (l : list (Z * Z)) :
  spans c runes p l -> forall l', spans c runes p l' -> l = l'.
Proof.
  induction 1 as [p e He Hge | p e l He Hlt Hrest IH]; intros l' H'.
  - inversion H' as [p' e' He' Hge' | p' e' l'' He' Hlt' Hrest']; subst.
    + congruence.
    + rewrite He in He'. inversion He'; subst. lia.
  - inversion H' as [p' e' He' Hge' | p' e' l'' He' Hlt' Hrest']; subst.
    + rewrite He in He'. inversion He'; subst. lia.
    + rewrite He in He'. inversion He'; subst.
      f_equal. apply IH. exact Hrest'.
Qed.

(** What the loop emits from a position it reaches is the rest of what
    it emits in all. *)
Lemma spans_from_visited (p : Z) (l : list (Z * Z)) :
  spans c runes p l ->
  forall q, In q (map fst l) ->
    exists l', spans c runes q l' /\ (length l' <= length l)%nat.
Proof.
  induction 1 as [p e He Hge | p e l He Hlt Hrest IH]; intros q Hq.
  - simpl in Hq. destruct Hq as [<- | []].
    exists [(p, e)]. split; [constructor; assumption | lia].
  - simpl in Hq. destruct Hq as [<- | Hq].
    + exists ((p, e) :: l). split; [econstructor; eassumption | lia].
    + destruct (IH q Hq) as [l' [Hl' Hlen]].
      exists l'. split; [exact Hl' | simpl; lia].
Qed.

(** A loop that is left never came twice to the same position. *)
Lemma spans_NoDup (p : Z) (l : list (Z * Z)) :
  spans c runes p l -> NoDup (map fst l).
Proof.
  induction 1 as [p e He Hge | p e l He Hlt Hrest IH].
  - simpl. constructor; [intros [] | constructor].
  - simpl. constructor; [| exact IH].
    intros Hin.
    destruct (spans_from_visited _ _ Hrest p Hin) as [l' [Hl' Hlen]].
    assert (Heq : (p, e) :: l = l')
      by (eapply spans_deterministic; [econstructor; eassumption | exact Hl']).
    subst l'. simpl in Hlen. lia.
Qed.

Lemma spans_bounds (p : Z) (l : list (Z * Z)) :
  spans c runes p l -> 0 <= p < GoInt.len runes ->
  Forall (fun se => 0 <= fst se < snd se /\ snd se <= GoInt.len runes) l.
Proof.
  induction 1 as [p e He Hge | p e l He Hlt Hrest IH]; intros Hp;
    destruct (chunkEnd_range p Hp) as [e' [He' Hr]];
    rewrite He in He'; inversion He'; subst e'.
  - constructor; [simpl; lia | constructor].
  - constructor; [simpl; lia |].
    apply IH. apply nextPosition_range. lia.
Qed.

(** Pigeonhole: the loop emits at most one chunk per position of the text. *)
Lemma spans_length (p : Z) (l : list (Z * Z)) :
  spans c runes p l -> 0 <= p < GoInt.len runes ->
  Z.of_nat (length l) <= GoInt.len runes.
Proof.
  intros H Hp.
  pose proof (spans_NoDup _ _ H) as Hnd.
  pose proof (spans_bounds _ _ H Hp) as Hb.
  assert (Hincl : incl (map fst l) (map Z.of_nat (seq 0 (length runes)))).
  { intros x Hx. apply in_map_iff in Hx. destruct Hx as [se [<- Hse]].
    rewrite Forall_forall in Hb. specialize (Hb se Hse).
    apply in_map_iff. exists (Z.to_nat (fst se)). split; [lia |].
    apply in_seq. unfold GoInt.len in Hb. lia. }
  apply NoDup_incl_length in Hincl; [| exact Hnd].
  rewrite !length_map, length_seq in Hincl. unfold GoInt.len. lia.
Qed.

Lemma spans_first (p : Z) (l : list (Z * Z)) :
  spans c runes p l -> exists e l', l = (p, e) :: l'.
Proof. destruct 1; eauto. Qed.

Lemma spans_last_end (p : Z) (l : list (Z * Z)) :
  spans c runes p l -> 0 <= p < GoInt.len runes ->
  exists l' s, l = l' ++ [(s, GoInt.len runes)].
Proof.
  induction 1 as [p e He Hge | p e l He Hlt Hrest IH]; intros Hp.
  - destruct (chunkEnd_range p Hp) as [e' [He' Hr]].
    rewrite He in He'. inversion He'; subst e'.
    exists [], p. simpl. repeat f_equal. lia.
  - destruct (chunkEnd_range p Hp) as [e' [He' Hr]].
    rewrite He in He'. inversion He'; subst e'.
    destruct IH as [l' [s Hl]]; [apply nextPosition_range; lia |].
    exists ((p, e) :: l'), s. rewrite Hl. reflexivity.
Qed.

(** Consecutive chunks: the next one starts before the previous one ends. *)
Lemma spans_overlap (p : Z) (l : list (Z * Z)) :
  spans c runes p l -> 0 <= p < GoInt.len runes -> 0 < overlap c ->
  forall i a b, nth_error l i = Some a -> nth_error l (S i) = Some b ->
    fst b < snd a.
Proof.
  induction 1 as [p e He Hge | p e l He Hlt Hrest IH]; intros Hp Hov i a b Ha Hb.
  - destruct i; simpl in Hb; [discriminate | destruct i; discriminate].
  - destruct (chunkEnd_range p Hp) as [e' [He' Hr]].
    rewrite He in He'. inversion He'; subst e'.
    assert (Hnext : 0 < e < GoInt.len runes) by lia.
    destruct (nextPosition_range e Hnext) as [Hn1 Hn2].
    destruct i as [|i].
    + simpl in Ha, Hb. inversion Ha; subst a.
      destruct (spans_first _ _ Hrest) as [e2 [l2 ->]].
      simpl in Hb. inversion Hb; subst b. simpl. auto.
    + simpl in Ha. change (nth_error ((p, e) :: l) (S (S i)))
        with (nth_error l (S i)) in Hb.
      eapply IH; eauto.
Qed.

(** The loop of the program against the relation: a loop that returns has
    emitted the spans of [spans], with indices counted from [chunkIndex]. *)
Lemma chunkLoop_spans (fuel : nat) :
  forall st z result,
    chunkLoop fuel c runes st = Returns result ->
    0 <= position st < GoInt.len runes ->
    chunkIndex st = GoInt.wrap z ->
    exists l,
      spans c runes (position st) l /\
      map span result = map span (chunks st) ++ l /\
      map Index result =
        map Index (chunks st)
        ++ map (fun j => GoInt.wrap (z + Z.of_nat j)) (seq 0 (length l)).
Proof.
  induction fuel as [|fuel IH]; intros st z result Hrun Hp Hidx.
  - discriminate.
  - cbn [chunkLoop] in Hrun.
    replace (position st <? GoInt.len runes) with true in Hrun
      by (symmetry; apply Z.ltb_lt; lia).
    unfold loopBody in Hrun.
    destruct (chunkEnd_range (position st) Hp) as [e [He Hr]].
    rewrite He in Hrun. cbn [bind] in Hrun.
    destruct (slice_in_range runes (position st) e) as [rs Hrs]; [lia | lia |].
    rewrite Hrs in Hrun. cbn [bind] in Hrun.
    destruct (e >=? GoInt.len runes) eqn:Hge.
    + cbn [bind] in Hrun. inversion Hrun; subst result.
      exists [(position st, e)]. split; [| split].
      * constructor; [exact He | apply Z.geb_le in Hge; lia].
      * rewrite map_app. reflexivity.
      * rewrite map_app. simpl. rewrite Hidx, Z.add_0_r. reflexivity.
    + cbn [bind] in Hrun.
      assert (Hlt : e < GoInt.len runes)
        by (rewrite Z.geb_leb in Hge; apply Z.leb_gt in Hge; lia).
      destruct (IH _ (z + 1) _ Hrun) as [l [Hl [Hspan Hindex]]].
      * cbn [position]. apply nextPosition_range. lia.
      * cbn [chunkIndex]. rewrite Hidx. apply wrap_succ.
      * cbn [position chunks] in *.
        exists ((position st, e) :: l). split; [| split].
        -- econstructor; eassumption.
        -- rewrite Hspan, map_app, <- app_assoc. reflexivity.
        -- rewrite Hindex, map_app, <- app_assoc. simpl.
           rewrite Hidx, Z.add_0_r. do 2 f_equal.
           rewrite <- seq_shift, map_map.
           apply map_ext. intros j. f_equal. lia.
Qed.

(** *** Termination when every window advances *)

Hypothesis windows_advance :
  overlap c + Z.min 100 (chunkSize c) <= chunkSize c.

Lemma nextPosition_advances (p : Z) :
  0 <= p < GoInt.len runes ->
  forall e, chunkEnd c runes p = Returns e -> e < GoInt.len runes ->
            p < nextPosition c e < GoInt.len runes.
Proof.
  intros Hp e He Hlt.
  destruct (chunkEnd_range p Hp) as [e' [He' Hr]].
  rewrite He in He'. injection He' as <-.
  unfold nextPosition. rewrite sub_small by int_small.
  destruct (e - overlap c <? 0) eqn:E;
    [apply Z.ltb_lt in E | apply Z.ltb_ge in E]; lia.
Qed.

(** The loop returns within as many iterations as there are positions
    left. *)
Lemma chunkLoop_terminates (fuel : nat) :
  forall st,
    0 <= position st < GoInt.len runes ->
    GoInt.len runes - position st <= Z.of_nat fuel ->
    exists result, chunkLoop fuel c runes st = Returns result.
Proof.
  induction fuel as [|fuel IH]; intros st Hp Hfuel; [lia |].
  cbn [chunkLoop].
  replace (position st <? GoInt.len runes) with true
    by (symmetry; apply Z.ltb_lt; lia).
  unfold loopBody.
  destruct (chunkEnd_range (position st) Hp) as [e [He Hr]].
  rewrite He. cbn [bind].
  destruct (slice_in_range runes (position st) e) as [rs Hrs]; [lia | lia |].
  rewrite Hrs. cbn [bind].
  destruct (e >=? GoInt.len runes) eqn:Hge; cbn [bind]; [eauto |].
  assert (Hlt : e < GoInt.len runes)
    by (rewrite Z.geb_leb in Hge; apply Z.leb_gt in Hge; lia).
  pose proof (nextPosition_advances (position st) Hp e He Hlt) as Hnext.
  apply IH; cbn [position]; lia.
Qed.

End ChunkerLoop.

Lemma NewChunker_coerces (cs ov : Z) :
  0 < Chunker.chunkSize (Chunker.NewChunker cs ov) /\
  0 <= Chunker.overlap (Chunker.NewChunker cs ov)
    < Chunker.chunkSize (Chunker.NewChunker cs ov).
Proof.
  unfold Chunker.NewChunker. cbn [Chunker.chunkSize Chunker.overlap].
  set (size := if cs <=? 0 then 1000 else cs).
  assert (Hsize : 0 < size)
    by (subst size; destruct (cs <=? 0) eqn:E; [| apply Z.leb_gt in E]; lia).
  set (ov' := if ov <? 0 then 0 else ov).
  assert (Hov : 0 <= ov')
    by (subst ov'; destruct (ov <? 0) eqn:E; [| apply Z.ltb_ge in E]; lia).
  split; [exact Hsize |].
  destruct (ov' >=? size) eqn:E.
  - split; [apply Z.quot_pos; lia | apply Z.quot_lt; lia].
  - rewrite Z.geb_leb in E. apply Z.leb_gt in E. lia.
Qed.

(** C5.  For a non-empty text on which [ChunkText] returns, under any
    configuration [NewChunker] builds: the chunk indices are 0, 1, ..., n-1;
    every chunk has [StartOffset < EndOffset]; the first chunk starts at 0;
    the last chunk ends at the length of the text in code points; and, when
    the overlap is positive, each chunk starts before the one before it
    ends. *)
Theorem ChunkText_chunks_cover_text
        (fuel : nat) (cs ov : Z) (text : gostring) (result : list Chunker.Chunk) :
  text <> [] ->
  allocatable text ->
  Chunker.ChunkText fuel (Chunker.NewChunker cs ov) text = Returns result ->
  map Chunker.Index result = map Z.of_nat (seq 0 (length result)) /\
  Forall (fun ch => Chunker.StartOffset ch < Chunker.EndOffset ch) result /\
  (exists first rest, result = first :: rest /\ Chunker.StartOffset first = 0) /\
  (exists init last, result = init ++ [last] /\
                     Chunker.EndOffset last = Utf8.RuneCountInString text) /\
  (0 < Chunker.overlap (Chunker.NewChunker cs ov) ->
   forall i a b, nth_error result i = Some a -> nth_error result (S i) = Some b ->
                 Chunker.StartOffset b < Chunker.EndOffset a).
Proof.
  intros Hne Hfits Hrun.
  destruct (NewChunker_coerces cs ov) as [Hsize Hov].
  set (c := Chunker.NewChunker cs ov) in *.
  pose proof (runes_nonempty text Hne) as Hpos.
  pose proof (runes_len_le text) as Hle.
  unfold Chunker.ChunkText in Hrun.
  destruct text as [|b0 t]; [congruence |].
  remember (b0 :: t) as text eqn:Etext.
  destruct (GoInt.len (Utf8.runes text) <=? Chunker.chunkSize c) eqn:Hone.
  - (* the text fits in a single chunk *)
    inversion Hrun; subst result.
    split; [reflexivity |]. split; [| split; [| split]].
    + constructor; [cbn [Chunker.StartOffset Chunker.EndOffset]; lia | constructor].
    + eexists _, []. split; reflexivity.
    + eexists [], _. split; reflexivity.
    + intros _ i a b Ha Hb. destruct i; cbn [nth_error] in Hb; [discriminate |].
      destruct i; discriminate.
  - (* the loop *)
    apply Z.leb_gt in Hone.
    assert (Halloc : allocatable (Utf8.runes text))
      by (unfold allocatable in *; lia).
    destruct (chunkLoop_spans c (Utf8.runes text) Hsize Hone Hov Halloc
                              fuel _ 0 result Hrun) as [l [Hl [Hspan Hindex]]];
      [cbn; lia | reflexivity |].
    cbn [Chunker.position Chunker.chunks map app] in Hl, Hspan, Hindex.
    assert (Hstart : 0 <= 0 < GoInt.len (Utf8.runes text)) by lia.
    assert (Hlen : length l = length result)
      by (rewrite <- Hspan; apply length_map).
    pose proof (spans_length c _ Hsize Hone Hov Halloc 0 l Hl Hstart) as Hcount.
    repeat split.
    + rewrite Hindex, Hlen. apply map_ext_in. intros j Hj.
      apply in_seq in Hj. rewrite Z.add_0_l. apply wrap_small.
      destruct int_range_value. pose proof maxAlloc_value.
      unfold allocatable in Halloc. lia.
    + pose proof (spans_bounds c _ Hsize Hone Hov Halloc 0 l Hl Hstart) as Hb.
      rewrite <- Hspan in Hb. rewrite Forall_map in Hb.
      eapply Forall_impl; [| exact Hb]. intros ch H. cbn in H. lia.
    + destruct (spans_first c _ 0 l Hl) as [e [l' El]].
      rewrite El in Hspan. destruct result as [|first rest]; [discriminate |].
      exists first, rest. split; [reflexivity |].
      cbn [map] in Hspan. unfold Chunker.span in Hspan. congruence.
    + destruct (spans_last_end c _ Hsize Hone Hov Halloc 0 l Hl Hstart)
        as [l' [s El]].
      rewrite El in Hspan. apply map_eq_app in Hspan.
      destruct Hspan as [init [tl [Hres [_ Htl]]]].
      destruct tl as [|last tl]; [discriminate |].
      destruct tl; [| discriminate].
      exists init, last. split; [exact Hres |].
      cbn [map] in Htl. unfold Chunker.span in Htl.
      unfold Utf8.RuneCountInString. congruence.
    + intros Hpositive i a b Ha Hb.
      apply (map_nth_error Chunker.span) in Ha, Hb.
      rewrite Hspan in Ha, Hb.
      exact (spans_overlap c _ Hsize Hone Hov Halloc 0 l Hl Hstart Hpositive
                           i _ _ Ha Hb).
Qed.

(** When the overlap and the scan-back window together fit in a chunk
    (as with the defaults, 1000 and 100), every window advances and
    [ChunkText] returns within as many iterations as the text has bytes. *)
Lemma ChunkText_terminates_when_windows_advance (cs ov : Z) (text : gostring) :
  allocatable text ->
  Chunker.overlap (Chunker.NewChunker cs ov)
  + Z.min 100 (Chunker.chunkSize (Chunker.NewChunker cs ov))
  <= Chunker.chunkSize (Chunker.NewChunker cs ov) ->
  exists result,
    Chunker.ChunkText (length text) (Chunker.NewChunker cs ov) text = Returns result.
Proof.
  intros Hfits Hadvance.
  destruct (NewChunker_coerces cs ov) as [Hsize Hov].
  set (c := Chunker.NewChunker cs ov) in *.
  unfold Chunker.ChunkText.
  destruct text as [|b0 t]; [eauto |].
  remember (b0 :: t) as text eqn:Etext.
  assert (Hne : text <> []) by (subst text; discriminate).
  pose proof (runes_nonempty text Hne) as Hpos.
  pose proof (runes_len_le text) as Hle.
  destruct (GoInt.len (Utf8.runes text) <=? Chunker.chunkSize c) eqn:Hone; [eauto |].
  apply Z.leb_gt in Hone.
  assert (Halloc : allocatable (Utf8.runes text))
    by (unfold allocatable in *; lia).
  apply (chunkLoop_terminates c (Utf8.runes text) Hsize Hone Hov Halloc Hadvance).
  - cbn [Chunker.position]. lia.
  - cbn [Chunker.position]. unfold GoInt.len in *. lia.
Qed.

Lemma ChunkText_terminates_with_defaults (text : gostring) :
  allocatable text ->
  exists result,
    Chunker.ChunkText (length text) (Chunker.NewChunker 1000 100) text
    = Returns result.
Proof.
  intros Hfits. apply ChunkText_terminates_when_windows_advance; [exact Hfits |].
  cbn. lia.
Qed.

(** The chunker of the overlap test of the repository, on its text: four
    chunks that satisfy C5. *)
Lemma ChunkText_chunks_cover_text_witness :
  let text := gostr "0123456789 0123456789 0123456789 0123456789" in
  exists result,
    Chunker.ChunkText 10 (Chunker.NewChunker 20 5) text = Returns result /\
    map Chunker.span result = [(0, 11); (6, 22); (17, 33); (28, 43)] /\
    map Chunker.Index result = map Z.of_nat (seq 0 (length result)) /\
    Forall (fun ch => Chunker.StartOffset ch < Chunker.EndOffset ch) result /\
    (exists first rest, result = first :: rest /\ Chunker.StartOffset first = 0) /\
    (exists init last, result = init ++ [last] /\
                       Chunker.EndOffset last = Utf8.RuneCountInString text) /\
    (0 < Chunker.overlap (Chunker.NewChunker 20 5) ->
     forall i a b, nth_error result i = Some a -> nth_error result (S i) = Some b ->
                   Chunker.StartOffset b < Chunker.EndOffset a).
Proof.
  intros text.
  destruct (Chunker.ChunkText 10 (Chunker.NewChunker 20 5) text)
    as [result | |] eqn:Hrun; [| vm_compute in Hrun; discriminate ..].
  exists result. split; [reflexivity |]. split.
  - vm_compute in Hrun. inversion Hrun. reflexivity.
  - apply (ChunkText_chunks_cover_text 10 20 5 text result).
    + subst text. vm_compute. discriminate.
    + unfold allocatable. vm_compute. discriminate.
    + exact Hrun.
Defined.

(** With [chunkSize = 20] and [overlap = 5], on the text ["abc "] followed
    by thirty ['x']: the only whitespace of the first window is at offset
    3, the chunk [0, 4) is emitted, and [4 - 5], clamped, is position 0
    again.  The loop body maps position 0 to position 0. *)
Lemma loopBody_returns_to_start (chunks : list Chunker.Chunk) (chunkIndex : Z) :
  let runes := Utf8.runes (gostr "abc xxxxxxxxxxxxxxxxxxxxxxxxxxxxxx") in
  Chunker.loopBody (Chunker.NewChunker 20 5) runes
                   (Chunker.mkLoop chunks chunkIndex 0)
  = Returns (inl (Chunker.mkLoop
                    (chunks ++ [Chunker.mkChunk (gostr "abc ") chunkIndex 0 4])
                    (GoInt.add chunkIndex 1) 0)).
Proof.
  intros runes. unfold Chunker.loopBody. cbn [Chunker.position].
  replace (Chunker.chunkEnd (Chunker.NewChunker 20 5) runes 0) with (Returns 4)
    by (vm_compute; reflexivity).
  cbn [bind].
  replace (slice runes 0 4) with (Returns (Utf8.runes (gostr "abc ")))
    by (vm_compute; reflexivity).
  cbn [bind].
  replace (4 >=? GoInt.len runes) with false by (vm_compute; reflexivity).
  replace (Chunker.nextPosition (Chunker.NewChunker 20 5) 4) with 0
    by (vm_compute; reflexivity).
  replace (Utf8.string_of_runes (Utf8.runes (gostr "abc "))) with (gostr "abc ")
    by (vm_compute; reflexivity).
  reflexivity.
Qed.

(** C4 at the input where it fails.  [NewChunker(20, 5)] on the text
    ["abc "] followed by thirty ['x']: the loop of [ChunkText] comes back to
    position 0 after every iteration and is never left; no number of
    iterations is enough for [ChunkText] to return. *)
Theorem ChunkText_does_not_terminate :
  forall fuel : nat,
    Chunker.ChunkText fuel (Chunker.NewChunker 20 5)
                      (gostr "abc xxxxxxxxxxxxxxxxxxxxxxxxxxxxxx")
    = OutOfFuel.
Proof.
  intros fuel.
  set (runes := Utf8.runes (gostr "abc xxxxxxxxxxxxxxxxxxxxxxxxxxxxxx")).
  assert (Hloop : forall chunks chunkIndex,
             Chunker.chunkLoop fuel (Chunker.NewChunker 20 5) runes
                               (Chunker.mkLoop chunks chunkIndex 0) = OutOfFuel).
  { induction fuel as [|fuel IH]; intros chunks chunkIndex; [reflexivity |].
    cbn [Chunker.chunkLoop Chunker.position].
    replace (0 <? GoInt.len runes) with true by (vm_compute; reflexivity).
    subst runes. rewrite loopBody_returns_to_start. cbn [bind]. apply IH. }
  unfold Chunker.ChunkText.
  change (gostr "abc xxxxxxxxxxxxxxxxxxxxxxxxxxxxxx")
    with (97 :: gostr "bc xxxxxxxxxxxxxxxxxxxxxxxxxxxxxx").
  cbv iota.
  change (97 :: gostr "bc xxxxxxxxxxxxxxxxxxxxxxxxxxxxxx")
    with (gostr "abc xxxxxxxxxxxxxxxxxxxxxxxxxxxxxx").
  fold runes.
  replace (GoInt.len runes <=? Chunker.chunkSize (Chunker.NewChunker 20 5))
    with false by (vm_compute; reflexivity).
  apply Hloop.
Qed.

(** ** The embedding gateway *)

Section EmbedOrder.

Import Embeddings.

Variable p : Provider.

Lemma assign_spec {A : Type} (s s' : list A) (i : Z) (v : A) :
  assign s i v = Returns s' ->
  0 <= i < GoInt.len s /\
  length s' = length s /\
  nth_error s' (Z.to_nat i) = Some v /\
  (forall j, j <> Z.to_nat i -> nth_error s' j = nth_error s j).
Proof.
  unfold assign. destruct ((0 <=? i) && (i <? GoInt.len s)) eqn:E; [| discriminate].
  apply andb_true_iff in E. destruct E as [E1 E2].
  apply Z.leb_le in E1. apply Z.ltb_lt in E2.
  intros H.
  assert (Hs : s' = firstn (Z.to_nat i) s ++ v :: skipn (S (Z.to_nat i)) s)
    by congruence.
  clear H. subst s'. unfold GoInt.len in *.
  assert (Hi : (Z.to_nat i < length s)%nat) by lia.
  set (n := Z.to_nat i) in *.
  assert (Hfirst : length (firstn n s) = n) by (rewrite length_firstn; lia).
  split; [lia |]. split; [| split].
  - rewrite length_app, Hfirst, length_cons, length_skipn. lia.
  - rewrite nth_error_app2 by lia. rewrite Hfirst, Nat.sub_diag. reflexivity.
  - intros j Hj. destruct (Nat.lt_ge_cases j n) as [Hlt | Hge].
    + rewrite nth_error_app1 by lia. rewrite nth_error_firstn.
      apply Nat.ltb_lt in Hlt. rewrite Hlt. reflexivity.
    + rewrite nth_error_app2 by lia. rewrite Hfirst.
      destruct (j - n)%nat as [|m] eqn:Em; [lia |].
      cbn [nth_error]. rewrite nth_error_skipn. f_equal. lia.
Qed.

(** Whatever [place] leaves at a position was there before or is the
    vector of an item tagged with that position. *)
Lemma place_sound (data : list dataItem) :
  forall embs embs',
    place embs data = Returns (Ok embs') ->
    length embs' = length embs /\
    forall j v, nth_error embs' j = Some (Some v) ->
      nth_error embs j = Some (Some v) \/
      exists item, In item data /\ Index item = Z.of_nat j /\ Embedding item = v.
Proof.
  induction data as [|item rest IH]; intros embs embs' H.
  - cbn in H. inversion H; subst. split; [reflexivity | auto].
  - cbn [place] in H.
    destruct (Index item >=? GoInt.len embs); [discriminate |].
    destruct (negb _); [discriminate |].
    destruct (assign embs (Index item) (Some (Embedding item))) as [e1 | |] eqn:Ha;
      cbn [bind] in H; try discriminate.
    apply assign_spec in Ha. destruct Ha as [Hr [Hlen [Hat Hother]]].
    destruct (IH _ _ H) as [Hlen' Hfrom].
    split; [congruence |].
    intros j v Hj. destruct (Hfrom j v Hj) as [Hprev | [it [Hin [Hi He]]]].
    + destruct (Nat.eq_dec j (Z.to_nat (Index item))) as [-> | Hne].
      * right. exists item. rewrite Hat in Hprev. inversion Hprev.
        split; [left; reflexivity | split; [lia | reflexivity]].
      * left. rewrite <- Hother by exact Hne. exact Hprev.
    + right. exists it. split; [right; exact Hin | auto].
Qed.

Lemma verify_sound (embs : list (option (list float32))) :
  forall i vs, verify embs i = Ok vs -> embs = map Some vs.
Proof.
  induction embs as [|[emb|] rest IH]; intros i vs H; cbn [verify] in H.
  - inversion H. reflexivity.
  - destruct (verify rest (i + 1)) as [l|] eqn:E; [| discriminate].
    inversion H; subst vs. cbn [map]. f_equal. eapply IH. exact E.
  - discriminate.
Qed.

(** A batch that is reassembled has one vector per text, and the vector
    at a position is that of an item the provider tagged with it. *)
Lemma reassemble_sound (n : nat) (data : list dataItem) (vs : list (list float32)) :
  reassemble n data = Returns (Ok vs) ->
  length vs = n /\
  forall j v, nth_error vs j = Some v ->
    exists item, In item data /\ Index item = Z.of_nat j /\ Embedding item = v.
Proof.
  unfold reassemble.
  destruct (place (repeat None n) data) as [[embs | e] | |] eqn:Hp;
    cbn [bind]; try discriminate.
  intros H. inversion H as [Hv]. apply verify_sound in Hv.
  destruct (place_sound _ _ _ Hp) as [Hlen Hfrom].
  rewrite repeat_length in Hlen. split.
  - rewrite Hv, length_map in Hlen. exact Hlen.
  - intros j v Hj.
    destruct (Hfrom j v) as [Hinit | Hitem].
    + rewrite Hv. apply map_nth_error. exact Hj.
    + apply nth_error_In, repeat_spec in Hinit. discriminate.
    + exact Hitem.
Qed.

Lemma requestLoop_sound (texts : list gostring) (retriesLeft : nat) :
  forall st st' resp closed,
    requestLoop p texts retriesLeft st = (st', Ok (resp, closed)) ->
    exists n, Do p n texts = Some resp.
Proof.
  induction retriesLeft as [|k IH]; intros st st' resp closed H;
    cbn [requestLoop] in H;
    destruct (Do p (requests st) texts) as [r|] eqn:Hdo; try discriminate;
    destruct (StatusCode r =? StatusTooManyRequests).
  - inversion H; subst. eauto.
  - inversion H; subst. eauto.
  - destruct (ctxDone p (waits st)); [discriminate |]. eapply IH. exact H.
  - inversion H; subst. eauto.
Qed.

(** A batch that succeeds was answered with status 200 and data from
    which the vectors were reassembled. *)
Lemma embedBatch_sound (texts : list gostring) (st st' : clientState)
      (vs : list (list float32)) :
  embedBatch p texts st = (st', Returns (Ok vs)) ->
  exists n resp r,
    Do p n texts = Some resp /\ StatusCode resp = StatusOK /\
    Body resp = Json r /\ Error r = None /\
    reassemble (length texts) (Data r) = Returns (Ok vs).
Proof.
  unfold embedBatch.
  destruct (requestLoop p texts (Z.to_nat (maxRetries - 1)) st)
    as [st1 [[resp closed] | e]] eqn:Hreq; [| discriminate].
  destruct closed; [discriminate |].
  destruct (Body resp) as [| | r] eqn:Hbody; try discriminate.
  destruct (Error r) eqn:Herr; [discriminate |].
  destruct (StatusCode resp =? StatusOK) eqn:Hstatus; cbn [negb]; [| discriminate].
  intros H. inversion H as [[Hst Hre]].
  apply requestLoop_sound in Hreq. destruct Hreq as [n Hn].
  exists n, resp, r. apply Z.eqb_eq in Hstatus. auto.
Qed.

Lemma batch_is_batchOf (texts : list gostring) (k j : nat) :
  allocatable texts ->
  (100 * k < length texts)%nat -> (j < 100)%nat ->
  let i := 100 * Z.of_nat k in
  let end_ := if i + 100 >? GoInt.len texts then GoInt.len texts else i + 100 in
  slice texts i end_ = Returns (batchOf texts (100 * k + j)) /\
  length (batchOf texts (100 * k + j)) = Nat.min 100 (length texts - 100 * k).
Proof.
  intros Hfits Hk Hj i end_.
  assert (Hdiv : ((100 * k + j) / 100 = k)%nat)
    by (symmetry; apply (Nat.div_unique _ 100 k j); lia).
  unfold batchOf. rewrite Hdiv.
  assert (Hskip : length (skipn (100 * k) texts) = (length texts - 100 * k)%nat)
    by apply length_skipn.
  split.
  - unfold slice, GoInt.len in *.
    assert (Hend : i < end_ <= Z.of_nat (length texts))
      by (subst end_ i; destruct (100 * Z.of_nat k + 100 >? Z.of_nat (length texts)) eqn:E;
          [| rewrite Z.gtb_ltb in E; apply Z.ltb_ge in E]; lia).
    replace ((0 <=? i) && (i <=? end_) && (end_ <=? Z.of_nat (length texts)))
      with true by (symmetry; rewrite !andb_true_iff, !Z.leb_le; lia).
    f_equal. replace (Z.to_nat i) with (100 * k)%nat by lia.
    subst end_ i.
    destruct (100 * Z.of_nat k + 100 >? Z.of_nat (length texts)) eqn:E.
    + apply Z.gtb_lt in E.
      replace (Z.to_nat (Z.of_nat (length texts) - 100 * Z.of_nat k))
        with (length (skipn (100 * k) texts)) by lia.
      rewrite firstn_all. symmetry. apply firstn_all2. lia.
    + f_equal. lia.
  - rewrite length_firstn, Hskip. reflexivity.
Qed.


(** The loop of [Embed] is given enough iterations. *)
Lemma embedLoop_fuel (texts : list gostring) (fuel : nat) :
  allocatable texts ->
  forall k allEmbeddings st,
    (length texts <= 100 * (k + fuel))%nat ->
    snd (embedLoop (S fuel) p texts (100 * Z.of_nat k) allEmbeddings st)
    <> OutOfFuel.
Proof.
  intros Hfits.
  induction fuel as [|fuel IH]; intros k allEmbeddings st Hfuel.
  - cbn [embedLoop].
    replace (100 * Z.of_nat k <? GoInt.len texts) with false
      by (symmetry; apply Z.ltb_ge; unfold GoInt.len; lia).
    cbn [snd]. discriminate.
  - remember (S fuel) as fuel' eqn:Efuel. cbn [embedLoop]. subst fuel'.
    destruct (100 * Z.of_nat k <? GoInt.len texts) eqn:Hlt; [| cbn; discriminate].
    apply Z.ltb_lt in Hlt.
    assert (Hk : (100 * k < length texts)%nat) by (unfold GoInt.len in Hlt; lia).
    unfold maxBatchSize.
    rewrite add_small
      by int_small.
    destruct (batch_is_batchOf texts k 0 Hfits Hk ltac:(lia)) as [Hslice _].
    cbv zeta in Hslice. rewrite Hslice.
    set (batch := batchOf texts (100 * k + 0)).
    destruct (embedBatch p batch st) as [st1 [[embeddings | e] | |]] eqn:Hbatch;
      try (cbn; discriminate).
    + replace (100 * Z.of_nat k + 100) with (100 * Z.of_nat (S k)) by lia.
      destruct (_ <? GoInt.len texts).
      * destruct (ctxDone p (waits st1)); [cbn; discriminate |].
        apply IH. lia.
      * apply IH. lia.
    + exfalso. unfold embedBatch in Hbatch.
      destruct (requestLoop _ _ _ _) as [s1 [[resp closed] | e]];
        [| discriminate].
      destruct closed; [discriminate |].
      destruct (Body resp) as [| | r]; try discriminate.
      destruct (Error r); [discriminate |].
      destruct (negb _); [discriminate |].
      injection Hbatch as _ Hre. unfold reassemble in Hre.
      assert (Hplace : forall data embs, place embs data <> OutOfFuel).
      { induction data as [|item rest IHd]; intros embs; cbn [place]; [discriminate |].
        destruct (_ >=? _); [discriminate |].
        destruct (negb _); [discriminate |].
        unfold assign. destruct (_ && _); cbn [bind]; [apply IHd | discriminate]. }
      destruct (place (repeat None (length batch)) (Data r)) as [[? | ?] | |] eqn:Hp;
        cbn [bind] in Hre; try discriminate.
      exact (Hplace _ _ Hp).
Qed.

End EmbedOrder.

Lemma Embed_returns (p : Embeddings.Provider) (texts : list gostring)
      (st : Embeddings.clientState) :
  allocatable texts -> snd (Embeddings.Embed p texts st) <> OutOfFuel.
Proof.
  intros Hfits. unfold Embeddings.Embed.
  destruct (GoInt.len texts =? 0); [cbn; discriminate |].
  apply (embedLoop_fuel p texts (length texts) Hfits 0). lia.
Qed.



(** X25.  When no tag of an answer is negative, reassembly returns
    (vectors or an error) whatever else the answer holds: tags beyond the
    batch and vectors of any length do not make it panic. *)
Lemma reassemble_nonnegative_tags (n : nat) (data : list Embeddings.dataItem) :
  Forall (fun item => 0 <= Embeddings.Index item) data ->
  exists r, Embeddings.reassemble n data = Returns r.
Proof.
  intros Htags. unfold Embeddings.reassemble.
  assert (Hplace : forall embs, exists r, Embeddings.place embs data = Returns r).
  { induction Htags as [|item rest Hitem _ IH]; intros embs;
      cbn [Embeddings.place]; [eauto |].
    destruct (Embeddings.Index item >=? GoInt.len embs) eqn:Hge; [eauto |].
    destruct (negb _); [eauto |].
    unfold Embeddings.assign.
    rewrite Z.geb_leb in Hge. apply Z.leb_gt in Hge.
    replace ((0 <=? Embeddings.Index item)
             && (Embeddings.Index item <? GoInt.len embs)) with true
      by (symmetry; apply andb_true_iff; split;
          [apply Z.leb_le | apply Z.ltb_lt]; lia).
    cbn [bind]. apply IH. }
  destruct (Hplace (repeat None n)) as [[embs | e] Hr]; rewrite Hr; cbn [bind]; eauto.
Qed.

(** *** Reassembly does not depend on the order of the answer *)

Lemma place_well_tagged (data : list Embeddings.dataItem) :
  forall embs embs',
    Embeddings.place embs data = Returns (Ok embs') ->
    Forall (Embeddings.wellTagged (GoInt.len embs)) data.
Proof.
  induction data as [|item rest IH]; intros embs embs' H; [constructor |].
  cbn [Embeddings.place] in H.
  destruct (Embeddings.Index item >=? GoInt.len embs) eqn:Hge; [discriminate |].
  destruct (GoInt.len (Embeddings.Embedding item) =? Embeddings.embeddingDimension)
    eqn:Hdim; cbn [negb] in H; [| discriminate].
  destruct (Embeddings.assign embs (Embeddings.Index item)
                              (Some (Embeddings.Embedding item)))
    as [e1 | |] eqn:Ha; cbn [bind] in H; try discriminate.
  apply assign_spec in Ha. destruct Ha as [Hr [Hlen _]].
  constructor.
  - split; [exact Hr | apply Z.eqb_eq; exact Hdim].
  - replace (GoInt.len embs) with (GoInt.len e1)
      by (unfold GoInt.len; rewrite Hlen; reflexivity).
    eapply IH. exact H.
Qed.

(** Well-tagged items are all placed: every tagged position is filled. *)
Lemma place_fills (data : list Embeddings.dataItem) :
  forall embs,
    Forall (Embeddings.wellTagged (GoInt.len embs)) data ->
    exists embs',
      Embeddings.place embs data = Returns (Ok embs') /\
      forall j,
        (exists item, In item data /\ Embeddings.Index item = Z.of_nat j) \/
        (exists v, nth_error embs j = Some (Some v)) ->
        exists v, nth_error embs' j = Some (Some v).
Proof.
  induction data as [|item rest IH]; intros embs Hall.
  - exists embs. split; [reflexivity |].
    intros j [[item [[] _]] | Hv]. exact Hv.
  - inversion Hall as [|? ? [Hrange Hdim] Hrest]; subst.
    cbn [Embeddings.place].
    replace (Embeddings.Index item >=? GoInt.len embs) with false
      by (symmetry; rewrite Z.geb_leb; apply Z.leb_gt; lia).
    rewrite Hdim, Z.eqb_refl. cbn [negb].
    destruct (Embeddings.assign embs (Embeddings.Index item)
                                (Some (Embeddings.Embedding item)))
      as [e1 | msg |] eqn:Ha.
    + pose proof (assign_spec _ _ _ _ Ha) as [_ [Hlen [Hat Hother]]].
      cbn [bind].
      destruct (IH e1) as [embs' [Hplace Hfilled]].
      { replace (GoInt.len e1) with (GoInt.len embs)
          by (unfold GoInt.len; rewrite Hlen; reflexivity).
        exact Hrest. }
      exists embs'. split; [exact Hplace |].
      intros j Hj. apply Hfilled.
      destruct (Nat.eq_dec j (Z.to_nat (Embeddings.Index item))) as [-> | Hne].
      * right. eauto.
      * destruct Hj as [[it [[<- | Hin] Htag]] | [v Hv]].
        -- lia.
        -- left. eauto.
        -- right. exists v. rewrite Hother by exact Hne. exact Hv.
    + exfalso. unfold Embeddings.assign in Ha.
      replace ((0 <=? Embeddings.Index item)
               && (Embeddings.Index item <? GoInt.len embs)) with true in Ha
        by (symmetry; apply andb_true_iff; split;
            [apply Z.leb_le | apply Z.ltb_lt]; lia).
      discriminate.
    + exfalso. unfold Embeddings.assign in Ha.
      destruct (_ && _); discriminate.
Qed.

Lemma verify_filled (embs : list (option (list float32))) :
  forall i,
    (forall j, (j < length embs)%nat -> exists v, nth_error embs j = Some (Some v)) ->
    exists vs, Embeddings.verify embs i = Ok vs.
Proof.
  induction embs as [|e rest IH]; intros i Hfilled; [cbn; eauto |].
  destruct (Hfilled 0%nat) as [v Hv]; [cbn [length]; lia |].
  cbn [nth_error] in Hv. injection Hv as ->.
  cbn [Embeddings.verify].
  destruct (IH (i + 1)) as [vs Hvs].
  - intros j Hj. apply (Hfilled (S j)). cbn [length]. lia.
  - rewrite Hvs. eauto.
Qed.

Lemma same_tag_same_item (data : list Embeddings.dataItem)
      (a b : Embeddings.dataItem) :
  NoDup (map Embeddings.Index data) ->
  In a data -> In b data -> Embeddings.Index a = Embeddings.Index b -> a = b.
Proof.
  induction data as [|x rest IH]; intros Hnd Ha Hb Htag; [destruct Ha |].
  cbn [map] in Hnd. inversion Hnd as [|? ? Hnotin Hnd']; subst.
  destruct Ha as [<- | Ha], Hb as [<- | Hb].
  - reflexivity.
  - exfalso. apply Hnotin. rewrite Htag. apply in_map. exact Hb.
  - exfalso. apply Hnotin. rewrite <- Htag. apply in_map. exact Ha.
  - apply IH; assumption.
Qed.

(** X24.  When the tags of an answer are distinct, the vectors reassembled
    from it are the same in whatever order the provider lists the items. *)
Lemma reassemble_any_order (n : nat) (data data' : list Embeddings.dataItem)
      (vs : list (list float32)) :
  Permutation data data' ->
  NoDup (map Embeddings.Index data) ->
  Embeddings.reassemble n data = Returns (Ok vs) ->
  Embeddings.reassemble n data' = Returns (Ok vs).
Proof.
  intros Hperm Hnd Hre.
  pose proof (reassemble_sound n data vs Hre) as [Hlen Hitems].
  unfold Embeddings.reassemble in Hre.
  destruct (Embeddings.place (repeat None n) data) as [[embs | e] | |] eqn:Hp;
    cbn [bind] in Hre; try discriminate.
  apply place_well_tagged in Hp.
  assert (Hok' : Forall (Embeddings.wellTagged (GoInt.len (repeat (@None (list float32)) n))) data')
    by (eapply Permutation_Forall; eassumption).
  destruct (place_fills data' _ Hok') as [embs' [Hp' Hfilled]].
  pose proof (place_sound _ _ _ Hp') as [Hlen' _].
  rewrite repeat_length in Hlen'.
  destruct (verify_filled embs' 0) as [vs' Hvs'].
  { intros j Hj. apply Hfilled. left.
    destruct (nth_error vs j) as [v|] eqn:Hv;
      [| apply nth_error_None in Hv; lia].
    destruct (Hitems j v Hv) as [item [Hin [Htag _]]].
    exists item. split; [eapply Permutation_in; eassumption | exact Htag]. }
  assert (Hre' : Embeddings.reassemble n data' = Returns (Ok vs'))
    by (unfold Embeddings.reassemble; rewrite Hp'; cbn [bind]; rewrite Hvs'; reflexivity).
  pose proof (reassemble_sound n data' vs' Hre') as [Hlen2 Hitems'].
  rewrite Hre'. do 2 f_equal.
  apply nth_error_ext. intros j.
  destruct (nth_error vs' j) as [v'|] eqn:Hv'.
  - destruct (nth_error vs j) as [v|] eqn:Hv.
    + destruct (Hitems j v Hv) as [a [Ha [Hta Hva]]].
      destruct (Hitems' j v' Hv') as [b [Hb [Htb Hvb]]].
      apply Permutation_sym in Hperm.
      apply (Permutation_in _ Hperm) in Hb.
      assert (a = b) by (eapply same_tag_same_item; eauto; congruence).
      congruence.
    + apply nth_error_None in Hv.
      assert (j < length vs')%nat by (apply nth_error_Some; congruence). lia.
  - apply nth_error_None in Hv'. symmetry. apply nth_error_None. lia.
Qed.

(** C9 at the input where it fails.  The index check of [embedBatch] has an
    upper bound only: an item tagged [-1] with a vector of the right
    dimension passes it, and the write [embeddings[item.Index] = ...] is
    out of bounds.  [embedBatch] panics; it returns neither vectors nor an
    error. *)
Theorem embedBatch_negative_tag_panics :
  Embeddings.reassemble 1 [Embeddings.mkItem (repeat 0 1536) (-1)]
  = Panics "index out of range" /\
  forall st,
    snd (Embeddings.embedBatch Examples.negativeTagProvider [gostr "hello"] st)
    = Panics "index out of range".
Proof.
  split; [vm_compute; reflexivity |].
  intros st. unfold Embeddings.embedBatch.
  replace (Z.to_nat (Embeddings.maxRetries - 1)) with 2%nat by reflexivity.
  cbn [Embeddings.requestLoop Examples.negativeTagProvider Embeddings.Do].
  vm_compute. reflexivity.
Qed.

(** ** The document store *)

Section StoreWrites.

Import Storage.

Variable env : Env.

Lemma gostring_eqb_eq (a b : gostring) : gostring_eqb a b = true <-> a = b.
Proof.
  unfold gostring_eqb. destruct (list_eq_dec Z.eq_dec a b); split; congruence.
Qed.

(** After the DELETE no document has the source. *)
Lemma deleteBySource_removes (fk : bool) (src : gostring) (t : Tables) :
  existsb (fun r => gostring_eqb (source r) src)
          (documents (fst (deleteBySource fk src t))) = false.
Proof.
  cbn [deleteBySource fst documents].
  destruct (existsb _ _) eqn:E; [| reflexivity].
  apply existsb_exists in E. destruct E as [r [Hin Heq]].
  apply filter_In in Hin. destruct Hin as [_ Hne].
  rewrite Heq in Hne. discriminate.
Qed.

(** The chunk loop appends one row per chunk, all of them rows of the
    document, and touches nothing else. *)
Lemma insertChunks_appends (fk : bool) (documentID : Z) (cs : list Chunk) :
  forall i t t',
    insertChunks env fk documentID cs i t = Ok t' ->
    documents t' = documents t /\
    seq_documents t' = seq_documents t /\
    exists rows, chunks t' = chunks t ++ rows /\
                 Forall2 (stores documentID) rows cs.
Proof.
  induction cs as [|ch rest IH]; intros i t t' H; cbn [insertChunks] in H.
  - injection H as <-. repeat split. exists []. split; [symmetry; apply app_nil_r | constructor].
  - cbn [serializeEmbedding] in H.
    destruct (fails env (ExecInsertChunk i)); [discriminate |].
    unfold insertChunk in H.
    destruct (flat_map le32 (Embedding ch)) as [|b blob] eqn:Hblob; [discriminate |].
    destruct (fk && negb _); [discriminate |].
    apply IH in H. cbn [documents chunks seq_documents] in H.
    destruct H as [Hdocs [Hseq [rows [Hchunks Hrows]]]].
    split; [exact Hdocs |]. split; [exact Hseq |].
    eexists (_ :: rows). split.
    + rewrite Hchunks, <- app_assoc. reflexivity.
    + constructor; [unfold stores; rewrite Hblob; reflexivity | exact Hrows].
Qed.

(** The chunk loop gets through only with an embedding in every chunk. *)
Lemma insertChunks_embeddings (fk : bool) (documentID : Z) (cs : list Chunk) :
  forall i t t',
    insertChunks env fk documentID cs i t = Ok t' ->
    Forall (fun ch => Embedding ch <> []) cs.
Proof.
  induction cs as [|ch rest IH]; intros i t t' H; [constructor |].
  cbn [insertChunks serializeEmbedding] in H.
  destruct (fails env (ExecInsertChunk i)); [discriminate |].
  unfold insertChunk in H.
  destruct (Embedding ch) as [|x emb] eqn:Hemb;
    cbn [flat_map le32 app] in H; [discriminate |].
  constructor; [cbn beta; rewrite Hemb; discriminate |].
  destruct (fk && negb _); [discriminate |].
  eapply IH. exact H.
Qed.

(** The tables a successful run of the statements leaves: the new document
    row gets an id above the counter, which becomes the counter. *)
Lemma indexStatements_commits (fk : bool) (src sourceType ttl : gostring)
      (cs : list Chunk) (t t' : Tables) :
  indexStatements env fk src sourceType ttl cs t = (t', None) ->
  let before := fst (deleteBySource fk src t) in
  let rowid := nextRowid (seq_documents t) (map id (documents before)) in
  exists rows,
    documents t' = documents before
                   ++ [mkDocumentRow rowid src sourceType (now env)
                                     (contentSizeOf cs) (GoInt.len cs) ttl] /\
    chunks t' = chunks before ++ rows /\
    seq_documents t' = rowid /\
    Forall2 (stores rowid) rows cs.
Proof.
  unfold indexStatements.
  destruct (fails env ExecDelete); [discriminate |].
  destruct (fails env ExecInsertDocument); [discriminate |].
  unfold insertDocument. rewrite deleteBySource_removes.
  destruct (fails env LastInsertId); [discriminate |].
  destruct (fails env Prepare); [discriminate |].
  destruct (insertChunks _ _ _ _ _ _) as [t3 | e] eqn:Hins; [| discriminate].
  intros H. injection H as <-.
  apply insertChunks_appends in Hins.
  cbn [documents chunks seq_documents] in Hins.
  destruct Hins as [Hdocs [Hseq [rows [Hchunks Hrows]]]].
  exists rows. cbn zeta. rewrite Hdocs, Hchunks, Hseq.
  cbn [deleteBySource fst seq_documents]. auto.
Qed.

Lemma Forall2_In_left {A B : Type} (R : A -> B -> Prop) (l : list A) (l' : list B) :
  Forall2 R l l' -> forall x, In x l -> exists y, In y l' /\ R x y.
Proof.
  induction 1 as [|a b l l' Hab _ IH]; intros x Hx; [destruct Hx |].
  destruct Hx as [<- | Hx].
  - exists b. split; [left; reflexivity | exact Hab].
  - destruct (IH x Hx) as [y [Hy Hxy]]. exists y. split; [right; exact Hy | exact Hxy].
Qed.

Lemma nextRowid_above (seq : Z) (ids : list Z) :
  seq < nextRowid seq ids /\ Forall (fun i => i < nextRowid seq ids) ids.
Proof.
  unfold nextRowid. split; [lia |].
  induction ids as [|i rest IH]; [constructor |].
  cbn [fold_right]. constructor; [lia |].
  eapply Forall_impl; [| exact IH]. intros j Hj. cbn beta in *. lia.
Qed.

End StoreWrites.

(** With an embedding in every chunk and no failing driver call,
    [IndexDocument] returns without an error. *)
Lemma IndexDocument_goes_through
      (env : Storage.Env) (d : Storage.Database)
      (src sourceType ttl : gostring) (cs : list Storage.Chunk) :
  (forall c, In c (Storage.indexCalls (length cs)) -> Storage.fails env c = false) ->
  Forall (fun ch => Storage.Embedding ch <> []) cs ->
  snd (Storage.IndexDocument env d src sourceType ttl cs) = None.
Proof.
  intros Hok Hemb. unfold Storage.indexCalls in Hok.
  unfold Storage.IndexDocument.
  rewrite (Hok Storage.Begin) by (cbn; auto).
  unfold Storage.indexStatements.
  rewrite (Hok Storage.ExecDelete) by (cbn; auto).
  rewrite (Hok Storage.ExecInsertDocument) by (cbn; auto).
  unfold Storage.insertDocument. rewrite deleteBySource_removes.
  rewrite (Hok Storage.LastInsertId) by (cbn; auto 6).
  rewrite (Hok Storage.Prepare) by (cbn; auto 6).
  (* the chunk loop *)
  set (t2 := Storage.mkTables _ _ _ _).
  set (docID := Storage.nextRowid _ _).
  assert (Hloop : forall cs' i t,
             (forall j, (i <= j < i + length cs')%nat ->
                        Storage.fails env (Storage.ExecInsertChunk j) = false) ->
             Forall (fun ch => Storage.Embedding ch <> []) cs' ->
             existsb (fun r => Storage.id r =? docID) (Storage.documents t) = true ->
             exists t', Storage.insertChunks env (Storage.foreign_keys d)
                                             docID cs' i t = Ok t').
  { induction cs' as [|ch rest IH]; intros i t Hcalls Hne Hdoc;
      cbn [Storage.insertChunks]; [eauto |].
    cbn [Storage.serializeEmbedding].
    rewrite Hcalls by (cbn [length]; lia).
    inversion Hne as [|? ? Hch Hrest]; subst.
    unfold Storage.insertChunk.
    destruct (Storage.Embedding ch) as [|x emb]; [congruence |].
    cbn [flat_map Storage.le32 app].
    rewrite Hdoc, andb_false_r.
    apply IH; [| exact Hrest | exact Hdoc].
    intros j Hj. apply Hcalls. cbn [length]. lia. }
  destruct (Hloop cs 0%nat t2) as [t3 Ht3].
  - intros j Hj. apply Hok. cbn [app]. do 5 right.
    apply in_or_app. left. apply in_map, in_seq. lia.
  - exact Hemb.
  - subst t2. cbn [Storage.documents]. rewrite existsb_app.
    cbn [existsb Storage.id]. rewrite Z.eqb_refl. apply orb_true_r.
  - rewrite Ht3. rewrite (Hok Storage.Commit); [reflexivity |].
    cbn [app]. do 5 right. apply in_or_app. right. cbn; auto.
Qed.

(** C1.  [IndexDocument] is an atomic replace.  It either fails, and then
    the database is exactly what it was before the call; or it succeeds, and
    then the documents of that source have been replaced by one new document
    row (with the given source, type, title and chunk count) and one chunk
    row per chunk of the call has been added, each a row of the new
    document.  And it does succeed when no step fails: when no driver call
    of the transaction fails and every chunk carries the embedding that the
    schema requires. *)
Theorem IndexDocument_atomic_replace
        (env : Storage.Env) (d : Storage.Database)
        (src sourceType ttl : gostring) (cs : list Storage.Chunk) :
  match Storage.IndexDocument env d src sourceType ttl cs with
  | (d', Some _) => d' = d
  | (d', None) =>
    let before :=
      fst (Storage.deleteBySource (Storage.foreign_keys d) src (Storage.tables d)) in
    Storage.foreign_keys d' = Storage.foreign_keys d /\
    exists doc rows,
      Storage.documents (Storage.tables d')
      = filter (fun r => negb (gostring_eqb (Storage.source r) src))
               (Storage.documents (Storage.tables d)) ++ [doc] /\
      Storage.source doc = src /\
      Storage.source_type doc = sourceType /\
      Storage.title doc = ttl /\
      Storage.chunk_count doc = GoInt.len cs /\
      Storage.content_size doc = Storage.contentSizeOf cs /\
      Storage.chunks (Storage.tables d') = Storage.chunks before ++ rows /\
      Forall2 (Storage.stores (Storage.id doc)) rows cs
  end /\
  ((forall c, In c (Storage.indexCalls (length cs)) -> Storage.fails env c = false) ->
   Forall (fun ch => Storage.Embedding ch <> []) cs ->
   snd (Storage.IndexDocument env d src sourceType ttl cs) = None).
Proof.
  split; [| apply IndexDocument_goes_through].
  unfold Storage.IndexDocument.
  destruct (Storage.fails env Storage.Begin); [reflexivity |].
  assert (Hback : Storage.mkDatabase (Storage.foreign_keys d) (Storage.tables d) = d)
    by (destruct d; reflexivity).
  destruct (Storage.indexStatements env (Storage.foreign_keys d) src sourceType ttl cs
                                    (Storage.tables d)) as [t [e|]] eqn:Hst;
    [exact Hback |].
  destruct (Storage.fails env Storage.Commit); [exact Hback |].
  cbn zeta. cbn [Storage.foreign_keys Storage.tables].
  split; [reflexivity |].
  unfold Storage.indexStatements in Hst.
  destruct (Storage.fails env Storage.ExecDelete); [discriminate |].
  destruct (Storage.fails env Storage.ExecInsertDocument); [discriminate |].
  unfold Storage.insertDocument in Hst.
  rewrite deleteBySource_removes in Hst.
  destruct (Storage.fails env Storage.LastInsertId); [discriminate |].
  destruct (Storage.fails env Storage.Prepare); [discriminate |].
  destruct (Storage.insertChunks _ _ _ _ _ _) as [t3 | e] eqn:Hins; [| discriminate].
  injection Hst as <-.
  apply insertChunks_appends in Hins.
  cbn [Storage.documents Storage.chunks Storage.seq_documents] in Hins.
  destruct Hins as [Hdocs [_ [rows [Hchunks Hrows]]]].
  eexists _, rows. rewrite Hdocs, Hchunks.
  cbn [Storage.deleteBySource fst Storage.documents Storage.chunks
       Storage.source Storage.source_type Storage.title Storage.chunk_count
       Storage.content_size Storage.id].
  repeat split. exact Hrows.
Qed.

(** A reindex of ["a.txt"] with two chunks, on the store that holds it with
    one: it succeeds, and the store holds one document of that source, with
    two chunks. *)
Lemma IndexDocument_atomic_replace_witness :
  exists d',
    Storage.IndexDocument Examples.quietEnv Examples.helloDatabase
                          (gostr "a.txt") (gostr "file") []
                          [Examples.worldChunk; Examples.helloChunk]
    = (d', None) /\
    map Storage.source (Storage.documents (Storage.tables Examples.helloDatabase))
    = [gostr "a.txt"] /\
    map Storage.chunk_count (Storage.documents (Storage.tables Examples.helloDatabase))
    = [1] /\
    map Storage.source (Storage.documents (Storage.tables d')) = [gostr "a.txt"] /\
    map Storage.chunk_count (Storage.documents (Storage.tables d')) = [2].
Proof.
  destruct (Storage.IndexDocument Examples.quietEnv Examples.helloDatabase
                                  (gostr "a.txt") (gostr "file") []
                                  [Examples.worldChunk; Examples.helloChunk])
    as [d' e] eqn:Hrun.
  assert (He : e = None).
  { change e with (snd (d', e)). rewrite <- Hrun.
    apply (IndexDocument_atomic_replace
             Examples.quietEnv Examples.helloDatabase
             (gostr "a.txt") (gostr "file") []
             [Examples.worldChunk; Examples.helloChunk]).
    - intros c _. reflexivity.
    - repeat constructor; discriminate. }
  subst e. exists d'. split; [reflexivity |].
  split; [reflexivity |]. split; [reflexivity |].
  vm_compute in Hrun. injection Hrun as <-. split; reflexivity.
Defined.

(** A reindex whose second chunk insert fails: the document and its chunk
    are what they were, and the first new chunk is not there. *)
Example IndexDocument_midway_failure :
  exists e,
    Storage.IndexDocument Examples.secondInsertFails Examples.helloDatabase
                          (gostr "a.txt") (gostr "file") []
                          [Examples.worldChunk; Examples.helloChunk]
    = (Examples.helloDatabase, Some e) /\
    map Storage.content (Storage.chunks (Storage.tables Examples.helloDatabase))
    = [gostr "hello"].
Proof.
  eexists. split; [vm_compute; reflexivity | reflexivity].
Qed.

(** X26.  When no driver call fails, [IndexDocument] succeeds exactly
    when every chunk carries an embedding (a vector that is not empty), on
    every database and for every source, indexed before or not: of the
    constraints of the schema only the NOT NULL of [chunks.embedding] can
    stop it. *)
Theorem IndexDocument_succeeds
      (env : Storage.Env) (d : Storage.Database)
      (src sourceType ttl : gostring) (cs : list Storage.Chunk) :
  (forall c, In c (Storage.indexCalls (length cs)) -> Storage.fails env c = false) ->
  snd (Storage.IndexDocument env d src sourceType ttl cs) = None <->
  Forall (fun ch => Storage.Embedding ch <> []) cs.
Proof.
  intros Hok. split; [| apply IndexDocument_goes_through; exact Hok].
  unfold Storage.IndexDocument.
  destruct (Storage.fails env Storage.Begin); [discriminate |].
  destruct (Storage.indexStatements env (Storage.foreign_keys d) src sourceType ttl cs
                                    (Storage.tables d)) as [t [e|]] eqn:Hst;
    [discriminate |].
  intros _. unfold Storage.indexStatements in Hst.
  destruct (Storage.fails env Storage.ExecDelete); [discriminate |].
  destruct (Storage.fails env Storage.ExecInsertDocument); [discriminate |].
  destruct (Storage.insertDocument _ _ _ _ _ _ _) as [[t2 documentID] | e];
    [| discriminate].
  destruct (Storage.fails env Storage.LastInsertId); [discriminate |].
  destruct (Storage.fails env Storage.Prepare); [discriminate |].
  destruct (Storage.insertChunks _ _ _ _ _ _) as [t3 | e] eqn:Hins; [| discriminate].
  eapply insertChunks_embeddings. exact Hins.
Qed.

Lemma contentSizeOf_bytes (cs : list Storage.Chunk) :
  Storage.contentSizeOf cs
  = GoInt.wrap (fold_right Z.add 0
                           (map (fun ch => GoInt.len (Storage.Content ch)) cs)).
Proof.
  unfold Storage.contentSizeOf.
  assert (Hgen : forall z,
             fold_left (fun contentSize chunk =>
                          GoInt.add contentSize (GoInt.len (Storage.Content chunk)))
                       cs (GoInt.wrap z)
             = GoInt.wrap (z + fold_right Z.add 0
                                 (map (fun ch => GoInt.len (Storage.Content ch)) cs))).
  { induction cs as [|ch rest IH]; intros z; cbn [fold_left map fold_right].
    - rewrite Z.add_0_r. reflexivity.
    - replace (GoInt.add (GoInt.wrap z) (GoInt.len (Storage.Content ch)))
        with (GoInt.wrap (z + GoInt.len (Storage.Content ch))).
      + rewrite IH. f_equal. lia.
      + unfold GoInt.add, GoInt.wrap.
        replace ((z + 2 ^ 63) mod 2 ^ 64 - 2 ^ 63 + GoInt.len (Storage.Content ch) + 2 ^ 63)
          with ((z + 2 ^ 63) mod 2 ^ 64 + GoInt.len (Storage.Content ch)) by lia.
        rewrite Zplus_mod_idemp_l. do 2 f_equal. lia. }
  apply (Hgen 0).
Qed.

(** C6 at the input where it fails.  [IndexDocument] adds up
    [len(chunk.Content)], the length in bytes: a document whose only chunk
    is the two code points U+4E16 U+754C is stored with [content_size] 6,
    not 2. *)
Theorem content_size_counts_bytes :
  exists d' doc,
    Storage.IndexDocument Examples.quietEnv Examples.freshDatabase
                          (gostr "note") (gostr "content") []
                          [Examples.hanChunk]
    = (d', None) /\
    Storage.documents (Storage.tables d') = [doc] /\
    Storage.content_size doc = 6 /\
    Utf8.RuneCountInString (Storage.Content Examples.hanChunk) = 2.
Proof.
  eexists _, _. split; [vm_compute; reflexivity |].
  split; [reflexivity |]. split; reflexivity.
Qed.

(** With [foreign_keys] on, the DELETE leaves no chunk row without its
    document. *)
Lemma cascade_leaves_no_orphan (src : gostring) (t : Storage.Tables) :
  existsb (Storage.orphan t) (Storage.chunks t) = false ->
  let t' := fst (Storage.deleteBySource true src t) in
  existsb (Storage.orphan t') (Storage.chunks t') = false.
Proof.
  intros Hnone t'.
  destruct (existsb (Storage.orphan t') (Storage.chunks t')) eqn:E; [| reflexivity].
  exfalso. apply existsb_exists in E. destruct E as [c [Hin Horphan]].
  subst t'. cbn [Storage.deleteBySource fst Storage.chunks] in Hin.
  apply filter_In in Hin. destruct Hin as [Hin Hkept].
  apply negb_true_iff in Hkept.
  assert (Hhas : existsb (fun r => Storage.id r =? Storage.document_id c)
                         (Storage.documents t) = true).
  { destruct (existsb (fun r => Storage.id r =? Storage.document_id c)
                      (Storage.documents t)) eqn:E; [reflexivity |].
    assert (Ho : existsb (Storage.orphan t) (Storage.chunks t) = true)
      by (apply existsb_exists; exists c; split;
          [exact Hin | unfold Storage.orphan; rewrite E; reflexivity]).
    congruence. }
  apply existsb_exists in Hhas. destruct Hhas as [r [Hr Hid]].
  unfold Storage.orphan in Horphan. apply negb_true_iff in Horphan.
  cbn [Storage.deleteBySource fst Storage.documents] in Horphan.
  destruct (gostring_eqb (Storage.source r) src) eqn:Hsrc.
  - assert (Hgone : existsb (fun r0 => Storage.id r0 =? Storage.document_id c)
                            (filter (fun r0 => gostring_eqb (Storage.source r0) src)
                                    (Storage.documents t)) = true)
      by (apply existsb_exists; exists r; split;
          [apply filter_In; auto | exact Hid]).
    congruence.
  - assert (Hkeep : existsb (fun r0 => Storage.id r0 =? Storage.document_id c)
                            (filter (fun r0 => negb (gostring_eqb (Storage.source r0) src))
                                    (Storage.documents t)) = true)
      by (apply existsb_exists; exists r; split;
          [apply filter_In; rewrite Hsrc; auto | exact Hid]).
    congruence.
Qed.

(** X27.  Ids are not given out twice, so a chunk row that has lost its
    document never gets another one: it stays an orphan through every later
    [IndexDocument], whether that succeeds or fails ... *)
Lemma IndexDocument_keeps_orphans
      (env : Storage.Env) (d : Storage.Database)
      (src sourceType ttl : gostring) (cs : list Storage.Chunk) :
  Storage.sequenced (Storage.tables d) ->
  let d' := fst (Storage.IndexDocument env d src sourceType ttl cs) in
  Storage.sequenced (Storage.tables d') /\
  forall c, In c (Storage.chunks (Storage.tables d)) ->
            Storage.orphan (Storage.tables d) c = true ->
            Storage.orphan (Storage.tables d') c = true.
Proof.
  intros [Hdocs Hchunks]. unfold Storage.IndexDocument.
  assert (Hback : Storage.mkDatabase (Storage.foreign_keys d) (Storage.tables d) = d)
    by (destruct d; reflexivity).
  destruct (Storage.fails env Storage.Begin); [cbn [fst]; split; [split |]; auto |].
  destruct (Storage.indexStatements env (Storage.foreign_keys d) src sourceType ttl cs
                                    (Storage.tables d)) as [t [e|]] eqn:Hst;
    [cbn [fst]; rewrite Hback; split; [split |]; auto |].
  destruct (Storage.fails env Storage.Commit);
    [cbn [fst]; rewrite Hback; split; [split |]; auto |].
  cbn [fst Storage.tables].
  apply indexStatements_commits in Hst. cbn zeta in Hst.
  destruct Hst as [rows [Hd [Hc [Hseq Hrows]]]].
  set (before := fst (Storage.deleteBySource (Storage.foreign_keys d) src
                                             (Storage.tables d))) in *.
  set (rowid := Storage.nextRowid _ _) in *.
  destruct (nextRowid_above (Storage.seq_documents (Storage.tables d))
                            (map Storage.id (Storage.documents before)))
    as [Habove _].
  fold rowid in Habove.
  assert (Hkept : forall r, In r (Storage.documents before) ->
                            In r (Storage.documents (Storage.tables d)))
    by (intros r Hr; subst before; cbn [Storage.deleteBySource fst Storage.documents] in Hr;
        apply filter_In in Hr; tauto).
  assert (Hleft : forall c, In c (Storage.chunks before) ->
                            In c (Storage.chunks (Storage.tables d)))
    by (intros c Hc'; subst before;
        cbn [Storage.deleteBySource fst Storage.chunks] in Hc';
        destruct (Storage.foreign_keys d); [apply filter_In in Hc' |]; tauto).
  rewrite Forall_forall in Hdocs, Hchunks.
  split; [split |].
  - rewrite Hd, Hseq. apply Forall_app. split.
    + apply Forall_forall. intros r Hr. specialize (Hdocs r (Hkept r Hr)). lia.
    + constructor; [cbn [Storage.id]; lia | constructor].
  - rewrite Hc, Hseq. apply Forall_app. split.
    + apply Forall_forall. intros c Hc'. specialize (Hchunks c (Hleft c Hc')). lia.
    + apply Forall_forall. intros row Hrow.
      destruct (Forall2_In_left _ _ _ Hrows row Hrow) as [ch [_ Hstores]].
      unfold Storage.stores in Hstores. rewrite Hstores.
      cbn [Storage.document_id]. lia.
  - intros c Hin Horphan. unfold Storage.orphan in *.
    apply negb_true_iff in Horphan. apply negb_true_iff.
    rewrite Hd, existsb_app. cbn [existsb Storage.id].
    specialize (Hchunks c Hin).
    replace (rowid =? Storage.document_id c) with false
      by (symmetry; apply Z.eqb_neq; lia).
    rewrite orb_false_r.
    destruct (existsb _ (Storage.documents before)) eqn:E; [| reflexivity].
    apply existsb_exists in E. destruct E as [r [Hr Hid]].
    assert (Hhas : existsb (fun r0 => Storage.id r0 =? Storage.document_id c)
                           (Storage.documents (Storage.tables d)) = true)
      by (apply existsb_exists; exists r; split; [apply Hkept; exact Hr | exact Hid]).
    congruence.
Qed.

(** ... and every later [DeleteDocument]. *)
Lemma DeleteDocument_keeps_orphans
      (env : Storage.Env) (d : Storage.Database) (src : gostring) :
  Storage.sequenced (Storage.tables d) ->
  let d' := fst (Storage.DeleteDocument env d src) in
  Storage.sequenced (Storage.tables d') /\
  forall c, Storage.orphan (Storage.tables d) c = true ->
            Storage.orphan (Storage.tables d') c = true.
Proof.
  intros [Hdocs Hchunks]. unfold Storage.DeleteDocument.
  destruct (Storage.fails env Storage.ExecDelete); [cbn [fst]; split; [split |]; auto |].
  assert (Hsame : forall (x y : Storage.Database * option error) (b : bool),
             fst x = fst y -> fst (if b then x else y) = fst x)
    by (intros x y [] H; congruence).
  cbn [Storage.deleteBySource].
  rewrite Hsame by (destruct (_ =? 0); reflexivity). cbn [fst Storage.tables].
  rewrite Forall_forall in Hdocs, Hchunks.
  split; [split |]; cbn [Storage.documents Storage.chunks Storage.seq_documents].
  - apply Forall_forall. intros r Hr. apply filter_In in Hr. apply Hdocs. tauto.
  - apply Forall_forall. intros c Hc. apply Hchunks.
    destruct (Storage.foreign_keys d); [apply filter_In in Hc |]; tauto.
  - intros c Horphan. unfold Storage.orphan in *.
    apply negb_true_iff in Horphan. apply negb_true_iff.
    cbn [Storage.documents].
    destruct (existsb _ (filter _ _)) eqn:E; [| reflexivity].
    apply existsb_exists in E. destruct E as [r [Hr Hid]].
    apply filter_In in Hr.
    assert (Hhas : existsb (fun r0 => Storage.id r0 =? Storage.document_id c)
                           (Storage.documents (Storage.tables d)) = true)
      by (apply existsb_exists; exists r; tauto).
    congruence.
Qed.

(** C2 at the input where it fails.  On the database [NewDatabase] opens
    at the default path, whatever the driver makes of parameters
    ([foreign_keys] off, no PRAGMA issued) the [ON DELETE CASCADE] of the
    schema is not enforced: after a document with one chunk is indexed and
    then deleted, its chunk row is still in [chunks], and it is still there
    after the document is indexed again. *)
Theorem chunks_outlive_their_document :
  (forall readDSN,
      Storage.NewDatabase Examples.quietEnv readDSN true None Examples.dbPath
      = Ok Examples.freshDatabase) /\
  exists d1 d2 d3,
    Storage.IndexDocument Examples.quietEnv Examples.freshDatabase
                          (gostr "a.txt") (gostr "file") [] [Examples.helloChunk]
    = (d1, None) /\
    (* deleted ... *)
    Storage.DeleteDocument Examples.quietEnv d1 (gostr "a.txt") = (d2, None) /\
    Storage.documents (Storage.tables d2) = [] /\
    map Storage.document_id (Storage.chunks (Storage.tables d2)) = [1] /\
    map Storage.content (Storage.chunks (Storage.tables d2)) = [gostr "hello"] /\
    (* ... or replaced *)
    Storage.IndexDocument Examples.quietEnv d1
                          (gostr "a.txt") (gostr "file") [] [Examples.worldChunk]
    = (d3, None) /\
    map Storage.id (Storage.documents (Storage.tables d3)) = [2] /\
    map Storage.document_id (Storage.chunks (Storage.tables d3)) = [1; 2] /\
    map (Storage.orphan (Storage.tables d3)) (Storage.chunks (Storage.tables d3))
    = [true; false].
Proof.
  split; [intros readDSN; reflexivity |].
  eexists _, _, _.
  split; [vm_compute; reflexivity |].
  split; [vm_compute; reflexivity |].
  split; [reflexivity |]. split; [reflexivity |]. split; [reflexivity |].
  split; [vm_compute; reflexivity |].
  split; [reflexivity |]. split; reflexivity.
Qed.

Section SearchRanking.

Import Storage.

Variable cosineScore : list Z -> list Z -> Q.

Lemma insertDesc_perm (r : SearchResult) (l : list SearchResult) :
  Permutation (insertDesc r l) (r :: l).
Proof.
  induction l as [|x l IH]; cbn [insertDesc]; [reflexivity |].
  destruct (Qle_bool (Score x) (Score r)); [reflexivity |].
  rewrite IH. apply perm_swap.
Qed.

Lemma orderByScoreDesc_perm (l : list SearchResult) :
  Permutation (orderByScoreDesc l) l.
Proof.
  induction l as [|x l IH]; cbn [orderByScoreDesc fold_right]; [reflexivity |].
  fold (orderByScoreDesc l). rewrite insertDesc_perm, IH. reflexivity.
Qed.

Lemma insertDesc_sorted (r : SearchResult) (l : list SearchResult) :
  StronglySorted descending l -> StronglySorted descending (insertDesc r l).
Proof.
  induction 1 as [|x l Hl IH Hx]; cbn [insertDesc].
  - constructor; constructor.
  - destruct (Qle_bool (Score x) (Score r)) eqn:E.
    + apply Qle_bool_iff in E.
      constructor; [constructor; assumption |].
      constructor; [exact E |].
      eapply Forall_impl; [| exact Hx].
      intros y Hy. unfold descending in *. eapply Qle_trans; eassumption.
    + assert (Hlt : (Score r < Score x)%Q).
      { apply Qnot_le_lt. intros Hle. apply Qle_bool_iff in Hle. congruence. }
      constructor; [exact IH |].
      eapply Permutation_Forall; [symmetry; apply insertDesc_perm |].
      constructor; [apply Qlt_le_weak; exact Hlt | exact Hx].
Qed.

Lemma orderByScoreDesc_sorted (l : list SearchResult) :
  StronglySorted descending (orderByScoreDesc l).
Proof.
  induction l as [|x l IH]; cbn [orderByScoreDesc fold_right]; [constructor |].
  apply insertDesc_sorted. exact IH.
Qed.

Lemma firstn_In {A : Type} (n : nat) (l : list A) (x : A) :
  In x (firstn n l) -> In x l.
Proof.
  intros H. rewrite <- (firstn_skipn n l). apply in_or_app. left. exact H.
Qed.

Lemma firstn_sorted {A : Type} (R : A -> A -> Prop) (n : nat) (l : list A) :
  StronglySorted R l -> StronglySorted R (firstn n l).
Proof.
  intros H. revert n.
  induction H as [|x l Hl IH Hx]; intros [|n]; cbn [firstn]; try constructor.
  - apply IH.
  - rewrite Forall_forall in *. intros y Hy. apply Hx.
    eapply firstn_In. exact Hy.
Qed.

Lemma filter_sorted {A : Type} (R : A -> A -> Prop) (f : A -> bool) (l : list A) :
  StronglySorted R l -> StronglySorted R (filter f l).
Proof.
  induction 1 as [|x l Hl IH Hx]; cbn [filter]; [constructor |].
  destruct (f x); [| exact IH].
  constructor; [exact IH |].
  rewrite Forall_forall in *. intros y Hy. apply Hx.
  apply filter_In in Hy. tauto.
Qed.

(** The scan loop keeps, in order, the rows whose score is at least
    [minScore]. *)
Lemma scanRows_filters (env : Env) (minScore : Q) (rows : list SearchResult) :
  forall i acc results,
    scanRows env minScore rows i acc = Ok results ->
    results = acc ++ filter (fun r => Qle_bool minScore (Score r)) rows.
Proof.
  induction rows as [|row rest IH]; intros i acc results H;
    cbn [scanRows filter] in *.
  - injection H as <-. symmetry. apply app_nil_r.
  - destruct (fails env (Scan i)); [discriminate |].
    destruct (Qle_bool minScore (Score row)).
    + rewrite (IH _ _ _ H), <- app_assoc. reflexivity.
    + exact (IH _ _ _ H).
Qed.

(** What a successful [Search] returns, in terms of its query. *)
Lemma Search_returns (env : Env) (d : Database) (queryEmbedding : list float32)
      (topK : Z) (minScore : Q) (sourceFilter : gostring)
      (results : list SearchResult) :
  Search cosineScore env d queryEmbedding topK minScore sourceFilter = Ok results ->
  results = filter (fun r => Qle_bool minScore (Score r))
                   (searchQuery cosineScore (tables d)
                                (flat_map le32 queryEmbedding) topK sourceFilter).
Proof.
  unfold Search. destruct (negb _); [discriminate |].
  cbn [serializeEmbedding].
  destruct (fails env Query); [discriminate |].
  destruct (scanRows _ _ _ _ _) as [rs | e] eqn:Hscan; [| discriminate].
  destruct (fails env RowsErr); [discriminate |].
  intros H. injection H as <-.
  apply scanRows_filters in Hscan. exact Hscan.
Qed.

Lemma candidates_joined (t : Tables) (queryBlob : list Z)
      (sourceFilter : gostring) (r : SearchResult) :
  In r (candidates cosineScore t queryBlob sourceFilter) ->
  exists c doc,
    In c (chunks t) /\ In doc (documents t) /\ document_id c = id doc /\
    (sourceFilter <> [] -> source doc = sourceFilter) /\
    r = mkResult (content c) (source doc) (chunk_index c)
                 (cosineScore (embedding c) queryBlob).
Proof.
  unfold candidates. intros H. apply in_map_iff in H.
  destruct H as [[c doc] [<- Hin]].
  assert (Hjoin : In (c, doc) (joinRows t) /\
                  (sourceFilter <> [] -> source doc = sourceFilter)).
  { unfold whereSource in Hin. destruct sourceFilter as [|b rest].
    - split; [exact Hin | congruence].
    - apply filter_In in Hin. destruct Hin as [Hin Heq].
      split; [exact Hin |]. intros _. apply gostring_eqb_eq in Heq. exact Heq. }
  destruct Hjoin as [Hjoin Hsrc].
  unfold joinRows in Hjoin. apply in_flat_map in Hjoin.
  destruct Hjoin as [c' [Hc Hpair]]. apply in_map_iff in Hpair.
  destruct Hpair as [doc' [Heq Hdoc]]. injection Heq as -> ->.
  apply filter_In in Hdoc. destruct Hdoc as [Hdoc Hid].
  apply Z.eqb_eq in Hid.
  exists c, doc. repeat split; assumption.
Qed.

Lemma limit_incl (topK : Z) (l : list SearchResult) (r : SearchResult) :
  In r (limit topK l) -> In r l.
Proof.
  unfold limit. destruct (topK <? 0); [auto | apply firstn_In].
Qed.

End SearchRanking.

(** C3, as the code has it.  For a limit [topK >= 0], a successful [Search]
    returns the rows of the first [topK] places of the ranking (every chunk
    joined to its document, restricted to the source filter when there is
    one, ordered by descending score) whose score is at least [minScore]:
    the filter comes after the limit, and a row ranked below place [topK]
    is not returned whatever its score.  So there are at most [topK]
    results, in descending order of score, all with score [>= minScore],
    all of the filtered source. *)
Theorem Search_limits_then_filters
        (cosineScore : list Z -> list Z -> Q)
        (env : Storage.Env) (d : Storage.Database) (queryEmbedding : list float32)
        (topK : Z) (minScore : Q) (sourceFilter : gostring)
        (results : list Storage.SearchResult) :
  0 <= topK ->
  Storage.Search cosineScore env d queryEmbedding topK minScore sourceFilter
  = Ok results ->
  exists ranked,
    Permutation ranked
                (Storage.candidates cosineScore (Storage.tables d)
                                    (flat_map Storage.le32 queryEmbedding)
                                    sourceFilter) /\
    StronglySorted Storage.descending ranked /\
    results = filter (fun r => Qle_bool minScore (Storage.Score r))
                     (firstn (Z.to_nat topK) ranked) /\
    Z.of_nat (length results) <= topK /\
    StronglySorted Storage.descending results /\
    Forall (fun r => (minScore <= Storage.Score r)%Q) results /\
    (sourceFilter <> [] ->
     Forall (fun r => Storage.ResultSource r = sourceFilter) results).
Proof.
  intros HtopK H. apply Search_returns in H.
  unfold Storage.searchQuery, Storage.limit in H.
  replace (topK <? 0) with false in H by (symmetry; apply Z.ltb_ge; lia).
  fold (Storage.candidates cosineScore (Storage.tables d)
                           (flat_map Storage.le32 queryEmbedding) sourceFilter) in H.
  set (cands := Storage.candidates _ _ _ _) in *.
  exists (Storage.orderByScoreDesc cands).
  pose proof (orderByScoreDesc_perm cands) as Hperm.
  pose proof (orderByScoreDesc_sorted cands) as Hsorted.
  split; [exact Hperm |]. split; [exact Hsorted |]. split; [exact H |].
  subst results. split; [| split; [| split]].
  - pose proof (filter_length_le (fun r => Qle_bool minScore (Storage.Score r))
                                 (firstn (Z.to_nat topK) (Storage.orderByScoreDesc cands))).
    pose proof (firstn_le_length (Z.to_nat topK) (Storage.orderByScoreDesc cands)).
    lia.
  - apply filter_sorted, firstn_sorted. exact Hsorted.
  - apply Forall_forall. intros r Hr. apply filter_In in Hr.
    apply Qle_bool_iff. tauto.
  - intros Hfilter. apply Forall_forall. intros r Hr.
    apply filter_In in Hr. destruct Hr as [Hr _].
    apply firstn_In in Hr. apply (Permutation_in _ Hperm) in Hr.
    subst cands. apply candidates_joined in Hr.
    destruct Hr as [c [doc [_ [_ [_ [Hsrc ->]]]]]].
    cbn [Storage.ResultSource]. auto.
Qed.

(** Three chunks of scores 0.5, 0.9, 0.2, [topK = 1], [minScore = 0.1]:
    only the chunk of score 0.9 is returned, although the one of score 0.5
    is above [minScore]. *)
Lemma Search_limits_then_filters_witness :
  exists results,
    Storage.Search Examples.byteScore Examples.quietEnv Examples.rankedDatabase
                   Examples.query 1 (1 # 10) [] = Ok results /\
    map Storage.ResultContent results = [gostr "nine"] /\
    exists ranked,
      Permutation ranked
                  (Storage.candidates Examples.byteScore
                                      (Storage.tables Examples.rankedDatabase)
                                      (flat_map Storage.le32 Examples.query) []) /\
      StronglySorted Storage.descending ranked /\
      results = filter (fun r => Qle_bool (1 # 10) (Storage.Score r))
                       (firstn (Z.to_nat 1) ranked) /\
      Z.of_nat (length results) <= 1 /\
      StronglySorted Storage.descending results /\
      Forall (fun r => (1 # 10 <= Storage.Score r)%Q) results /\
      (@nil Z <> [] -> Forall (fun r => Storage.ResultSource r = []) results).
Proof.
  destruct (Storage.Search Examples.byteScore Examples.quietEnv
                           Examples.rankedDatabase Examples.query 1 (1 # 10) [])
    as [results | e] eqn:Hrun; [| vm_compute in Hrun; discriminate].
  exists results. split; [reflexivity |]. split.
  - vm_compute in Hrun. injection Hrun as <-. reflexivity.
  - apply (Search_limits_then_filters Examples.byteScore Examples.quietEnv
                                      Examples.rankedDatabase Examples.query
                                      1 (1 # 10) [] results).
    + lia.
    + exact Hrun.
Defined.

(** C3 as stated fails for a negative limit: [LIMIT -1] is no limit, and
    [Search] returns three results for [topK = -1]. *)
Lemma Search_negative_topK_returns_all :
  exists results,
    Storage.Search Examples.byteScore Examples.quietEnv Examples.rankedDatabase
                   Examples.query (-1) (1 # 10) [] = Ok results /\
    map Storage.ResultContent results = [gostr "nine"; gostr "half"; gostr "two "] /\
    ~ (Z.of_nat (length results) <= -1).
Proof.
  eexists. split; [vm_compute; reflexivity |].
  split; [reflexivity |]. cbn [length]. lia.
Qed.

(** C10.  Every result of [Search] is built from a chunk row and a document
    row of the database with [document_id = id]: a chunk row without its
    document is not returned. *)
Theorem Search_results_have_documents
        (cosineScore : list Z -> list Z -> Q)
        (env : Storage.Env) (d : Storage.Database) (queryEmbedding : list float32)
        (topK : Z) (minScore : Q) (sourceFilter : gostring)
        (results : list Storage.SearchResult) :
  Storage.Search cosineScore env d queryEmbedding topK minScore sourceFilter
  = Ok results ->
  Forall (fun r =>
            exists c doc,
              In c (Storage.chunks (Storage.tables d)) /\
              In doc (Storage.documents (Storage.tables d)) /\
              Storage.document_id c = Storage.id doc /\
              Storage.orphan (Storage.tables d) c = false /\
              r = Storage.mkResult
                    (Storage.content c) (Storage.source doc) (Storage.chunk_index c)
                    (cosineScore (Storage.embedding c)
                                 (flat_map Storage.le32 queryEmbedding)))
         results.
Proof.
  intros H. apply Search_returns in H. subst results.
  apply Forall_forall. intros r Hr.
  apply filter_In in Hr. destruct Hr as [Hr _].
  unfold Storage.searchQuery in Hr. apply limit_incl in Hr.
  apply (Permutation_in _ (orderByScoreDesc_perm _)) in Hr.
  apply candidates_joined in Hr.
  destruct Hr as [c [doc [Hc [Hdoc [Hid [_ Hr]]]]]].
  exists c, doc. repeat split; try assumption.
  unfold Storage.orphan. apply negb_false_iff, existsb_exists.
  exists doc. split; [exact Hdoc | apply Z.eqb_eq; congruence].
Qed.

(** The store of the examples still has the chunk row of the deleted
    ["gone.txt"]; an unlimited search returns the three chunks of ["a.txt"]
    and not that row. *)
Lemma Search_results_have_documents_witness :
  exists results,
    Storage.Search Examples.byteScore Examples.quietEnv Examples.rankedDatabase
                   Examples.query 10 (0 # 1) [] = Ok results /\
    map Storage.content (Storage.chunks (Storage.tables Examples.rankedDatabase))
    = [gostr "hello"; gostr "half"; gostr "nine"; gostr "two "] /\
    map Storage.ResultContent results = [gostr "nine"; gostr "half"; gostr "two "] /\
    Forall (fun r =>
              exists c doc,
                In c (Storage.chunks (Storage.tables Examples.rankedDatabase)) /\
                In doc (Storage.documents (Storage.tables Examples.rankedDatabase)) /\
                Storage.document_id c = Storage.id doc /\
                Storage.orphan (Storage.tables Examples.rankedDatabase) c = false /\
                r = Storage.mkResult
                      (Storage.content c) (Storage.source doc) (Storage.chunk_index c)
                      (Examples.byteScore (Storage.embedding c)
                                          (flat_map Storage.le32 Examples.query)))
           results.
Proof.
  destruct (Storage.Search Examples.byteScore Examples.quietEnv
                           Examples.rankedDatabase Examples.query 10 (0 # 1) [])
    as [results | e] eqn:Hrun; [| vm_compute in Hrun; discriminate].
  exists results. split; [reflexivity |]. split; [vm_compute; reflexivity |]. split.
  - vm_compute in Hrun. injection Hrun as <-. reflexivity.
  - apply (Search_results_have_documents Examples.byteScore Examples.quietEnv
                                         Examples.rankedDatabase Examples.query
                                         10 (0 # 1) [] results).
    exact Hrun.
Defined.

(** ** The orchestrator *)

(** X28.  The store is never asked for fewer than one result: the
    orchestrator's [Search] answers with at most [TopK] results, or 5 when
    [TopK] is not positive, and [Count] is their number. *)
Lemma Service_Search_bounds_results
      (cosineScore : list Z -> list Z -> Q)
      (p : Embeddings.Provider) (env : Storage.Env) (db : Storage.Database)
      (req : Service.SearchRequest) (st st' : Embeddings.clientState)
      (resp : Service.SearchResponse) :
  Service.Search cosineScore p env db req st = (st', Returns (Ok resp)) ->
  Service.Count resp = GoInt.len (Service.Results resp) /\
  Service.Count resp
  <= (if Service.TopK req <=? 0 then 5 else Service.TopK req).
Proof.
  unfold Service.Search.
  set (topK := if Service.TopK req <=? 0 then 5 else Service.TopK req).
  assert (HtopK : 0 <= topK)
    by (subst topK; destruct (Service.TopK req <=? 0) eqn:E;
        [| apply Z.leb_gt in E]; lia).
  destruct (Embeddings.Embed p [Service.Query req] st)
    as [st1 [[embeddings | e] | |]]; try discriminate.
  destruct embeddings as [|queryEmbedding rest]; [discriminate |].
  destruct (Storage.Search _ _ _ _ _ _ _) as [results | e] eqn:Hsearch;
    [| discriminate].
  intros H. injection H as _ <-. cbn [Service.Count Service.Results].
  split; [reflexivity |].
  apply Search_returns in Hsearch.
  unfold Storage.searchQuery, Storage.limit in Hsearch.
  replace (topK <? 0) with false in Hsearch by (symmetry; apply Z.ltb_ge; lia).
  unfold GoInt.len. rewrite length_map, Hsearch.
  match goal with
  | |- Z.of_nat (length (filter ?f (firstn ?n ?l))) <= _ =>
    pose proof (filter_length_le f (firstn n l));
      pose proof (firstn_le_length n l)
  end.
  lia.
Qed.

Lemma no_rows_affected (src : gostring) (docs : list Storage.documentRow) :
  GoInt.len (filter (fun r => gostring_eqb (Storage.source r) src) docs) = 0 <->
  forall doc, In doc docs -> Storage.source doc <> src.
Proof.
  unfold GoInt.len. split.
  - intros Hlen doc Hin Hsrc.
    assert (Hf : In doc (filter (fun r => gostring_eqb (Storage.source r) src) docs))
      by (apply filter_In; split; [exact Hin | apply gostring_eqb_eq; exact Hsrc]).
    destruct (filter _ docs); [destruct Hf | cbn [length] in Hlen; lia].
  - intros Hnone.
    destruct (filter (fun r => gostring_eqb (Storage.source r) src) docs)
      as [|doc rest] eqn:E; [reflexivity |].
    assert (Hin : In doc (filter (fun r => gostring_eqb (Storage.source r) src) docs))
      by (rewrite E; left; reflexivity).
    apply filter_In in Hin. destruct Hin as [Hin Heq].
    apply gostring_eqb_eq in Heq. destruct (Hnone doc Hin Heq).
Qed.

(** C8.  [Delete] returns a response and no error, whatever the store
    does.  The response has [Deleted = false] and the message built from
    the error exactly when [DeleteDocument] fails, and [Deleted = true]
    when it succeeds; then a document of that source was stored and none is
    left.  [DeleteDocument] reports "document not found" exactly when the
    driver calls succeed and no document has the source. *)
Theorem Delete_always_responds
        (env : Storage.Env) (db : Storage.Database) (req : Service.DeleteRequest) :
  let src := Service.RequestSource req in
  let failure := snd (Storage.DeleteDocument env db src) in
  exists db' resp,
    Service.Delete env db req = (db', (resp, None)) /\
    db' = fst (Storage.DeleteDocument env db src) /\
    Service.Source resp = src /\
    Service.Deleted resp = match failure with Some _ => false | None => true end /\
    Service.Message resp =
      match failure with
      | Some err => Sprintf "Failed to delete: %v" [VErr err]
      | None => Sprintf "Successfully deleted %s" [VStr src]
      end /\
    (failure = None ->
     (exists doc, In doc (Storage.documents (Storage.tables db)) /\
                  Storage.source doc = src) /\
     (forall doc, In doc (Storage.documents (Storage.tables db')) ->
                  Storage.source doc <> src)) /\
    (failure = Some (Errorf "document not found: %s" [VStr src]) <->
     Storage.fails env Storage.ExecDelete = false /\
     Storage.fails env Storage.RowsAffected = false /\
     forall doc, In doc (Storage.documents (Storage.tables db)) ->
                 Storage.source doc <> src).
Proof.
  intros src failure. subst failure. unfold Service.Delete. fold src.
  unfold Storage.DeleteDocument.
  destruct (Storage.fails env Storage.ExecDelete) eqn:Hexec.
  { eexists _, _. cbn [fst snd]. repeat split; try discriminate.
    intros [H _]; discriminate. }
  cbn [Storage.deleteBySource].
  destruct (Storage.fails env Storage.RowsAffected) eqn:Hrows.
  { eexists _, _. cbn [fst snd]. repeat split; try discriminate.
    intros [_ [H _]]; discriminate. }
  pose proof (no_rows_affected src (Storage.documents (Storage.tables db))) as Hnone.
  destruct (GoInt.len (filter (fun r => gostring_eqb (Storage.source r) src)
                              (Storage.documents (Storage.tables db))) =? 0) eqn:Hzero.
  - apply Z.eqb_eq in Hzero.
    eexists _, _. cbn [fst snd]. repeat split; try discriminate.
    apply Hnone. exact Hzero.
  - apply Z.eqb_neq in Hzero.
    eexists _, _. cbn [fst snd]. repeat split; try discriminate.
    + destruct (filter (fun r => gostring_eqb (Storage.source r) src)
                       (Storage.documents (Storage.tables db)))
        as [|doc rest] eqn:E; [exfalso; apply Hzero; reflexivity |].
      assert (Hin : In doc (filter (fun r => gostring_eqb (Storage.source r) src)
                                   (Storage.documents (Storage.tables db))))
        by (rewrite E; left; reflexivity).
      apply filter_In in Hin. destruct Hin as [Hin Heq].
      exists doc. split; [exact Hin | apply gostring_eqb_eq; exact Heq].
    + intros doc Hin Hsrc. cbn [Storage.tables Storage.documents] in Hin.
      apply filter_In in Hin. destruct Hin as [_ Hne].
      apply gostring_eqb_eq in Hsrc. rewrite Hsrc in Hne. discriminate.
    + intros [_ [_ H]]. exfalso. apply Hzero, Hnone, H.
Qed.

(* ================================================================== *)
(** * Further properties of the code *)

(** ** Serialization of embeddings *)

Lemma land255_range (x : Z) : 0 <= Z.land x 255 <= 255.
Proof.
  change 255 with (Z.ones 8) at 1 2. rewrite Z.land_ones by lia.
  pose proof (Z.mod_pos_bound x (2 ^ 8) ltac:(lia)). change (2 ^ 8) with 256 in *. lia.
Qed.

Lemma land255_testbit (x n : Z) :
  0 <= n -> Z.testbit (Z.land x 255) n = Z.testbit x n && (n <? 8).
Proof.
  intros Hn. rewrite Z.land_spec. f_equal.
  change 255 with (Z.ones 8). apply Z.testbit_ones_nonneg; lia.
Qed.

Lemma testbit_above (x k n : Z) :
  0 <= x < 2 ^ k -> 0 <= k <= n -> Z.testbit x n = false.
Proof.
  intros Hx Hk. rewrite <- (Z.mod_small x (2 ^ k)) by lia.
  apply Z.mod_pow2_bits_high. lia.
Qed.

(** The four bytes of a 32-bit pattern give the pattern back. *)
Lemma fromLe32_le32 (x : Z) :
  0 <= x < 2 ^ 32 ->
  Storage.fromLe32 (Z.land x 255) (Z.land (Z.shiftr x 8) 255)
                   (Z.land (Z.shiftr x 16) 255) (Z.land (Z.shiftr x 24) 255) = x.
Proof.
  intros Hx. unfold Storage.fromLe32. apply Z.bits_inj'. intros n Hn.
  rewrite !Z.lor_spec.
  rewrite (land255_testbit x n Hn).
  destruct (Z.ltb_spec n 8) as [H8 | H8].
  - rewrite andb_true_r.
    rewrite !Z.shiftl_spec by lia.
    rewrite !(Z.testbit_neg_r _ (n - _)) by lia.
    rewrite !orb_false_r. reflexivity.
  - rewrite andb_false_r. cbn [orb].
    rewrite !Z.shiftl_spec by lia.
    destruct (Z.ltb_spec n 16) as [H16 | H16].
    + rewrite land255_testbit by lia. rewrite Z.shiftr_spec by lia.
      replace (n - 8 <? 8) with true by (symmetry; apply Z.ltb_lt; lia).
      rewrite !(Z.testbit_neg_r _ (n - 16)), !(Z.testbit_neg_r _ (n - 24)) by lia.
      rewrite andb_true_r, !orb_false_r. f_equal. lia.
    + rewrite (land255_testbit _ (n - 8)) by lia.
      replace (n - 8 <? 8) with false by (symmetry; apply Z.ltb_ge; lia).
      rewrite andb_false_r. cbn [orb].
      destruct (Z.ltb_spec n 24) as [H24 | H24].
      * rewrite land255_testbit by lia. rewrite Z.shiftr_spec by lia.
        replace (n - 16 <? 8) with true by (symmetry; apply Z.ltb_lt; lia).
        rewrite !(Z.testbit_neg_r _ (n - 24)) by lia.
        rewrite andb_true_r, !orb_false_r. f_equal. lia.
      * rewrite (land255_testbit _ (n - 16)) by lia.
        replace (n - 16 <? 8) with false by (symmetry; apply Z.ltb_ge; lia).
        rewrite andb_false_r. cbn [orb].
        rewrite land255_testbit by lia. rewrite Z.shiftr_spec by lia.
        replace (n - 24 + 24) with n by lia.
        destruct (Z.ltb_spec (n - 24) 8) as [H32 | H32].
        -- apply andb_true_r.
        -- rewrite andb_false_r. symmetry. apply (testbit_above x 32); lia.
Qed.

Lemma decodeFloats_serialized (emb : list float32) :
  Forall (fun x => 0 <= x < 2 ^ 32) emb ->
  forall rest,
    Storage.decodeFloats (length emb) (flat_map Storage.le32 emb ++ rest) = emb.
Proof.
  induction 1 as [|x emb Hx _ IH]; intros rest; [reflexivity |].
  cbn [length flat_map Storage.le32 app Storage.decodeFloats].
  rewrite fromLe32_le32 by exact Hx. f_equal. apply IH.
Qed.

Lemma serialized_length (emb : list float32) :
  length (flat_map Storage.le32 emb) = (4 * length emb)%nat.
Proof.
  induction emb as [|x emb IH]; [reflexivity |].
  cbn [flat_map Storage.le32 app length]. rewrite IH. lia.
Qed.

(** X1.  [serializeEmbedding] never fails; the blob has four bytes per
    value (6144 for a vector of dimension 1536) and each of them is a byte,
    whatever the values are. *)
Theorem serializeEmbedding_blob_size (emb : list float32) :
  exists blob,
    Storage.serializeEmbedding emb = Ok blob /\
    GoInt.len blob = 4 * GoInt.len emb /\
    (GoInt.len emb = Storage.embeddingDimension -> GoInt.len blob = 6144) /\
    Forall (fun b => 0 <= b <= 255) blob.
Proof.
  exists (flat_map Storage.le32 emb). split; [reflexivity |].
  assert (Hlen : GoInt.len (flat_map Storage.le32 emb) = 4 * GoInt.len emb)
    by (unfold GoInt.len; rewrite serialized_length; lia).
  split; [exact Hlen |]. split.
  - intros Hdim. rewrite Hlen, Hdim. reflexivity.
  - induction emb as [|x emb IH]; [constructor |].
    cbn [flat_map Storage.le32 app].
    repeat (constructor; [apply land255_range |]).
    apply IH. unfold GoInt.len. rewrite serialized_length. lia.
Qed.

(** X2.  A vector of dimension 1536 whose values are 32-bit patterns comes
    back unchanged from [deserializeEmbedding] of its [serializeEmbedding]. *)
Theorem deserialize_serialize_roundtrip (emb : list float32) :
  GoInt.len emb = Storage.embeddingDimension ->
  Forall (fun x => 0 <= x < 2 ^ 32) emb ->
  exists blob,
    Storage.serializeEmbedding emb = Ok blob /\
    Storage.deserializeEmbedding blob = Ok emb.
Proof.
  intros Hdim Hbits. exists (flat_map Storage.le32 emb). split; [reflexivity |].
  unfold Storage.deserializeEmbedding.
  assert (Hlen : GoInt.len (flat_map Storage.le32 emb) = 6144).
  { unfold GoInt.len in *. rewrite serialized_length.
    unfold Storage.embeddingDimension in Hdim. lia. }
  cbv zeta. rewrite Hlen.
  replace (6144 =? 0) with false by reflexivity.
  replace (6144 <? Storage.embeddingDimension * 4) with false by reflexivity.
  rewrite firstn_all2
    by (unfold GoInt.len in Hlen; change (Storage.embeddingDimension * 4) with 6144; lia).
  replace (Z.to_nat Storage.embeddingDimension) with (length emb)
    by (unfold GoInt.len in Hdim; lia).
  f_equal. rewrite <- (app_nil_r (flat_map Storage.le32 emb)).
  apply decodeFloats_serialized. exact Hbits.
Qed.

Lemma deserialize_serialize_roundtrip_witness :
  exists blob,
    Storage.serializeEmbedding Examples.mixedVector = Ok blob /\
    Storage.deserializeEmbedding blob = Ok Examples.mixedVector.
Proof.
  apply (deserialize_serialize_roundtrip Examples.mixedVector).
  - vm_compute. reflexivity.
  - unfold Examples.mixedVector. rewrite !Forall_app.
    repeat split; apply Forall_forall; intros x Hx;
      apply repeat_spec in Hx; subst x; change (2 ^ 32) with 4294967296; lia.
Defined.

Lemma decodeFloats_length (n : nat) :
  forall buf, (4 * n <= length buf)%nat ->
              length (Storage.decodeFloats n buf) = n.
Proof.
  induction n as [|n IH]; intros buf Hbuf; [reflexivity |].
  destruct buf as [|b0 [|b1 [|b2 [|b3 rest]]]]; cbn [length] in Hbuf; try lia.
  cbn [Storage.decodeFloats length]. rewrite IH; [reflexivity | lia].
Qed.

(** X3.  [deserializeEmbedding] fails exactly on a blob shorter than 6144
    bytes.  On a longer blob it succeeds with a vector of dimension 1536
    read from the first 6144 bytes: the bytes after them change nothing. *)
Theorem deserializeEmbedding_reads_6144_bytes (data : list Z) :
  ((exists e, Storage.deserializeEmbedding data = Err e) <-> GoInt.len data < 6144) /\
  (forall emb,
      Storage.deserializeEmbedding data = Ok emb ->
      GoInt.len emb = Storage.embeddingDimension /\
      forall extra, Storage.deserializeEmbedding (data ++ extra) = Ok emb).
Proof.
  unfold Storage.deserializeEmbedding. cbv zeta.
  change (Storage.embeddingDimension * 4) with 6144.
  pose proof (len_nonneg data) as Hnn.
  destruct (Z.eqb_spec (GoInt.len data) 0) as [Hzero | Hzero].
  { split; [split; [lia | eauto] | discriminate]. }
  destruct (Z.ltb_spec (GoInt.len data) 6144) as [Hshort | Hlong].
  { split; [split; [lia | eauto] | discriminate]. }
  remember (Z.to_nat Storage.embeddingDimension) as n eqn:En.
  remember (Z.to_nat 6144) as m eqn:Em.
  assert (Hn : Z.of_nat n = 1536) by (subst n; reflexivity).
  assert (Hm : Z.of_nat m = 6144) by (subst m; reflexivity).
  split.
  - split; [intros [e He]; discriminate | lia].
  - intros emb H.
    assert (Hemb : emb = Storage.decodeFloats n (firstn m data)) by congruence.
    clear H. subst emb. split.
    + unfold GoInt.len in *. rewrite decodeFloats_length.
      * exact Hn.
      * rewrite length_firstn. lia.
    + intros extra.
      assert (Hlen : GoInt.len (data ++ extra) = GoInt.len data + GoInt.len extra)
        by (unfold GoInt.len; rewrite length_app; lia).
      pose proof (len_nonneg extra).
      replace (GoInt.len (data ++ extra) =? 0) with false
        by (symmetry; apply Z.eqb_neq; lia).
      replace (GoInt.len (data ++ extra) <? 6144) with false
        by (symmetry; apply Z.ltb_ge; lia).
      rewrite firstn_app.
      replace (m - length data)%nat with 0%nat
        by (unfold GoInt.len in Hlong; lia).
      rewrite firstn_0, app_nil_r. reflexivity.
Qed.

(** ** Documents, their keys and their chunks *)

Lemma IndexDocument_cases (env : Storage.Env) (d : Storage.Database)
      (src sourceType ttl : gostring) (cs : list Storage.Chunk) :
  (exists e, Storage.IndexDocument env d src sourceType ttl cs = (d, Some e)) \/
  (exists t',
      Storage.indexStatements env (Storage.foreign_keys d) src sourceType ttl cs
                              (Storage.tables d) = (t', None) /\
      Storage.IndexDocument env d src sourceType ttl cs
      = (Storage.mkDatabase (Storage.foreign_keys d) t', None)).
Proof.
  unfold Storage.IndexDocument.
  assert (Hback : Storage.mkDatabase (Storage.foreign_keys d) (Storage.tables d) = d)
    by (destruct d; reflexivity).
  destruct (Storage.fails env Storage.Begin); [left; eauto |].
  destruct (Storage.indexStatements _ _ _ _ _ _ _) as [t [e|]];
    [left; rewrite Hback; eauto |].
  destruct (Storage.fails env Storage.Commit); [left; rewrite Hback; eauto |].
  right. eauto.
Qed.

Lemma DeleteDocument_cases (env : Storage.Env) (d : Storage.Database)
      (src : gostring) :
  fst (Storage.DeleteDocument env d src) = d \/
  fst (Storage.DeleteDocument env d src)
  = Storage.mkDatabase (Storage.foreign_keys d)
      (fst (Storage.deleteBySource (Storage.foreign_keys d) src (Storage.tables d))).
Proof.
  unfold Storage.DeleteDocument.
  destruct (Storage.fails env Storage.ExecDelete); [left; reflexivity |].
  cbn [Storage.deleteBySource fst].
  destruct (Storage.fails env Storage.RowsAffected); [right; reflexivity |].
  destruct (_ =? 0); right; reflexivity.
Qed.

Lemma NoDup_map_filter {Row Key : Type} (key : Row -> Key) (keep : Row -> bool) :
  forall rows : list Row,
    NoDup (map key rows) -> NoDup (map key (filter keep rows)).
Proof.
  intros rows. induction rows as [|row rows IH]; cbn [map filter]; intros H.
  - constructor.
  - inversion H as [|? ? Hnotin Hnd]; subst.
    destruct (keep row); [| auto].
    cbn [map]. constructor; [| auto].
    intros Hin. apply Hnotin. apply in_map_iff in Hin.
    destruct Hin as [y [Hy Hin]]. apply filter_In in Hin.
    apply in_map_iff. exists y. tauto.
Qed.

Lemma NoDup_snoc {A : Type} (l : list A) (x : A) :
  NoDup l -> ~ In x l -> NoDup (l ++ [x]).
Proof.
  intros Hl Hx. apply NoDup_app; [exact Hl | constructor; [intros [] | constructor] |].
  intros y Hy [<- | []]. exact (Hx Hy).
Qed.

Lemma filter_none {A : Type} (p : A -> bool) (l : list A) :
  (forall x, In x l -> p x = false) -> filter p l = [].
Proof.
  induction l as [|x l IH]; intros H; [reflexivity |].
  cbn [filter]. rewrite (H x) by (left; reflexivity).
  apply IH. intros y Hy. apply H. right. exact Hy.
Qed.

Lemma filter_all {A : Type} (p : A -> bool) (l : list A) :
  (forall x, In x l -> p x = true) -> filter p l = l.
Proof.
  induction l as [|x l IH]; intros H; [reflexivity |].
  cbn [filter]. rewrite (H x) by (left; reflexivity).
  f_equal. apply IH. intros y Hy. apply H. right. exact Hy.
Qed.

Lemma NoDup_map_same {Row Key : Type} (key : Row -> Key) (rows : list Row) :
  NoDup (map key rows) ->
  forall a b, In a rows -> In b rows -> key a = key b -> a = b.
Proof.
  induction rows as [|row rows IH]; intros Hnd a b Ha Hb Hkey; [destruct Ha |].
  cbn [map] in Hnd. inversion Hnd as [|? ? Hnotin Hrest]; subst.
  destruct Ha as [<- | Ha], Hb as [<- | Hb].
  - reflexivity.
  - exfalso. apply Hnotin. rewrite Hkey. apply in_map. exact Hb.
  - exfalso. apply Hnotin. rewrite <- Hkey. apply in_map. exact Ha.
  - apply IH; assumption.
Qed.

Lemma filter_kept_rows {Row : Type} (wanted keep : Row -> bool) (rows : list Row) :
  (forall row, In row rows -> wanted row = true -> keep row = true) ->
  filter wanted (filter keep rows) = filter wanted rows.
Proof.
  induction rows as [|row rows IH]; intros H; [reflexivity |].
  cbn [filter].
  assert (IH' : filter wanted (filter keep rows) = filter wanted rows)
    by (apply IH; intros r Hr; apply H; right; exact Hr).
  destruct (keep row) eqn:Hkeep; cbn [filter].
  - rewrite IH'. reflexivity.
  - destruct (wanted row) eqn:Hwanted; [| exact IH'].
    rewrite (H row) in Hkeep by (auto; left; reflexivity). discriminate.
Qed.

(** [DELETE FROM documents WHERE source = ?] keeps the tables consistent,
    with foreign keys off and on. *)
Lemma delete_consistent (fk : bool) (src : gostring) (t : Storage.Tables) :
  Storage.consistent t ->
  Storage.consistent (fst (Storage.deleteBySource fk src t)).
Proof.
  intros [Hsrc [Hids [[Hdocs Hchunks] Hcount]]].
  cbn [Storage.deleteBySource fst].
  unfold Storage.consistent, Storage.sequenced, Storage.chunksOf.
  cbn [Storage.documents Storage.chunks Storage.seq_documents].
  rewrite Forall_forall in Hdocs, Hchunks, Hcount.
  split; [apply NoDup_map_filter; exact Hsrc |].
  split; [apply NoDup_map_filter; exact Hids |].
  split; [split |].
  - apply Forall_forall. intros r Hr. apply filter_In in Hr. apply Hdocs. tauto.
  - apply Forall_forall. intros c Hc. apply Hchunks.
    destruct fk; [apply filter_In in Hc |]; tauto.
  - apply Forall_forall. intros r Hr. apply filter_In in Hr.
    destruct Hr as [Hr Hkept]. rewrite (Hcount r Hr). unfold Storage.chunksOf.
    destruct fk; [| reflexivity].
    rewrite filter_kept_rows; [reflexivity |].
    intros c _ Hc. apply Z.eqb_eq in Hc.
    apply negb_true_iff.
    destruct (existsb _ _) eqn:Hgone; [| reflexivity].
    apply existsb_exists in Hgone. destruct Hgone as [g [Hg Hid]].
    apply filter_In in Hg. destruct Hg as [Hg Hsource].
    apply Z.eqb_eq in Hid.
    assert (Hsame : g = r)
      by (apply (NoDup_map_same Storage.id _ Hids); [assumption .. | congruence]).
    subst g. rewrite Hsource in Hkept. discriminate.
Qed.

(** A committed [IndexDocument] keeps the tables consistent, with foreign
    keys off and on. *)
Lemma commit_consistent (env : Storage.Env) (fk : bool)
      (src sourceType ttl : gostring) (cs : list Storage.Chunk)
      (t t' : Storage.Tables) :
  Storage.consistent t ->
  Storage.indexStatements env fk src sourceType ttl cs t = (t', None) ->
  Storage.consistent t'.
Proof.
  intros Hcons Hst.
  pose proof (delete_consistent fk src t Hcons) as Hbefore.
  apply indexStatements_commits in Hst. cbn zeta in Hst.
  destruct Hst as [rows [Hd [Hc [Hseq Hrows]]]].
  set (before := fst (Storage.deleteBySource fk src t)) in *.
  assert (Hkept : forall r, In r (Storage.documents before) -> Storage.source r <> src).
  { intros r Hr. subst before. cbn [Storage.deleteBySource fst Storage.documents] in Hr.
    apply filter_In in Hr. destruct Hr as [_ Hne].
    intros Heq. apply gostring_eqb_eq in Heq. rewrite Heq in Hne. discriminate. }
  assert (Hcounter : Storage.seq_documents before = Storage.seq_documents t)
    by reflexivity.
  destruct Hbefore as [Hsrc [Hids [[Hdocs Hchunks] Hcount]]].
  rewrite Hcounter in Hdocs, Hchunks.
  set (rowid := Storage.nextRowid _ _) in *.
  destruct (nextRowid_above (Storage.seq_documents t)
                            (map Storage.id (Storage.documents before)))
    as [Habove _]. fold rowid in Habove.
  rewrite Forall_forall in Hdocs, Hchunks, Hcount.
  assert (Hrowdoc : forall row, In row rows -> Storage.document_id row = rowid).
  { intros row Hrow.
    destruct (Forall2_In_left _ _ _ Hrows row Hrow) as [ch [_ Hstores]].
    unfold Storage.stores in Hstores. rewrite Hstores. reflexivity. }
  unfold Storage.consistent, Storage.sequenced.
  rewrite Hd, Hc, Hseq. repeat split.
  - rewrite map_app. apply NoDup_snoc; [exact Hsrc |].
    cbn [map Storage.source]. intros Hin. apply in_map_iff in Hin.
    destruct Hin as [r [Heq Hr]]. apply Hkept in Hr. tauto.
  - rewrite map_app. apply NoDup_snoc; [exact Hids |].
    cbn [map Storage.id]. intros Hin. apply in_map_iff in Hin.
    destruct Hin as [r [Heq Hr]].
    specialize (Hdocs r Hr). cbn beta in Hdocs. lia.
  - apply Forall_app. split.
    + apply Forall_forall. intros r Hr.
      specialize (Hdocs r Hr). cbn beta in Hdocs. lia.
    + constructor; [cbn [Storage.id]; lia | constructor].
  - apply Forall_app. split.
    + apply Forall_forall. intros c Hin. specialize (Hchunks c Hin).
      cbn beta in Hchunks. lia.
    + apply Forall_forall. intros row Hrow. rewrite (Hrowdoc row Hrow). lia.
  - apply Forall_app. split.
    + apply Forall_forall. intros r Hr.
      rewrite (Hcount r Hr). unfold Storage.chunksOf. rewrite Hc, filter_app.
      rewrite (filter_none _ rows).
      * rewrite app_nil_r. reflexivity.
      * intros row Hrow. rewrite (Hrowdoc row Hrow).
        specialize (Hdocs r Hr). cbn beta in Hdocs. apply Z.eqb_neq. lia.
    + constructor; [| constructor].
      cbn [Storage.chunk_count Storage.id]. unfold Storage.chunksOf.
      rewrite Hc, filter_app.
      rewrite (filter_none _ (Storage.chunks before)).
      * rewrite (filter_all _ rows).
        -- cbn [app]. unfold GoInt.len. f_equal. symmetry.
           eapply Forall2_length. exact Hrows.
        -- intros row Hrow. rewrite (Hrowdoc row Hrow). apply Z.eqb_refl.
      * intros c Hin. specialize (Hchunks c Hin). cbn beta in Hchunks.
        apply Z.eqb_neq. lia.
Qed.

(** X4.  In every database the program reaches from a fresh file (by
    indexing, deleting and reopening, under any path and parameters, with
    foreign keys off or on and with any driver failures on the way) no two
    documents have the same source or the same id, no id exceeds the
    AUTOINCREMENT counter, and the [chunk_count] of every document row is
    the number of chunk rows that refer to it. *)
Theorem reachable_consistent (d : Storage.Database) :
  Storage.reachable d -> Storage.consistent (Storage.tables d).
Proof.
  assert (Hopened : forall env readDSN file dbPath d',
             Storage.NewDatabase env readDSN true file dbPath = Ok d' ->
             Storage.tables d' = Storage.runMigrations file).
  { intros env readDSN file dbPath d'. unfold Storage.NewDatabase.
    destruct (Storage.fails env Storage.SqlOpen); [discriminate |].
    destruct (Storage.connect readDSN dbPath) as [fk | e]; [| discriminate].
    cbn [negb]. destruct (Storage.fails env Storage.ExecSchema); [discriminate |].
    intros H. injection H as <-. reflexivity. }
  induction 1 as [env readDSN dbPath d Hnew | env readDSN dbPath d d' Hd IH Hnew
                  | env d src sourceType ttl cs Hd IH
                  | env d src Hd IH].
  - rewrite (Hopened _ _ _ _ _ Hnew). cbn.
    repeat split; constructor.
  - rewrite (Hopened _ _ _ _ _ Hnew). exact IH.
  - destruct (IndexDocument_cases env d src sourceType ttl cs)
      as [[e He] | [t' [Hst He]]]; rewrite He; cbn [fst]; [exact IH |].
    cbn [Storage.tables]. eapply commit_consistent; eassumption.
  - destruct (DeleteDocument_cases env d src) as [He | He]; rewrite He;
      [exact IH |].
    cbn [Storage.tables]. apply delete_consistent. exact IH.
Qed.

(** The store of the ranking example, opened with foreign keys on
    (["?_fk=1"], read by a driver that turns them on for every parameter
    text): a document indexed, deleted, and another one indexed. *)
Lemma reachable_consistent_witness :
  exists d0,
    Storage.NewDatabase Examples.quietEnv (fun _ => Ok true) true None
                        (gostr "db_data/doc_search.db?_fk=1") = Ok d0 /\
    Storage.foreign_keys d0 = true /\
    let d1 := fst (Storage.IndexDocument Examples.quietEnv d0
                                         (gostr "gone.txt") (gostr "file") []
                                         [Examples.helloChunk]) in
    let d2 := fst (Storage.DeleteDocument Examples.quietEnv d1 (gostr "gone.txt")) in
    let d3 := fst (Storage.IndexDocument Examples.quietEnv d2
                                         (gostr "a.txt") (gostr "file") []
                                         [Examples.worldChunk]) in
    map Storage.source (Storage.documents (Storage.tables d3)) = [gostr "a.txt"] /\
    Storage.consistent (Storage.tables d3).
Proof.
  eexists. split; [reflexivity |]. split; [reflexivity |].
  cbv zeta. split; [vm_compute; reflexivity |].
  apply (reachable_consistent
           (fst (Storage.IndexDocument
                   Examples.quietEnv
                   (fst (Storage.DeleteDocument
                           Examples.quietEnv
                           (fst (Storage.IndexDocument
                                   Examples.quietEnv
                                   (Storage.mkDatabase true Storage.emptyTables)
                                   (gostr "gone.txt") (gostr "file") []
                                   [Examples.helloChunk]))
                           (gostr "gone.txt")))
                   (gostr "a.txt") (gostr "file") [] [Examples.worldChunk]))).
  apply Storage.reach_index, Storage.reach_delete, Storage.reach_index.
  apply (Storage.reach_new Examples.quietEnv (fun _ => Ok true)
                           (gostr "db_data/doc_search.db?_fk=1")).
  reflexivity.
Defined.

Lemma filter_other_source (src other : gostring) (docs : list Storage.documentRow) :
  gostring_eqb src other = false ->
  filter (fun r => gostring_eqb (Storage.source r) other)
         (filter (fun r => negb (gostring_eqb (Storage.source r) src)) docs)
  = filter (fun r => gostring_eqb (Storage.source r) other) docs.
Proof.
  intros E. induction docs as [|r docs IH]; [reflexivity |].
  cbn [filter]. destruct (gostring_eqb (Storage.source r) src) eqn:Er; cbn [negb].
  - apply gostring_eqb_eq in Er. rewrite Er, E. exact IH.
  - cbn [filter]. rewrite IH. reflexivity.
Qed.

Lemma count_source_after_commit (src : gostring) (docs : list Storage.documentRow)
      (doc : Storage.documentRow) (other : gostring) :
  Storage.source doc = src ->
  filter (fun r => gostring_eqb (Storage.source r) other)
         (filter (fun r => negb (gostring_eqb (Storage.source r) src)) docs ++ [doc])
  = if gostring_eqb src other
    then [doc]
    else filter (fun r => gostring_eqb (Storage.source r) other) docs.
Proof.
  intros Hdoc. rewrite filter_app. cbn [filter]. rewrite Hdoc.
  destruct (gostring_eqb src other) eqn:E.
  - apply gostring_eqb_eq in E. subst other.
    rewrite filter_none; [reflexivity |].
    intros r Hr. apply filter_In in Hr. destruct Hr as [_ Hr].
    apply negb_true_iff in Hr. exact Hr.
  - rewrite app_nil_r. apply filter_other_source. exact E.
Qed.

(** X5.  After an [IndexDocument] that succeeds, exactly one document row
    has the source, [DocumentExists] answers true for it, and for every
    other source it answers what it answered before. *)
Theorem IndexDocument_then_DocumentExists
        (env env' : Storage.Env) (d d' : Storage.Database)
        (src sourceType ttl : gostring) (cs : list Storage.Chunk) :
  Storage.IndexDocument env d src sourceType ttl cs = (d', None) ->
  Storage.fails env' Storage.QueryRowScan = false ->
  GoInt.len (filter (fun r => gostring_eqb (Storage.source r) src)
                    (Storage.documents (Storage.tables d'))) = 1 /\
  Storage.DocumentExists env' d' src = Ok true /\
  forall other, other <> src ->
                Storage.DocumentExists env' d' other
                = Storage.DocumentExists env' d other.
Proof.
  intros Hindex Hquery.
  destruct (IndexDocument_cases env d src sourceType ttl cs)
    as [[e He] | [t' [Hst He]]]; rewrite He in Hindex; [discriminate |].
  injection Hindex as <-.
  apply indexStatements_commits in Hst. cbn zeta in Hst.
  destruct Hst as [rows [Hd _]].
  cbn [Storage.deleteBySource fst Storage.documents] in Hd.
  unfold Storage.DocumentExists. rewrite Hquery.
  cbn [Storage.tables]. rewrite Hd.
  split; [| split].
  - rewrite count_source_after_commit by reflexivity.
    replace (gostring_eqb src src) with true
      by (symmetry; apply gostring_eqb_eq; reflexivity).
    reflexivity.
  - rewrite count_source_after_commit by reflexivity.
    replace (gostring_eqb src src) with true
      by (symmetry; apply gostring_eqb_eq; reflexivity).
    reflexivity.
  - intros other Hother.
    rewrite count_source_after_commit by reflexivity.
    destruct (gostring_eqb src other) eqn:E; [| reflexivity].
    apply gostring_eqb_eq in E. congruence.
Qed.

Lemma IndexDocument_then_DocumentExists_witness :
  let d' := Examples.helloDatabase in
  GoInt.len (filter (fun r => gostring_eqb (Storage.source r) (gostr "a.txt"))
                    (Storage.documents (Storage.tables d'))) = 1 /\
  Storage.DocumentExists Examples.quietEnv d' (gostr "a.txt") = Ok true /\
  forall other, other <> gostr "a.txt" ->
                Storage.DocumentExists Examples.quietEnv d' other
                = Storage.DocumentExists Examples.quietEnv Examples.freshDatabase other.
Proof.
  apply (IndexDocument_then_DocumentExists
           Examples.quietEnv Examples.quietEnv Examples.freshDatabase
           Examples.helloDatabase (gostr "a.txt") (gostr "file") []
           [Examples.helloChunk]).
  - vm_compute. reflexivity.
  - reflexivity.
Defined.

(** X6.  After a [DeleteDocument] that succeeds, [DocumentExists] answers
    false for the source and unchanged for every other source, and deleting
    the source again reports "document not found" and changes nothing. *)
Theorem DeleteDocument_then_absent
        (env env' : Storage.Env) (d d' : Storage.Database) (src : gostring) :
  Storage.DeleteDocument env d src = (d', None) ->
  (Storage.fails env' Storage.QueryRowScan = false ->
   Storage.DocumentExists env' d' src = Ok false /\
   forall other, other <> src ->
                 Storage.DocumentExists env' d' other
                 = Storage.DocumentExists env' d other) /\
  (Storage.fails env' Storage.ExecDelete = false ->
   Storage.fails env' Storage.RowsAffected = false ->
   Storage.DeleteDocument env' d' src
   = (d', Some (Errorf "document not found: %s" [VStr src]))).
Proof.
  unfold Storage.DeleteDocument at 1.
  destruct (Storage.fails env Storage.ExecDelete); [discriminate |].
  cbn [Storage.deleteBySource].
  destruct (Storage.fails env Storage.RowsAffected); [discriminate |].
  destruct (_ =? 0); [discriminate |].
  intros H. injection H as <-.
  set (kept := filter (fun r => negb (gostring_eqb (Storage.source r) src))
                      (Storage.documents (Storage.tables d))).
  assert (Hgone : filter (fun r => gostring_eqb (Storage.source r) src) kept = []).
  { apply filter_none. intros r Hr. apply filter_In in Hr.
    destruct Hr as [_ Hr]. apply negb_true_iff in Hr. exact Hr. }
  split.
  - intros Hquery. unfold Storage.DocumentExists. rewrite Hquery.
    cbn [Storage.tables Storage.documents]. fold kept. split.
    + rewrite Hgone. reflexivity.
    + intros other Hother. do 3 f_equal.
      subst kept. apply filter_other_source.
      destruct (gostring_eqb src other) eqn:E; [| reflexivity].
      apply gostring_eqb_eq in E. congruence.
  - intros Hexec Hrows. unfold Storage.DeleteDocument. rewrite Hexec.
    cbn [Storage.deleteBySource Storage.foreign_keys Storage.tables
         Storage.documents Storage.chunks Storage.seq_documents Storage.seq_chunks].
    fold kept. rewrite Hrows, Hgone.
    replace (GoInt.len (@nil Storage.documentRow) =? 0) with true by reflexivity.
    assert (Hkeep : filter (fun r => negb (gostring_eqb (Storage.source r) src)) kept
                    = kept).
    { apply filter_all. intros r Hr. apply filter_In in Hr. tauto. }
    rewrite Hkeep. cbn [existsb negb].
    destruct (Storage.foreign_keys d); [| reflexivity].
    rewrite (filter_all (fun _ => true)) by reflexivity. reflexivity.
Qed.

Lemma DeleteDocument_then_absent_witness :
  let d' := fst (Storage.DeleteDocument Examples.quietEnv Examples.helloDatabase
                                        (gostr "a.txt")) in
  (Storage.fails Examples.quietEnv Storage.QueryRowScan = false ->
   Storage.DocumentExists Examples.quietEnv d' (gostr "a.txt") = Ok false /\
   forall other, other <> gostr "a.txt" ->
                 Storage.DocumentExists Examples.quietEnv d' other
                 = Storage.DocumentExists Examples.quietEnv Examples.helloDatabase other) /\
  (Storage.fails Examples.quietEnv Storage.ExecDelete = false ->
   Storage.fails Examples.quietEnv Storage.RowsAffected = false ->
   Storage.DeleteDocument Examples.quietEnv d' (gostr "a.txt")
   = (d', Some (Errorf "document not found: %s" [VStr (gostr "a.txt")]))).
Proof.
  intros d'.
  apply (DeleteDocument_then_absent Examples.quietEnv Examples.quietEnv
                                    Examples.helloDatabase d' (gostr "a.txt")).
  vm_compute. reflexivity.
Defined.

(** ** Listing and ranking *)

Lemma insertNewest_perm (r : Storage.documentRow) (l : list Storage.documentRow) :
  Permutation (Storage.insertNewest r l) (r :: l).
Proof.
  induction l as [|x l IH]; cbn [Storage.insertNewest]; [reflexivity |].
  destruct (Storage.indexed_at x <=? Storage.indexed_at r); [reflexivity |].
  rewrite IH. apply perm_swap.
Qed.

Lemma orderByIndexedAtDesc_perm (l : list Storage.documentRow) :
  Permutation (Storage.orderByIndexedAtDesc l) l.
Proof.
  induction l as [|x l IH]; cbn [Storage.orderByIndexedAtDesc fold_right];
    [reflexivity |].
  fold (Storage.orderByIndexedAtDesc l). rewrite insertNewest_perm, IH. reflexivity.
Qed.

Lemma insertNewest_sorted (r : Storage.documentRow) (l : list Storage.documentRow) :
  StronglySorted (fun a b => Storage.indexed_at b <= Storage.indexed_at a) l ->
  StronglySorted (fun a b => Storage.indexed_at b <= Storage.indexed_at a)
                 (Storage.insertNewest r l).
Proof.
  induction 1 as [|x l Hl IH Hx]; cbn [Storage.insertNewest].
  - constructor; constructor.
  - destruct (Z.leb_spec (Storage.indexed_at x) (Storage.indexed_at r)) as [Hle | Hgt].
    + constructor; [constructor; assumption |].
      constructor; [exact Hle |].
      eapply Forall_impl; [| exact Hx]. intros y Hy. cbn beta in *. lia.
    + constructor; [exact IH |].
      eapply Permutation_Forall; [symmetry; apply insertNewest_perm |].
      constructor; [lia | exact Hx].
Qed.

Lemma StronglySorted_map {A B : Type} (R : A -> A -> Prop) (R' : B -> B -> Prop)
      (f : A -> B) (l : list A) :
  (forall a b, R a b -> R' (f a) (f b)) ->
  StronglySorted R l -> StronglySorted R' (map f l).
Proof.
  intros Hf. induction 1 as [|x l Hl IH Hx]; cbn [map]; constructor; [exact IH |].
  rewrite Forall_map. eapply Forall_impl; [| exact Hx]. intros y. apply Hf.
Qed.

Lemma scanDocuments_maps (env : Storage.Env) (rows : list Storage.documentRow) :
  forall i acc docs,
    Storage.scanDocuments env rows i acc = Ok docs ->
    docs = acc ++ map Storage.documentOf rows.
Proof.
  induction rows as [|row rest IH]; intros i acc docs H;
    cbn [Storage.scanDocuments map] in *.
  - injection H as <-. symmetry. apply app_nil_r.
  - destruct (Storage.fails env (Storage.Scan i)); [discriminate |].
    rewrite (IH _ _ _ H), <- app_assoc. reflexivity.
Qed.

(** X7.  A [ListDocuments] that succeeds returns every document row (of
    the given source type, when the filter is not empty) exactly once,
    newest first. *)
Theorem ListDocuments_lists_newest_first
        (env : Storage.Env) (d : Storage.Database) (sourceTypeFilter : gostring)
        (docs : list Storage.Document) :
  Storage.ListDocuments env d sourceTypeFilter = Ok docs ->
  Permutation docs
              (map Storage.documentOf
                   (Storage.whereSourceType sourceTypeFilter
                                            (Storage.documents (Storage.tables d)))) /\
  StronglySorted Storage.newestFirst docs /\
  (sourceTypeFilter = [] -> length docs = length (Storage.documents (Storage.tables d))) /\
  (sourceTypeFilter <> [] ->
   Forall (fun doc => Storage.SourceType doc = sourceTypeFilter) docs).
Proof.
  unfold Storage.ListDocuments.
  destruct (Storage.fails env Storage.Query); [discriminate |].
  destruct (Storage.scanDocuments _ _ _ _) as [ds | e] eqn:Hscan; [| discriminate].
  destruct (Storage.fails env Storage.RowsErr); [discriminate |].
  intros H. injection H as <-.
  apply scanDocuments_maps in Hscan. cbn [app] in Hscan. subst ds.
  unfold Storage.listQuery.
  set (rows := Storage.whereSourceType sourceTypeFilter
                                       (Storage.documents (Storage.tables d))).
  pose proof (orderByIndexedAtDesc_perm rows) as Hperm.
  split; [apply Permutation_map; exact Hperm |].
  split; [| split].
  - assert (Hsorted : StronglySorted
                        (fun a b => Storage.indexed_at b <= Storage.indexed_at a)
                        (Storage.orderByIndexedAtDesc rows)).
    { clear Hperm. induction rows as [|x l IH];
        cbn [Storage.orderByIndexedAtDesc fold_right]; [constructor |].
      apply insertNewest_sorted. exact IH. }
    eapply StronglySorted_map; [| exact Hsorted].
    intros a b Hab. exact Hab.
  - intros ->. rewrite length_map. subst rows. cbn [Storage.whereSourceType].
    apply Permutation_length. exact Hperm.
  - intros Hfilter. rewrite Forall_map. apply Forall_forall. intros row Hrow.
    apply (Permutation_in _ Hperm) in Hrow. subst rows.
    destruct sourceTypeFilter as [|b rest]; [congruence |].
    cbn [Storage.whereSourceType] in Hrow. apply filter_In in Hrow.
    destruct Hrow as [_ Heq]. apply gostring_eqb_eq in Heq. exact Heq.
Qed.

Lemma ListDocuments_lists_newest_first_witness :
  exists docs,
    Storage.ListDocuments Examples.quietEnv Examples.listedDatabase (gostr "file")
    = Ok docs /\
    map Storage.Source docs = [gostr "b.txt"; gostr "a.txt"] /\
    Permutation docs
                (map Storage.documentOf
                     (Storage.whereSourceType
                        (gostr "file")
                        (Storage.documents (Storage.tables Examples.listedDatabase)))) /\
    StronglySorted Storage.newestFirst docs /\
    (gostr "file" = [] ->
     length docs = length (Storage.documents (Storage.tables Examples.listedDatabase))) /\
    (gostr "file" <> [] ->
     Forall (fun doc => Storage.SourceType doc = gostr "file") docs).
Proof.
  destruct (Storage.ListDocuments Examples.quietEnv Examples.listedDatabase (gostr "file"))
    as [docs | e] eqn:Hrun; [| vm_compute in Hrun; discriminate].
  exists docs. split; [reflexivity |]. split.
  - vm_compute in Hrun. assert (Hd := Hrun). injection Hd as <-. reflexivity.
  - apply (ListDocuments_lists_newest_first Examples.quietEnv Examples.listedDatabase
                                            (gostr "file") docs).
    exact Hrun.
Defined.

(** A descending list cut at a threshold is one of its prefixes. *)
Lemma filter_descending_prefix (minScore : Q) (l : list Storage.SearchResult) :
  StronglySorted Storage.descending l ->
  exists k, filter (fun r => Qle_bool minScore (Storage.Score r)) l = firstn k l.
Proof.
  induction 1 as [|x l Hl IH Hx]; [exists 0%nat; reflexivity |].
  cbn [filter]. destruct (Qle_bool minScore (Storage.Score x)) eqn:E.
  - destruct IH as [k Hk]. exists (S k). cbn [firstn]. rewrite Hk. reflexivity.
  - exists 0%nat. cbn [firstn]. apply filter_none.
    intros y Hy. rewrite Forall_forall in Hx. specialize (Hx y Hy).
    unfold Storage.descending in Hx.
    destruct (Qle_bool minScore (Storage.Score y)) eqn:Ey; [| reflexivity].
    apply Qle_bool_iff in Ey.
    assert (Hle : Qle_bool minScore (Storage.Score x) = true)
      by (apply Qle_bool_iff; eapply Qle_trans; eassumption).
    congruence.
Qed.

(** X8.  The results of a [Search] are a prefix of the ranking (the joined
    chunks of the filtered source in descending order of score): no result
    is left out in favour of a lower-ranked one, whatever [topK] and
    [minScore] are. *)
Theorem Search_returns_ranking_prefix
        (cosineScore : list Z -> list Z -> Q)
        (env : Storage.Env) (d : Storage.Database) (queryEmbedding : list float32)
        (topK : Z) (minScore : Q) (sourceFilter : gostring)
        (results : list Storage.SearchResult) :
  Storage.Search cosineScore env d queryEmbedding topK minScore sourceFilter
  = Ok results ->
  exists k,
    results
    = firstn k (Storage.orderByScoreDesc
                  (Storage.candidates cosineScore (Storage.tables d)
                                      (flat_map Storage.le32 queryEmbedding)
                                      sourceFilter)).
Proof.
  intros H. apply Search_returns in H. subst results.
  unfold Storage.searchQuery.
  fold (Storage.candidates cosineScore (Storage.tables d)
                           (flat_map Storage.le32 queryEmbedding) sourceFilter).
  set (ranked := Storage.orderByScoreDesc _).
  assert (Hsorted : StronglySorted Storage.descending ranked)
    by apply orderByScoreDesc_sorted.
  unfold Storage.limit. destruct (topK <? 0).
  - apply filter_descending_prefix. exact Hsorted.
  - destruct (filter_descending_prefix minScore (firstn (Z.to_nat topK) ranked))
      as [k Hk]; [apply firstn_sorted; exact Hsorted |].
    exists (Nat.min k (Z.to_nat topK)). rewrite Hk. apply firstn_firstn.
Qed.

Lemma Search_returns_ranking_prefix_witness :
  exists results k,
    Storage.Search Examples.byteScore Examples.quietEnv Examples.rankedDatabase
                   Examples.query 5 (3 # 10) [] = Ok results /\
    map Storage.ResultContent results = [gostr "nine"; gostr "half"] /\
    results
    = firstn k (Storage.orderByScoreDesc
                  (Storage.candidates Examples.byteScore
                                      (Storage.tables Examples.rankedDatabase)
                                      (flat_map Storage.le32 Examples.query) [])).
Proof.
  destruct (Storage.Search Examples.byteScore Examples.quietEnv
                           Examples.rankedDatabase Examples.query 5 (3 # 10) [])
    as [results | e] eqn:Hrun; [| vm_compute in Hrun; discriminate].
  destruct (Search_returns_ranking_prefix
              Examples.byteScore Examples.quietEnv Examples.rankedDatabase
              Examples.query 5 (3 # 10) [] results Hrun) as [k Hk].
  exists results, k. split; [reflexivity |]. split; [| exact Hk].
  vm_compute in Hrun. injection Hrun as <-. reflexivity.
Defined.

(** ** The embedding gateway: dimensions, requests and pauses *)

Section EmbedBudget.

Import Embeddings.

Variable p : Provider.

Lemma reassemble_dimension (n : nat) (data : list dataItem) (vs : list (list float32)) :
  reassemble n data = Returns (Ok vs) ->
  Forall (fun v => GoInt.len v = embeddingDimension) vs.
Proof.
  intros Hre. pose proof (reassemble_sound n data vs Hre) as [_ Hitems].
  unfold reassemble in Hre.
  destruct (place (repeat None n) data) as [[embs | e] | |] eqn:Hp;
    cbn [bind] in Hre; try discriminate.
  apply place_well_tagged in Hp. rewrite Forall_forall in Hp.
  apply Forall_forall. intros v Hv. apply In_nth_error in Hv.
  destruct Hv as [j Hj]. destruct (Hitems j v Hj) as [item [Hin [_ <-]]].
  apply (Hp item Hin).
Qed.

Lemma embedLoop_dimension (texts : list gostring) (fuel : nat) :
  forall i allEmbeddings st st' vs,
    embedLoop fuel p texts i allEmbeddings st = (st', Returns (Ok vs)) ->
    Forall (fun v => GoInt.len v = embeddingDimension) allEmbeddings ->
    Forall (fun v => GoInt.len v = embeddingDimension) vs.
Proof.
  induction fuel as [|fuel IH]; intros i allEmbeddings st st' vs H Hall; [discriminate |].
  cbn [embedLoop] in H.
  destruct (i <? GoInt.len texts); [| injection H as _ <-; exact Hall].
  destruct (slice texts i _) as [batch | |]; try discriminate.
  destruct (embedBatch p batch st) as [st1 [[embeddings | e] | |]] eqn:Hbatch;
    try discriminate.
  apply embedBatch_sound in Hbatch.
  destruct Hbatch as [n [resp [r [_ [_ [_ [_ Hre]]]]]]].
  apply reassemble_dimension in Hre.
  assert (Hall' : Forall (fun v => GoInt.len v = embeddingDimension)
                         (allEmbeddings ++ embeddings))
    by (apply Forall_app; split; assumption).
  destruct (_ <? GoInt.len texts) in H.
  - destruct (ctxDone p (waits st1)); [discriminate |]. eapply IH; eassumption.
  - eapply IH; eassumption.
Qed.

(** Requests and pauses of the request loop: one request more than pauses,
    unless the context is cancelled during a pause. *)
Lemma requestLoop_budget (texts : list gostring) (retriesLeft : nat) :
  forall st st' r,
    requestLoop p texts retriesLeft st = (st', r) ->
    (requests st < requests st' <= requests st + S retriesLeft)%nat /\
    (waits st <= waits st' <= waits st + retriesLeft)%nat /\
    (r <> Err (External "context canceled") ->
     requests st' - requests st = S (waits st' - waits st))%nat.
Proof.
  induction retriesLeft as [|k IH]; intros st st' r H; cbn [requestLoop] in H;
    destruct (Do p (requests st) texts) as [resp|];
    try (injection H as <- <-; cbn [sent requests waits]; repeat split; lia);
    destruct (StatusCode resp =? StatusTooManyRequests);
    try (injection H as <- <-; cbn [sent requests waits]; repeat split; lia).
  destruct (ctxDone p (waits st)).
  - injection H as <- <-. cbn [sent waited requests waits].
    repeat split; try lia. congruence.
  - apply IH in H. cbn [sent waited requests waits] in H.
    destruct H as [H1 [H2 H3]]. repeat split; try lia.
    intros Hr. specialize (H3 Hr). lia.
Qed.

Lemma embedBatch_budget (texts : list gostring) (st st' : clientState)
      (r : outcome (result (list (list float32)))) :
  embedBatch p texts st = (st', r) ->
  (requests st < requests st' <= requests st + 3)%nat /\
  (waits st <= waits st' <= waits st + 2)%nat /\
  (r <> Returns (Err (External "context canceled")) ->
   requests st' - requests st = S (waits st' - waits st))%nat.
Proof.
  unfold embedBatch.
  destruct (requestLoop p texts (Z.to_nat (maxRetries - 1)) st) as [st1 r1] eqn:Hreq.
  apply requestLoop_budget in Hreq.
  change (Z.to_nat (maxRetries - 1)) with 2%nat in Hreq.
  destruct Hreq as [H1 [H2 H3]].
  intros H.
  assert (Hst : st' = st1 /\
                (r <> Returns (Err (External "context canceled")) ->
                 r1 <> Err (External "context canceled"))).
  { destruct r1 as [[resp closed] | e].
    - split; [| discriminate].
      destruct closed; [congruence |].
      destruct (Body resp) as [| | er]; try congruence.
      destruct (Error er); [congruence |].
      destruct (negb _); congruence.
    - split; congruence. }
  destruct Hst as [-> Hr]. repeat split; try lia.
  intros Hne. specialize (H3 (Hr Hne)). lia.
Qed.

(** One iteration of the batch loop, spelled out. *)
Lemma embedLoop_unfold (texts : list gostring) (fuel k : nat)
      (allEmbeddings : list (list float32)) (st : clientState) :
  allocatable texts ->
  (100 * k < length texts)%nat ->
  embedLoop (S fuel) p texts (100 * Z.of_nat k) allEmbeddings st
  = let i := 100 * Z.of_nat k in
    let end_ := if i + 100 >? GoInt.len texts then GoInt.len texts else i + 100 in
    match embedBatch p (batchOf texts (100 * k)) st with
    | (st1, Returns (Ok embeddings)) =>
      if end_ <? GoInt.len texts then
        if ctxDone p (waits st1)
        then (waited st1, Returns (Err (External "context canceled")))
        else embedLoop fuel p texts (100 * Z.of_nat (S k))
                       (allEmbeddings ++ embeddings) (waited st1)
      else embedLoop fuel p texts (100 * Z.of_nat (S k))
                     (allEmbeddings ++ embeddings) st1
    | (st1, Returns (Err e)) =>
      (st1, Returns (Err (Errorf "failed to embed batch [%d:%d]: %w"
                                 [VInt i; VInt end_; VErr e])))
    | (st1, Panics msg) => (st1, Panics msg)
    | (st1, OutOfFuel) => (st1, OutOfFuel)
    end.
Proof.
  intros Hfits Hk. cbn [embedLoop].
  replace (100 * Z.of_nat k <? GoInt.len texts) with true
    by (symmetry; apply Z.ltb_lt; unfold GoInt.len; lia).
  unfold maxBatchSize.
  assert (Hlen : 100 * Z.of_nat k < GoInt.len texts) by (unfold GoInt.len; lia).
  rewrite add_small by int_small.
  destruct (batch_is_batchOf texts k 0 Hfits Hk ltac:(lia)) as [Hslice _].
  cbv zeta in Hslice. rewrite Hslice. rewrite Nat.add_0_r.
  replace (100 * Z.of_nat (S k)) with (100 * Z.of_nat k + 100) by lia.
  reflexivity.
Qed.

(** The batches that are left when the loop is at text [100 * k]. *)
Ltac budget_split :=
  refine (conj _ (conj _ (conj _ (conj _ _))));
  try lia; try reflexivity; try discriminate;
  try (intros ? ?; split; [lia | intros; lia]).

Lemma embedLoop_budget (texts : list gostring) (fuel : nat) :
  allocatable texts ->
  forall k allEmbeddings st st' r,
    embedLoop fuel p texts (100 * Z.of_nat k) allEmbeddings st = (st', r) ->
    let left := (Z.max 0 (GoInt.len texts - 100 * Z.of_nat k) + 99) / 100 in
    (requests st <= requests st')%nat /\
    (waits st <= waits st')%nat /\
    Z.of_nat (requests st' - requests st) <= 3 * left /\
    ((length texts <= 100 * k)%nat -> st' = st) /\
    (forall vs, r = Returns (Ok vs) ->
                left <= Z.of_nat (requests st' - requests st) /\
                ((100 * k < length texts)%nat ->
                 requests st' - requests st = S (waits st' - waits st))%nat).
Proof.
  intros Hfits.
  induction fuel as [|fuel IH]; intros k allEmbeddings st st' r H left.
  - cbn in H. injection H as <- <-.
    assert (Hleft : 0 <= left)
      by (subst left; unfold GoInt.len; Z.div_mod_to_equations; lia).
    budget_split.
  - destruct (Nat.lt_ge_cases (100 * k) (length texts)) as [Hk | Hk].
    + rewrite embedLoop_unfold in H by assumption. cbv zeta in H.
      set (left' := (Z.max 0 (GoInt.len texts - 100 * Z.of_nat (S k)) + 99) / 100).
      assert (Hleft : left = 1 + left' /\ 0 <= left')
        by (subst left left'; unfold GoInt.len; Z.div_mod_to_equations; lia).
      destruct (embedBatch p (batchOf texts (100 * k)) st) as [st1 rb] eqn:Hbatch.
      apply embedBatch_budget in Hbatch. destruct Hbatch as [B1 [B2 B3]].
      destruct rb as [[embeddings | e] | msg |];
        [| injection H as <- <-; budget_split ..].
      assert (Hnot : Returns (Ok embeddings)
                     <> Returns (Err (External "context canceled"))
                       :> outcome (result (list (list float32))))
        by discriminate.
      specialize (B3 Hnot).
      destruct ((if 100 * Z.of_nat k + 100 >? GoInt.len texts
                 then GoInt.len texts else 100 * Z.of_nat k + 100)
                <? GoInt.len texts) eqn:Hend.
      * assert (Hmore : (100 * S k < length texts)%nat).
        { apply Z.ltb_lt in Hend. unfold GoInt.len in Hend.
          destruct (100 * Z.of_nat k + 100 >? Z.of_nat (length texts)); lia. }
        destruct (ctxDone p (waits st1)).
        -- injection H as <- <-. cbn [waited requests waits].
           budget_split.
        -- apply IH in H. cbv zeta in H. cbn [waited requests waits] in H.
           fold left' in H. destruct H as [I1 [I2 [I3 [_ I5]]]].
           refine (conj _ (conj _ (conj _ (conj _ _)))); try lia.
           intros vs Hr. destruct (I5 vs Hr) as [I6 I7]. specialize (I7 Hmore).
           split; [lia | intros _; lia].
      * assert (Hlast : (length texts <= 100 * S k)%nat).
        { apply Z.ltb_ge in Hend. unfold GoInt.len in Hend.
          destruct (100 * Z.of_nat k + 100 >? Z.of_nat (length texts)) eqn:E;
            [apply Z.gtb_lt in E |]; lia. }
        apply IH in H. cbv zeta in H.
        destruct H as [_ [_ [_ [I4 _]]]]. specialize (I4 Hlast). subst st'.
        assert (Hzero : left' = 0)
          by (subst left'; unfold GoInt.len; Z.div_mod_to_equations; lia).
        budget_split.
    + cbn [embedLoop] in H.
      replace (100 * Z.of_nat k <? GoInt.len texts) with false in H
        by (symmetry; apply Z.ltb_ge; unfold GoInt.len; lia).
      injection H as <- <-.
      assert (Hzero : left = 0)
        by (subst left; unfold GoInt.len; Z.div_mod_to_equations; lia).
      budget_split.
Qed.

(** Requests and pauses alternate, so their numbers differ by one at
    most: in the request loop, ... *)
Lemma requestLoop_counts (texts : list gostring) (retriesLeft : nat) :
  forall st st' r,
    requestLoop p texts retriesLeft st = (st', r) ->
    (waits st' + requests st <= requests st' + waits st
     <= S (waits st' + requests st))%nat.
Proof.
  induction retriesLeft as [|k IH]; intros st st' r H; cbn [requestLoop] in H;
    destruct (Do p (requests st) texts) as [resp|];
    try (injection H as <- <-; cbn [sent requests waits]; lia);
    destruct (StatusCode resp =? StatusTooManyRequests);
    try (injection H as <- <-; cbn [sent requests waits]; lia).
  destruct (ctxDone p (waits st)).
  - injection H as <- <-. cbn [sent waited requests waits]. lia.
  - apply IH in H. cbn [sent waited requests waits] in H. lia.
Qed.

(** ... in a batch, ... *)
Lemma embedBatch_counts (texts : list gostring) (st st' : clientState)
      (r : outcome (result (list (list float32)))) :
  embedBatch p texts st = (st', r) ->
  (waits st' + requests st <= requests st' + waits st
   <= S (waits st' + requests st))%nat.
Proof.
  unfold embedBatch.
  destruct (requestLoop p texts (Z.to_nat (maxRetries - 1)) st) as [st1 r1] eqn:Hreq.
  apply requestLoop_counts in Hreq. intros H.
  assert (Hst : st' = st1).
  { destruct r1 as [[resp closed] | e]; [| congruence].
    destruct closed; [congruence |].
    destruct (Body resp) as [| | er]; try congruence.
    destruct (Error er); [congruence |].
    destruct (negb _); congruence. }
  subst st'. exact Hreq.
Qed.

(** ... and over the batches of [Embed], however the run ends. *)
Lemma embedLoop_counts (texts : list gostring) (fuel : nat) :
  allocatable texts ->
  forall k allEmbeddings st st' r,
    embedLoop fuel p texts (100 * Z.of_nat k) allEmbeddings st = (st', r) ->
    (waits st' + requests st <= requests st' + waits st
     <= S (waits st' + requests st))%nat.
Proof.
  intros Hfits.
  induction fuel as [|fuel IH]; intros k allEmbeddings st st' r H.
  - cbn in H. injection H as <- <-. lia.
  - destruct (Nat.lt_ge_cases (100 * k) (length texts)) as [Hk | Hk].
    + rewrite embedLoop_unfold in H by assumption. cbv zeta in H.
      destruct (embedBatch p (batchOf texts (100 * k)) st) as [st1 rb] eqn:Hbatch.
      pose proof (embedBatch_counts _ _ _ _ Hbatch) as Hcounts.
      apply embedBatch_budget in Hbatch. destruct Hbatch as [B1 [B2 B3]].
      destruct rb as [[embeddings | e] | msg |];
        [| injection H as <- <-; exact Hcounts ..].
      assert (Hnot : Returns (Ok embeddings)
                     <> Returns (Err (External "context canceled"))
                       :> outcome (result (list (list float32))))
        by discriminate.
      specialize (B3 Hnot).
      destruct ((if 100 * Z.of_nat k + 100 >? GoInt.len texts
                 then GoInt.len texts else 100 * Z.of_nat k + 100)
                <? GoInt.len texts) eqn:Hend.
      * destruct (ctxDone p (waits st1)).
        -- injection H as <- <-. cbn [waited requests waits]. lia.
        -- apply IH in H. cbn [waited requests waits] in H. lia.
      * assert (Hlast : (length texts <= 100 * S k)%nat).
        { apply Z.ltb_ge in Hend. unfold GoInt.len in Hend.
          destruct (100 * Z.of_nat k + 100 >? Z.of_nat (length texts)) eqn:E;
            [apply Z.gtb_lt in E |]; lia. }
        apply (embedLoop_budget texts fuel Hfits) in H. cbv zeta in H.
        destruct H as [_ [_ [_ [I4 _]]]]. specialize (I4 Hlast). subst st'.
        exact Hcounts.
    + cbn [embedLoop] in H.
      replace (100 * Z.of_nat k <? GoInt.len texts) with false in H
        by (symmetry; apply Z.ltb_ge; unfold GoInt.len; lia).
      injection H as <- <-. lia.
Qed.

(** A reassembly that succeeds had only well-tagged items to place. *)
Lemma reassemble_well_tagged (n : nat) (data : list dataItem)
      (vs : list (list float32)) :
  reassemble n data = Returns (Ok vs) ->
  Forall (wellTagged (Z.of_nat n)) data.
Proof.
  unfold reassemble. intros Hre.
  destruct (place (repeat None n) data) as [[embs | e] | |] eqn:Hp;
    cbn [bind] in Hre; try discriminate.
  apply place_well_tagged in Hp.
  unfold GoInt.len in Hp. rewrite repeat_length in Hp. exact Hp.
Qed.

(** A run of the batch loop that succeeds got, for the batch of every
    text still to embed, a status-200 answer with well-tagged items
    only. *)
Lemma embedLoop_answers (texts : list gostring) (fuel : nat) :
  allocatable texts ->
  forall k allEmbeddings st st' vs,
    embedLoop fuel p texts (100 * Z.of_nat k) allEmbeddings st
    = (st', Returns (Ok vs)) ->
    forall i, (100 * k <= i < length texts)%nat ->
      exists n resp r,
        Do p n (batchOf texts i) = Some resp /\
        StatusCode resp = StatusOK /\
        Body resp = Json r /\
        Forall (wellTagged (GoInt.len (batchOf texts i))) (Data r).
Proof.
  intros Hfits.
  induction fuel as [|fuel IH]; intros k allEmbeddings st st' vs H i Hi;
    [discriminate |].
  assert (Hk : (100 * k < length texts)%nat) by lia.
  rewrite embedLoop_unfold in H by assumption. cbv zeta in H.
  destruct (embedBatch p (batchOf texts (100 * k)) st)
    as [st1 [[embeddings | e] | |]] eqn:Hbatch; try discriminate.
  destruct (Nat.lt_ge_cases i (100 * S k)) as [Hthis | Hlater].
  - apply embedBatch_sound in Hbatch.
    destruct Hbatch as [n [resp [r [Hdo [Hstatus [Hbody [_ Hre]]]]]]].
    apply reassemble_well_tagged in Hre.
    assert (Hsame : batchOf texts i = batchOf texts (100 * k)).
    { destruct (batch_is_batchOf texts k (i - 100 * k) Hfits Hk ltac:(lia))
        as [Hslice _].
      destruct (batch_is_batchOf texts k 0 Hfits Hk ltac:(lia)) as [Hslice0 _].
      cbv zeta in Hslice, Hslice0.
      replace (100 * k + (i - 100 * k))%nat with i in Hslice by lia.
      replace (100 * k + 0)%nat with (100 * k)%nat in Hslice0 by lia.
      congruence. }
    exists n, resp, r. rewrite Hsame. unfold GoInt.len. auto.
  - assert (Hrec : exists st2,
               embedLoop fuel p texts (100 * Z.of_nat (S k))
                         (allEmbeddings ++ embeddings) st2
               = (st', Returns (Ok vs))).
    { destruct (_ <? GoInt.len texts) in H.
      - destruct (ctxDone p (waits st1)); [discriminate | eauto].
      - eauto. }
    destruct Hrec as [st2 Hrec].
    apply (IH _ _ _ _ _ Hrec). lia.
Qed.

End EmbedBudget.

(** X9.  Every vector that a successful [Embed] returns has dimension
    1536, and an answer with a vector of any other length fails the call:
    [Embed] succeeds only if, for the batch of every text, the provider
    gave a status-200 answer in which every item has a vector of length
    1536 (and an index inside the batch). *)
Theorem Embed_vectors_have_dimension
        (p : Embeddings.Provider) (texts : list gostring)
        (st st' : Embeddings.clientState) (vs : list (list float32)) :
  Embeddings.Embed p texts st = (st', Returns (Ok vs)) ->
  Forall (fun v => GoInt.len v = Embeddings.embeddingDimension) vs /\
  (allocatable texts ->
   forall i, (i < length texts)%nat ->
     exists n resp r,
       Embeddings.Do p n (Embeddings.batchOf texts i) = Some resp /\
       Embeddings.StatusCode resp = Embeddings.StatusOK /\
       Embeddings.Body resp = Embeddings.Json r /\
       Forall (Embeddings.wellTagged (GoInt.len (Embeddings.batchOf texts i)))
              (Embeddings.Data r)).
Proof.
  unfold Embeddings.Embed. destruct (Z.eqb_spec (GoInt.len texts) 0) as [Hzero | Hnz].
  - intros H. injection H as _ <-. split; [constructor |].
    intros _ i Hi. unfold GoInt.len in Hzero. lia.
  - intros H. split.
    + eapply embedLoop_dimension; [exact H | constructor].
    + intros Hfits i Hi.
      change 0 with (100 * Z.of_nat 0) in H at 1.
      apply (embedLoop_answers p texts _ Hfits 0%nat [] st st' vs H). lia.
Qed.

Lemma Embed_vectors_have_dimension_witness :
  let texts := [gostr "a"; gostr "bb"] in
  exists st' vs,
    Embeddings.Embed Examples.reversingProvider texts
                     (Embeddings.mkClient 0 0) = (st', Returns (Ok vs)) /\
    Forall (fun v => GoInt.len v = Embeddings.embeddingDimension) vs /\
    forall i, (i < length texts)%nat ->
      exists n resp r,
        Embeddings.Do Examples.reversingProvider n (Embeddings.batchOf texts i)
        = Some resp /\
        Embeddings.StatusCode resp = Embeddings.StatusOK /\
        Embeddings.Body resp = Embeddings.Json r /\
        Forall (Embeddings.wellTagged (GoInt.len (Embeddings.batchOf texts i)))
               (Embeddings.Data r).
Proof.
  intros texts.
  destruct (Embeddings.Embed Examples.reversingProvider texts
                             (Embeddings.mkClient 0 0)) as [st' r] eqn:Hrun.
  destruct r as [[vs | e] | |]; try (vm_compute in Hrun; discriminate).
  exists st', vs. split; [reflexivity |].
  destruct (Embed_vectors_have_dimension Examples.reversingProvider _ _ st' vs Hrun)
    as [Hdim Hanswers].
  split; [exact Hdim |]. apply Hanswers.
  unfold allocatable. vm_compute. discriminate.
Defined.

(** X10.  However a run of [Embed] ends (vectors, an error, a panic), it
    sent at most three requests per batch of 100 texts, and the number of
    requests it sent is the number of pauses it made (the backoff after a
    429 and the delay between batches) or one more.  A run that succeeds
    sent at least one request per batch, and exactly one more request than
    it paused. *)
Theorem Embed_request_budget
        (p : Embeddings.Provider) (texts : list gostring)
        (st st' : Embeddings.clientState)
        (r : outcome (result (list (list float32)))) :
  allocatable texts ->
  Embeddings.Embed p texts st = (st', r) ->
  let batches := (GoInt.len texts + 99) / 100 in
  let sent := (Embeddings.requests st' - Embeddings.requests st)%nat in
  let paused := (Embeddings.waits st' - Embeddings.waits st)%nat in
  (Embeddings.requests st <= Embeddings.requests st')%nat /\
  (Embeddings.waits st <= Embeddings.waits st')%nat /\
  Z.of_nat sent <= 3 * batches /\
  (paused <= sent <= S paused)%nat /\
  (forall vs, r = Returns (Ok vs) ->
              batches <= Z.of_nat sent /\
              (texts <> [] -> sent = S paused)).
Proof.
  intros Hfits H batches sent paused. unfold Embeddings.Embed in H.
  destruct (Z.eqb_spec (GoInt.len texts) 0) as [Hzero | Hnonzero].
  - injection H as <- <-. subst batches sent paused. rewrite Hzero.
    change ((0 + 99) / 100) with 0.
    refine (conj _ (conj _ (conj _ (conj _ _)))); try lia.
    intros vs _. split; [lia |].
    intros Hne. destruct texts; [congruence | discriminate].
  - change 0 with (100 * Z.of_nat 0) in H at 1.
    pose proof (embedLoop_counts p texts _ Hfits _ _ _ _ _ H) as Hcounts.
    apply (embedLoop_budget p texts _ Hfits) in H. cbv zeta in H.
    destruct H as [H1 [H2 [H3 [_ H5]]]].
    pose proof (len_nonneg texts) as Hnn.
    replace (Z.max 0 (GoInt.len texts - 100 * Z.of_nat 0)) with (GoInt.len texts) in *
      by lia.
    fold batches in H3, H5. subst sent paused.
    refine (conj _ (conj _ (conj _ (conj _ _)))); try lia.
    intros vs Hr. destruct (H5 vs Hr) as [H6 H7]. split; [exact H6 |].
    intros _. apply H7. unfold GoInt.len in *. lia.
Qed.

(** A provider that answers 429 to the first request and is cancelled in
    the backoff: [Embed] fails after one request and one pause. *)
Lemma Embed_request_budget_witness :
  let p := Embeddings.mkProvider
             (fun _ _ => Some (Embeddings.mkHttp 429 Embeddings.Malformed))
             (fun _ => true) in
  let texts := [gostr "a"; gostr "bb"] in
  let st := Embeddings.mkClient 0 0 in
  let st' := fst (Embeddings.Embed p texts st) in
  let r := snd (Embeddings.Embed p texts st) in
  let batches := (GoInt.len texts + 99) / 100 in
  let sent := (Embeddings.requests st' - Embeddings.requests st)%nat in
  let paused := (Embeddings.waits st' - Embeddings.waits st)%nat in
  (sent = 1 /\ paused = 1)%nat /\
  (Embeddings.requests st <= Embeddings.requests st')%nat /\
  (Embeddings.waits st <= Embeddings.waits st')%nat /\
  Z.of_nat sent <= 3 * batches /\
  (paused <= sent <= S paused)%nat /\
  (forall vs, r = Returns (Ok vs) ->
              batches <= Z.of_nat sent /\
              (texts <> [] -> sent = S paused)).
Proof.
  intros p texts st st' r.
  split; [split; reflexivity |].
  apply (Embed_request_budget p texts st st' r).
  - unfold allocatable. vm_compute. discriminate.
  - subst st' r. apply surjective_pairing.
Defined.

(** ** Reassembly: which answers are accepted *)

Lemma verify_first_missing (embs : list (option (list float32))) :
  forall i j,
    nth_error embs j = Some None ->
    (forall j', (j' < j)%nat -> exists v, nth_error embs j' = Some (Some v)) ->
    Embeddings.verify embs i
    = Err (Errorf "missing embedding for index %d" [VInt (i + Z.of_nat j)]).
Proof.
  induction embs as [|e rest IH]; intros i j Hj Hbefore.
  - destruct j; discriminate.
  - destruct j as [|j].
    + cbn [nth_error] in Hj. injection Hj as ->. cbn [Embeddings.verify].
      rewrite Z.add_0_r. reflexivity.
    + destruct (Hbefore 0%nat ltac:(lia)) as [v Hv].
      cbn [nth_error] in Hv, Hj. injection Hv as ->.
      cbn [Embeddings.verify]. rewrite (IH (i + 1) j Hj).
      * replace (i + Z.of_nat (S j)) with (i + 1 + Z.of_nat j) by lia. reflexivity.
      * intros j' Hj'. apply (Hbefore (S j')). lia.
Qed.

Lemma wellTagged_repeat (n : nat) (data : list Embeddings.dataItem) :
  Forall (Embeddings.wellTagged (Z.of_nat n)) data ->
  Forall (Embeddings.wellTagged (GoInt.len (repeat (@None (list float32)) n))) data.
Proof. unfold GoInt.len. rewrite repeat_length. auto. Qed.

(** X11.  When every item of an answer is well tagged but no item is tagged
    with position [j], and every position before [j] is tagged, the
    reassembly fails with "missing embedding for index j": it neither
    succeeds with a gap nor panics. *)
Theorem reassemble_reports_first_missing
        (n : nat) (data : list Embeddings.dataItem) (j : nat) :
  Forall (Embeddings.wellTagged (Z.of_nat n)) data ->
  (j < n)%nat ->
  (forall item, In item data -> Embeddings.Index item <> Z.of_nat j) ->
  (forall j', (j' < j)%nat ->
              exists item, In item data /\ Embeddings.Index item = Z.of_nat j') ->
  Embeddings.reassemble n data
  = Returns (Err (Errorf "missing embedding for index %d" [VInt (Z.of_nat j)])).
Proof.
  intros Hall Hj Hnone Hbefore.
  destruct (place_fills data _ (wellTagged_repeat n data Hall))
    as [embs [Hplace Hfilled]].
  pose proof (place_sound _ _ _ Hplace) as [Hlen Hfrom].
  rewrite repeat_length in Hlen.
  unfold Embeddings.reassemble. rewrite Hplace. cbn [bind].
  rewrite (verify_first_missing embs 0 j); [reflexivity | |].
  - destruct (nth_error embs j) as [[v|]|] eqn:E.
    + exfalso. destruct (Hfrom j v E) as [Hinit | [item [Hin [Htag _]]]].
      * apply nth_error_In, repeat_spec in Hinit. discriminate.
      * exact (Hnone item Hin Htag).
    + reflexivity.
    + apply nth_error_None in E. lia.
  - intros j' Hj'. apply Hfilled. left. apply Hbefore. exact Hj'.
Qed.

Lemma reassemble_reports_first_missing_witness :
  Embeddings.reassemble 2 [Embeddings.mkItem (repeat 0 1536) 1]
  = Returns (Err (Errorf "missing embedding for index %d" [VInt (Z.of_nat 0)])).
Proof.
  apply (reassemble_reports_first_missing 2 [Embeddings.mkItem (repeat 0 1536) 1] 0).
  - constructor; [| constructor]. unfold Embeddings.wellTagged.
    cbn [Embeddings.Index Embeddings.Embedding].
    split; [lia | vm_compute; reflexivity].
  - lia.
  - intros item [<- | []]. cbn [Embeddings.Index]. lia.
  - intros j' Hj'. lia.
Defined.

(** X12.  An answer is reassembled into vectors exactly when every item has
    a tag inside the batch and a vector of dimension 1536, and every
    position of the batch is the tag of some item. *)
Theorem reassemble_succeeds_iff (n : nat) (data : list Embeddings.dataItem) :
  (exists vs, Embeddings.reassemble n data = Returns (Ok vs)) <->
  Forall (Embeddings.wellTagged (Z.of_nat n)) data /\
  (forall j, (j < n)%nat ->
             exists item, In item data /\ Embeddings.Index item = Z.of_nat j).
Proof.
  split.
  - intros [vs Hre].
    pose proof (reassemble_sound n data vs Hre) as [Hlen Hitems].
    split.
    + unfold Embeddings.reassemble in Hre.
      destruct (Embeddings.place (repeat None n) data) as [[embs | e] | |] eqn:Hp;
        cbn [bind] in Hre; try discriminate.
      apply place_well_tagged in Hp.
      unfold GoInt.len in Hp. rewrite repeat_length in Hp. exact Hp.
    + intros j Hj.
      destruct (nth_error vs j) as [v|] eqn:Hv;
        [| apply nth_error_None in Hv; lia].
      destruct (Hitems j v Hv) as [item [Hin [Htag _]]]. eauto.
  - intros [Hall Htagged].
    destruct (place_fills data _ (wellTagged_repeat n data Hall))
      as [embs [Hplace Hfilled]].
    pose proof (place_sound _ _ _ Hplace) as [Hlen _].
    rewrite repeat_length in Hlen.
    destruct (verify_filled embs 0) as [vs Hvs].
    + intros j Hj. apply Hfilled. left. apply Htagged. lia.
    + exists vs. unfold Embeddings.reassemble. rewrite Hplace. cbn [bind].
      rewrite Hvs. reflexivity.
Qed.

(** ** The chunker: sizes, coverage, overlap and word boundaries *)

Section ChunkerWindows.

Import Chunker.

Variable c : Chunker.
Variable runes : list rune.

Hypothesis size_pos : 0 < chunkSize c.
Hypothesis size_lt : chunkSize c < GoInt.len runes.
Hypothesis overlap_range : 0 <= overlap c < chunkSize c.
Hypothesis fits : allocatable runes.

Lemma index_nth (i : Z) (r : rune) :
  index runes i = Returns r -> 0 <= i /\ nth_error runes (Z.to_nat i) = Some r.
Proof.
  unfold index. destruct ((0 <=? i) && (i <? GoInt.len runes)) eqn:E; [| discriminate].
  apply andb_true_iff in E. destruct E as [E _]. apply Z.leb_le in E.
  destruct (nth_error runes (Z.to_nat i)); [| discriminate].
  intros H. injection H as ->. auto.
Qed.

(** The backward scan stops at the last whitespace of the window. *)
Lemma scanBack_finds_last (n : nat) :
  forall i w,
    i < GoInt.len runes -> 0 <= i + 1 - Z.of_nat n ->
    scanBack runes i n = Returns w ->
    (w = -1 /\ noSpaceIn runes (i + 1 - Z.of_nat n) (i + 1)) \/
    (i + 1 - Z.of_nat n <= w <= i /\ spaceAt runes w /\ noSpaceIn runes (w + 1) (i + 1)).
Proof.
  induction n as [|n IH]; intros i w Hi Hn H.
  - cbn in H. injection H as <-. left. split; [reflexivity |].
    intros j r Hj. lia.
  - cbn [scanBack] in H.
    destruct (index runes i) as [a | |] eqn:Ha; cbn [bind] in H; try discriminate.
    apply index_nth in Ha. destruct Ha as [Hi0 Ha].
    destruct (Utf8.IsSpace a) eqn:Hspace.
    + injection H as <-. right. split; [lia |]. split.
      * exists a. auto.
      * intros j r Hj. lia.
    + rewrite sub_small in H by int_small.
      destruct (IH (i - 1) w) as [[-> Hno] | [Hw [Hsp Hno]]]; [lia | lia | exact H | |].
      * left. split; [reflexivity |].
        intros j r Hj Hr. destruct (Z.eq_dec j i) as [-> | Hne].
        -- congruence.
        -- apply (Hno j r); [lia | exact Hr].
      * right. split; [lia |]. split; [exact Hsp |].
        intros j r Hj Hr. destruct (Z.eq_dec j i) as [-> | Hne].
        -- congruence.
        -- apply (Hno j r); [lia | exact Hr].
Qed.

(** The forward skip passes whitespace only. *)
Lemma skipSpaces_passes_spaces (endPos : Z) (n : nat) :
  forall splitPos r,
    0 <= splitPos ->
    endPos <= GoInt.len runes ->
    skipSpaces runes splitPos endPos n = Returns r ->
    splitPos <= r /\ forall j, splitPos <= j < r -> spaceAt runes j.
Proof.
  induction n as [|n IH]; intros splitPos r Hs He H.
  - cbn in H. injection H as <-. split; [lia | intros j Hj; lia].
  - cbn [skipSpaces] in H.
    destruct (splitPos <? endPos) eqn:Hlt;
      [| injection H as <-; split; [lia | intros j Hj; lia]].
    apply Z.ltb_lt in Hlt.
    destruct (index runes splitPos) as [a | |] eqn:Ha; cbn [bind] in H; try discriminate.
    apply index_nth in Ha. destruct Ha as [_ Ha].
    destruct (Utf8.IsSpace a) eqn:Hspace;
      [| injection H as <-; split; [lia | intros j Hj; lia]].
    rewrite add_small in H by int_small.
    destruct (IH (splitPos + 1) r) as [Hr Hall]; [lia | lia | exact H |].
    split; [lia |]. intros j Hj.
    destruct (Z.eq_dec j splitPos) as [-> | Hne]; [exists a; auto | apply Hall; lia].
Qed.

(** Where [findWordBoundary] cuts: just after a whitespace, or at the end
    of a window whose scan range has none. *)
Lemma findWordBoundary_cut (startPos endPos r : Z) :
  0 <= startPos < endPos -> endPos <= GoInt.len runes ->
  findWordBoundary c runes startPos endPos = Returns r ->
  spaceAt runes (r - 1) \/
  (r = endPos /\
   noSpaceIn runes (Z.max startPos (endPos - Z.min 100 (chunkSize c))) endPos).
Proof.
  intros Hs He. unfold findWordBoundary.
  set (maxScanBack := if 100 >? chunkSize c then chunkSize c else 100).
  assert (Hm : 0 < maxScanBack <= 100 /\ maxScanBack = Z.min 100 (chunkSize c))
    by (subst maxScanBack; destruct (100 >? chunkSize c) eqn:E;
        [apply Z.gtb_lt in E | rewrite Z.gtb_ltb in E; apply Z.ltb_ge in E]; lia).
  rewrite (sub_small endPos maxScanBack) by int_small.
  set (scanStart := if endPos - maxScanBack <? startPos
                    then startPos else endPos - maxScanBack).
  assert (Hss : startPos <= scanStart < endPos /\
                scanStart = Z.max startPos (endPos - maxScanBack))
    by (subst scanStart; destruct (endPos - maxScanBack <? startPos) eqn:E;
        [apply Z.ltb_lt in E | apply Z.ltb_ge in E]; lia).
  rewrite (sub_small endPos 1) by int_small.
  destruct (scanBack runes (endPos - 1) (Z.to_nat (endPos - scanStart)))
    as [w | |] eqn:Hw; cbn [bind]; try discriminate.
  apply scanBack_finds_last in Hw; [| lia | lia].
  replace (endPos - 1 + 1 - Z.of_nat (Z.to_nat (endPos - scanStart)))
    with scanStart in Hw by lia.
  replace (endPos - 1 + 1) with endPos in Hw by lia.
  destruct Hw as [[-> Hno] | [Hwr [Hsp Hno]]].
  - cbn. intros H. injection H as <-. right. split; [reflexivity |].
    destruct Hm as [_ <-]. destruct Hss as [_ <-]. exact Hno.
  - replace (w >=? 0) with true by (symmetry; apply Z.geb_le; lia).
    rewrite add_small by int_small.
    intros H. apply skipSpaces_passes_spaces in H; [| lia | lia].
    destruct H as [Hr Hall]. left.
    destruct (Z.eq_dec r (w + 1)) as [-> | Hne].
    + replace (w + 1 - 1) with w by lia. exact Hsp.
    + apply Hall. lia.
Qed.

Lemma chunkEnd_cut (p e : Z) :
  0 <= p < GoInt.len runes ->
  chunkEnd c runes p = Returns e ->
  e <= p + chunkSize c /\
  (e < GoInt.len runes ->
   spaceAt runes (e - 1) \/
   (e = p + chunkSize c /\
    noSpaceIn runes (Z.max p (e - Z.min 100 (chunkSize c))) e)).
Proof.
  intros Hp. unfold chunkEnd.
  rewrite add_small by int_small.
  set (endPos := if p + chunkSize c >? GoInt.len runes
                 then GoInt.len runes else p + chunkSize c).
  assert (He : p < endPos <= GoInt.len runes /\ endPos <= p + chunkSize c /\
               (endPos < GoInt.len runes -> endPos = p + chunkSize c))
    by (subst endPos; destruct (p + chunkSize c >? GoInt.len runes) eqn:E;
        [apply Z.gtb_lt in E | rewrite Z.gtb_ltb in E; apply Z.ltb_ge in E]; lia).
  destruct (endPos <? GoInt.len runes) eqn:Hlt.
  - apply Z.ltb_lt in Hlt. intros H.
    destruct (findWordBoundary_range c runes size_pos overlap_range fits
                                     p endPos) as [r [Hr Hrr]]; [lia | lia |].
    rewrite H in Hr. injection Hr as <-.
    split; [lia |]. intros _.
    destruct (findWordBoundary_cut p endPos e) as [Hsp | [-> Hno]];
      [lia | lia | exact H | left; exact Hsp |].
    right. split; [lia | exact Hno].
  - apply Z.ltb_ge in Hlt. intros H. injection H as <-. split; [lia | intros; lia].
Qed.

(** Every span of the loop is at most a window long, and a span that ends
    before the text does ends after a whitespace or is a forced cut. *)
Lemma spans_cuts (p : Z) (l : list (Z * Z)) :
  spans c runes p l -> 0 <= p < GoInt.len runes ->
  Forall (fun se =>
            snd se - fst se <= chunkSize c /\
            (snd se < GoInt.len runes ->
             spaceAt runes (snd se - 1) \/
             (snd se = fst se + chunkSize c /\
              noSpaceIn runes (Z.max (fst se) (snd se - Z.min 100 (chunkSize c)))
                        (snd se)))) l.
Proof.
  induction 1 as [p e He Hge | p e l He Hlt Hrest IH]; intros Hp;
    pose proof (chunkEnd_cut p e Hp He) as [Hup Hcut].
  - constructor; [| constructor]. cbn [fst snd]. split; [lia | exact Hcut].
  - constructor.
    + cbn [fst snd]. split; [lia | exact Hcut].
    + apply IH.
      destruct (chunkEnd_range c runes size_pos size_lt overlap_range fits p Hp)
        as [e' [He' Hr]].
      rewrite He in He'. injection He' as <-.
      apply (nextPosition_range c runes size_lt overlap_range fits). lia.
Qed.

(** The spans leave no gap. *)
Lemma spans_cover (p : Z) (l : list (Z * Z)) :
  spans c runes p l -> 0 <= p < GoInt.len runes ->
  forall x, p <= x < GoInt.len runes ->
            exists se, In se l /\ fst se <= x < snd se.
Proof.
  induction 1 as [p e He Hge | p e l He Hlt Hrest IH]; intros Hp x Hx.
  - exists (p, e). split; [left; reflexivity | cbn; lia].
  - destruct (chunkEnd_range c runes size_pos size_lt overlap_range fits p Hp)
      as [e' [He' Hr]].
    rewrite He in He'. injection He' as <-.
    destruct (Z.lt_ge_cases x e) as [Hin | Hout].
    + exists (p, e). split; [left; reflexivity | cbn; lia].
    + assert (Hnext : 0 <= nextPosition c e < GoInt.len runes /\ nextPosition c e <= e).
      { pose proof (nextPosition_range c runes size_lt overlap_range fits e
                                       ltac:(lia)) as [Hn _].
        split; [exact Hn |]. unfold nextPosition.
        rewrite sub_small by int_small.
        destruct (e - overlap c <? 0); lia. }
      destruct (IH ltac:(tauto) x ltac:(lia)) as [se [Hse Hxse]].
      exists se. split; [right; exact Hse | exact Hxse].
Qed.

(** Each span starts where the one before ended, less the overlap. *)
Lemma spans_steps (p : Z) (l : list (Z * Z)) :
  spans c runes p l -> 0 <= p < GoInt.len runes ->
  forall i a b, nth_error l i = Some a -> nth_error l (S i) = Some b ->
                fst b = Z.max 0 (snd a - overlap c).
Proof.
  induction 1 as [p e He Hge | p e l He Hlt Hrest IH]; intros Hp i a b Ha Hb.
  - destruct i; cbn in Hb; [discriminate | destruct i; discriminate].
  - destruct (chunkEnd_range c runes size_pos size_lt overlap_range fits p Hp)
      as [e' [He' Hr]].
    rewrite He in He'. injection He' as <-.
    destruct i as [|i].
    + cbn in Ha. injection Ha as <-.
      destruct (spans_first c runes _ _ Hrest) as [e2 [l2 ->]].
      cbn in Hb. injection Hb as <-. cbn [fst snd].
      unfold nextPosition. rewrite sub_small by int_small.
      destruct (e - overlap c <? 0) eqn:E;
        [apply Z.ltb_lt in E | apply Z.ltb_ge in E]; lia.
    + cbn [nth_error] in Ha.
      change (nth_error ((p, e) :: l) (S (S i))) with (nth_error l (S i)) in Hb.
      eapply IH; eauto.
      apply (nextPosition_range c runes size_lt overlap_range fits). lia.
Qed.

End ChunkerWindows.

Section ChunkerAdvance.

Import Chunker.

Variable c : Chunker.
Variable runes : list rune.

Hypothesis size_pos : 0 < chunkSize c.
Hypothesis size_lt : chunkSize c < GoInt.len runes.
Hypothesis overlap_range : 0 <= overlap c < chunkSize c.
Hypothesis fits : allocatable runes.
Hypothesis windows_advance :
  overlap c + Z.min 100 (chunkSize c) <= chunkSize c.

(** When every window advances, each span starts after the one before. *)
Lemma spans_starts_increase (p : Z) (l : list (Z * Z)) :
  spans c runes p l -> 0 <= p < GoInt.len runes ->
  forall i a b, nth_error l i = Some a -> nth_error l (S i) = Some b ->
                fst a < fst b.
Proof.
  induction 1 as [p e He Hge | p e l He Hlt Hrest IH]; intros Hp i a b Ha Hb.
  - destruct i; cbn in Hb; [discriminate | destruct i; discriminate].
  - pose proof (nextPosition_advances c runes size_pos size_lt overlap_range fits
                                      windows_advance p Hp e He Hlt) as Hnext.
    destruct i as [|i].
    + cbn in Ha. injection Ha as <-.
      destruct (spans_first c runes _ _ Hrest) as [e2 [l2 ->]].
      cbn in Hb. injection Hb as <-. cbn [fst]. lia.
    + cbn [nth_error] in Ha.
      change (nth_error ((p, e) :: l) (S (S i))) with (nth_error l (S i)) in Hb.
      eapply IH; eauto. lia.
Qed.

End ChunkerAdvance.

(** What [ChunkText] returns for a non-empty text: the whole text as one
    chunk, or the chunks of the spans of the loop entered at 0. *)
Lemma ChunkText_spans (fuel : nat) (c : Chunker.Chunker) (text : gostring)
      (result : list Chunker.Chunk) :
  text <> [] ->
  allocatable text ->
  0 < Chunker.chunkSize c ->
  0 <= Chunker.overlap c < Chunker.chunkSize c ->
  Chunker.ChunkText fuel c text = Returns result ->
  0 < GoInt.len (Utf8.runes text) /\
  allocatable (Utf8.runes text) /\
  ((GoInt.len (Utf8.runes text) <= Chunker.chunkSize c /\
    result = [Chunker.mkChunk text 0 0 (GoInt.len (Utf8.runes text))]) \/
   (Chunker.chunkSize c < GoInt.len (Utf8.runes text) /\
    Chunker.spans c (Utf8.runes text) 0 (map Chunker.span result))).
Proof.
  intros Hne Hfits Hsize Hov Hrun.
  pose proof (runes_nonempty text Hne) as Hpos.
  pose proof (runes_len_le text) as Hle.
  assert (Halloc : allocatable (Utf8.runes text))
    by (unfold allocatable in *; lia).
  split; [lia |]. split; [exact Halloc |].
  unfold Chunker.ChunkText in Hrun.
  destruct text as [|b0 t]; [congruence |].
  remember (b0 :: t) as text eqn:Etext.
  destruct (GoInt.len (Utf8.runes text) <=? Chunker.chunkSize c) eqn:Hone.
  - apply Z.leb_le in Hone. left. split; [exact Hone | congruence].
  - apply Z.leb_gt in Hone. right. split; [exact Hone |].
    destruct (chunkLoop_spans c (Utf8.runes text) Hsize Hone Hov Halloc
                              fuel _ 0 result Hrun) as [l [Hl [Hspan _]]];
      [cbn; lia | reflexivity |].
    cbn [Chunker.position Chunker.chunks map app] in Hl, Hspan.
    rewrite Hspan. exact Hl.
Qed.

(** X13.  Every chunk [ChunkText] returns lies within the text and holds
    at most [chunkSize] code points, under any configuration [NewChunker]
    builds: word-boundary search only ever shortens a chunk. *)
Theorem ChunkText_chunks_fit_chunk_size
        (fuel : nat) (cs ov : Z) (text : gostring) (result : list Chunker.Chunk) :
  allocatable text ->
  Chunker.ChunkText fuel (Chunker.NewChunker cs ov) text = Returns result ->
  Forall (fun ch =>
            0 <= Chunker.StartOffset ch /\
            Chunker.EndOffset ch <= Utf8.RuneCountInString text /\
            Chunker.EndOffset ch - Chunker.StartOffset ch
            <= Chunker.chunkSize (Chunker.NewChunker cs ov)) result.
Proof.
  intros Hfits Hrun.
  destruct text as [|b0 t];
    [cbn in Hrun; injection Hrun as <-; constructor |].
  remember (b0 :: t) as text eqn:Etext.
  assert (Hne : text <> []) by (subst text; discriminate).
  destruct (NewChunker_coerces cs ov) as [Hsize Hov].
  set (c := Chunker.NewChunker cs ov) in *.
  destruct (ChunkText_spans fuel c text result Hne Hfits Hsize Hov Hrun)
    as [Hpos [Halloc [[Hone ->] | [Hone Hl]]]].
  - constructor; [| constructor].
    cbn [Chunker.StartOffset Chunker.EndOffset].
    unfold Utf8.RuneCountInString. lia.
  - assert (Hstart : 0 <= 0 < GoInt.len (Utf8.runes text)) by lia.
    pose proof (spans_bounds c _ Hsize Hone Hov Halloc 0 _ Hl Hstart) as Hb.
    pose proof (spans_cuts c _ Hsize Hone Hov Halloc 0 _ Hl Hstart) as Hc.
    rewrite Forall_map in Hb, Hc.
    pose proof (Forall_and Hb Hc) as H.
    eapply Forall_impl; [| exact H].
    intros ch [[H1 H2] [H3 _]]. cbn [Chunker.span fst snd] in *.
    unfold Utf8.RuneCountInString. lia.
Qed.

Lemma ChunkText_chunks_fit_chunk_size_witness :
  let text := gostr "0123456789 0123456789 0123456789 0123456789" in
  exists result,
    Chunker.ChunkText 10 (Chunker.NewChunker 20 5) text = Returns result /\
    length result = 4%nat /\
    Forall (fun ch =>
              0 <= Chunker.StartOffset ch /\
              Chunker.EndOffset ch <= Utf8.RuneCountInString text /\
              Chunker.EndOffset ch - Chunker.StartOffset ch
              <= Chunker.chunkSize (Chunker.NewChunker 20 5)) result.
Proof.
  intros text.
  destruct (Chunker.ChunkText 10 (Chunker.NewChunker 20 5) text)
    as [result | |] eqn:Hrun; [| vm_compute in Hrun; discriminate ..].
  exists result. split; [reflexivity |]. split.
  - vm_compute in Hrun. inversion Hrun. reflexivity.
  - apply (ChunkText_chunks_fit_chunk_size 10 20 5 text result).
    + unfold allocatable. vm_compute. discriminate.
    + exact Hrun.
Defined.

(** X14.  The chunks [ChunkText] returns leave no gap: every code point
    offset of the text lies in some chunk. *)
Theorem ChunkText_covers_every_offset
        (fuel : nat) (cs ov : Z) (text : gostring) (result : list Chunker.Chunk) :
  allocatable text ->
  Chunker.ChunkText fuel (Chunker.NewChunker cs ov) text = Returns result ->
  forall x, 0 <= x < Utf8.RuneCountInString text ->
            exists ch, In ch result /\
                       Chunker.StartOffset ch <= x < Chunker.EndOffset ch.
Proof.
  intros Hfits Hrun x Hx.
  destruct text as [|b0 t]; [cbn in Hx; lia |].
  remember (b0 :: t) as text eqn:Etext.
  assert (Hne : text <> []) by (subst text; discriminate).
  destruct (NewChunker_coerces cs ov) as [Hsize Hov].
  set (c := Chunker.NewChunker cs ov) in *.
  unfold Utf8.RuneCountInString in Hx.
  destruct (ChunkText_spans fuel c text result Hne Hfits Hsize Hov Hrun)
    as [Hpos [Halloc [[Hone ->] | [Hone Hl]]]].
  - eexists. split; [left; reflexivity |].
    cbn [Chunker.StartOffset Chunker.EndOffset]. lia.
  - assert (Hstart : 0 <= 0 < GoInt.len (Utf8.runes text)) by lia.
    destruct (spans_cover c _ Hsize Hone Hov Halloc 0 _ Hl Hstart x Hx)
      as [se [Hin Hse]].
    apply in_map_iff in Hin. destruct Hin as [ch [<- Hin]].
    exists ch. split; [exact Hin | exact Hse].
Qed.

Lemma ChunkText_covers_every_offset_witness :
  let text := gostr "0123456789 0123456789 0123456789 0123456789" in
  exists result,
    Chunker.ChunkText 10 (Chunker.NewChunker 20 5) text = Returns result /\
    forall x, 0 <= x < Utf8.RuneCountInString text ->
              exists ch, In ch result /\
                         Chunker.StartOffset ch <= x < Chunker.EndOffset ch.
Proof.
  intros text.
  destruct (Chunker.ChunkText 10 (Chunker.NewChunker 20 5) text)
    as [result | |] eqn:Hrun; [| vm_compute in Hrun; discriminate ..].
  exists result. split; [reflexivity |].
  apply (ChunkText_covers_every_offset 10 20 5 text result).
  - unfold allocatable. vm_compute. discriminate.
  - exact Hrun.
Defined.

(** X15.  Each chunk after the first starts exactly [overlap] code points
    before the end of the chunk before it, or at 0 when that would be
    negative. *)
Theorem ChunkText_next_chunk_start
        (fuel : nat) (cs ov : Z) (text : gostring) (result : list Chunker.Chunk) :
  allocatable text ->
  Chunker.ChunkText fuel (Chunker.NewChunker cs ov) text = Returns result ->
  forall i a b, nth_error result i = Some a -> nth_error result (S i) = Some b ->
                Chunker.StartOffset b
                = Z.max 0 (Chunker.EndOffset a
                           - Chunker.overlap (Chunker.NewChunker cs ov)).
Proof.
  intros Hfits Hrun i a b Ha Hb.
  destruct text as [|b0 t];
    [cbn in Hrun; injection Hrun as <-; destruct i; discriminate |].
  remember (b0 :: t) as text eqn:Etext.
  assert (Hne : text <> []) by (subst text; discriminate).
  destruct (NewChunker_coerces cs ov) as [Hsize Hov].
  set (c := Chunker.NewChunker cs ov) in *.
  destruct (ChunkText_spans fuel c text result Hne Hfits Hsize Hov Hrun)
    as [Hpos [Halloc [[Hone ->] | [Hone Hl]]]].
  - destruct i; cbn in Hb; [discriminate | destruct i; discriminate].
  - assert (Hstart : 0 <= 0 < GoInt.len (Utf8.runes text)) by lia.
    apply (map_nth_error Chunker.span) in Ha, Hb.
    exact (spans_steps c _ Hsize Hone Hov Halloc 0 _ Hl Hstart i _ _ Ha Hb).
Qed.

Lemma ChunkText_next_chunk_start_witness :
  let text := gostr "0123456789 0123456789 0123456789 0123456789" in
  exists result,
    Chunker.ChunkText 10 (Chunker.NewChunker 20 5) text = Returns result /\
    forall i a b, nth_error result i = Some a -> nth_error result (S i) = Some b ->
                  Chunker.StartOffset b
                  = Z.max 0 (Chunker.EndOffset a
                             - Chunker.overlap (Chunker.NewChunker 20 5)).
Proof.
  intros text.
  destruct (Chunker.ChunkText 10 (Chunker.NewChunker 20 5) text)
    as [result | |] eqn:Hrun; [| vm_compute in Hrun; discriminate ..].
  exists result. split; [reflexivity |].
  apply (ChunkText_next_chunk_start 10 20 5 text result).
  - unfold allocatable. vm_compute. discriminate.
  - exact Hrun.
Defined.

(** X16.  Where [ChunkText] cuts: a chunk that ends before the text does
    ends just after a whitespace code point, unless the last
    min(100, chunkSize) code points of its window hold no whitespace; then
    it is a full window of [chunkSize] code points. *)
Theorem ChunkText_cuts_after_whitespace
        (fuel : nat) (cs ov : Z) (text : gostring) (result : list Chunker.Chunk) :
  allocatable text ->
  Chunker.ChunkText fuel (Chunker.NewChunker cs ov) text = Returns result ->
  Forall (fun ch =>
            Chunker.EndOffset ch < Utf8.RuneCountInString text ->
            Chunker.spaceAt (Utf8.runes text) (Chunker.EndOffset ch - 1) \/
            (Chunker.EndOffset ch
             = Chunker.StartOffset ch + Chunker.chunkSize (Chunker.NewChunker cs ov) /\
             Chunker.noSpaceIn
               (Utf8.runes text)
               (Z.max (Chunker.StartOffset ch)
                      (Chunker.EndOffset ch
                       - Z.min 100 (Chunker.chunkSize (Chunker.NewChunker cs ov))))
               (Chunker.EndOffset ch))) result.
Proof.
  intros Hfits Hrun.
  destruct text as [|b0 t];
    [cbn in Hrun; injection Hrun as <-; constructor |].
  remember (b0 :: t) as text eqn:Etext.
  assert (Hne : text <> []) by (subst text; discriminate).
  destruct (NewChunker_coerces cs ov) as [Hsize Hov].
  set (c := Chunker.NewChunker cs ov) in *.
  destruct (ChunkText_spans fuel c text result Hne Hfits Hsize Hov Hrun)
    as [Hpos [Halloc [[Hone ->] | [Hone Hl]]]].
  - constructor; [| constructor].
    cbn [Chunker.StartOffset Chunker.EndOffset].
    unfold Utf8.RuneCountInString. lia.
  - assert (Hstart : 0 <= 0 < GoInt.len (Utf8.runes text)) by lia.
    pose proof (spans_cuts c _ Hsize Hone Hov Halloc 0 _ Hl Hstart) as Hc.
    rewrite Forall_map in Hc.
    eapply Forall_impl; [| exact Hc].
    intros ch [_ H]. exact H.
Qed.

Lemma ChunkText_cuts_after_whitespace_witness :
  let text := gostr "0123456789 0123456789 0123456789 0123456789" in
  exists result,
    Chunker.ChunkText 10 (Chunker.NewChunker 20 5) text = Returns result /\
    map Chunker.EndOffset result = [11; 22; 33; 43] /\
    Forall (fun ch =>
              Chunker.EndOffset ch < Utf8.RuneCountInString text ->
              Chunker.spaceAt (Utf8.runes text) (Chunker.EndOffset ch - 1) \/
              (Chunker.EndOffset ch
               = Chunker.StartOffset ch + Chunker.chunkSize (Chunker.NewChunker 20 5) /\
               Chunker.noSpaceIn
                 (Utf8.runes text)
                 (Z.max (Chunker.StartOffset ch)
                        (Chunker.EndOffset ch
                         - Z.min 100 (Chunker.chunkSize (Chunker.NewChunker 20 5))))
                 (Chunker.EndOffset ch))) result.
Proof.
  intros text.
  destruct (Chunker.ChunkText 10 (Chunker.NewChunker 20 5) text)
    as [result | |] eqn:Hrun; [| vm_compute in Hrun; discriminate ..].
  exists result. split; [reflexivity |]. split.
  - vm_compute in Hrun. inversion Hrun. reflexivity.
  - apply (ChunkText_cuts_after_whitespace 10 20 5 text result).
    + unfold allocatable. vm_compute. discriminate.
    + exact Hrun.
Defined.

(** X17.  Whenever [ChunkText] returns, no two of its chunks start at
    the same offset, and there are at most as many chunks as the text has
    code points. *)
Theorem ChunkText_chunks_start_apart
        (fuel : nat) (cs ov : Z) (text : gostring) (result : list Chunker.Chunk) :
  allocatable text ->
  Chunker.ChunkText fuel (Chunker.NewChunker cs ov) text = Returns result ->
  NoDup (map Chunker.StartOffset result) /\
  GoInt.len result <= Utf8.RuneCountInString text.
Proof.
  intros Hfits Hrun.
  destruct text as [|b0 t];
    [cbn in Hrun; injection Hrun as <-; split; [constructor | cbn; lia] |].
  remember (b0 :: t) as text eqn:Etext.
  assert (Hne : text <> []) by (subst text; discriminate).
  destruct (NewChunker_coerces cs ov) as [Hsize Hov].
  set (c := Chunker.NewChunker cs ov) in *.
  destruct (ChunkText_spans fuel c text result Hne Hfits Hsize Hov Hrun)
    as [Hpos [Halloc [[Hone ->] | [Hone Hl]]]].
  - split.
    + cbn. constructor; [intros [] | constructor].
    + unfold Utf8.RuneCountInString, GoInt.len in *. cbn [length]. lia.
  - assert (Hstart : 0 <= 0 < GoInt.len (Utf8.runes text)) by lia.
    pose proof (spans_NoDup c _ 0 _ Hl) as Hnd.
    pose proof (spans_length c _ Hsize Hone Hov Halloc 0 _ Hl Hstart) as Hlen.
    rewrite map_map in Hnd. rewrite length_map in Hlen.
    split; [exact Hnd | exact Hlen].
Qed.

Lemma ChunkText_chunks_start_apart_witness :
  let text := gostr "0123456789 0123456789 0123456789 0123456789" in
  exists result,
    Chunker.ChunkText 10 (Chunker.NewChunker 20 5) text = Returns result /\
    NoDup (map Chunker.StartOffset result) /\
    GoInt.len result <= Utf8.RuneCountInString text.
Proof.
  intros text.
  destruct (Chunker.ChunkText 10 (Chunker.NewChunker 20 5) text)
    as [result | |] eqn:Hrun; [| vm_compute in Hrun; discriminate ..].
  exists result. split; [reflexivity |].
  apply (ChunkText_chunks_start_apart 10 20 5 text result).
  - unfold allocatable. vm_compute. discriminate.
  - exact Hrun.
Defined.

(** X18.  When the overlap and the scan-back window together fit in a
    chunk (overlap + min(100, chunkSize) <= chunkSize, as with the defaults
    1000 and 100), [ChunkText] returns within as many iterations as the
    text has bytes, and each chunk starts after the one before it. *)
Theorem ChunkText_returns_advancing_chunks (cs ov : Z) (text : gostring) :
  allocatable text ->
  Chunker.overlap (Chunker.NewChunker cs ov)
  + Z.min 100 (Chunker.chunkSize (Chunker.NewChunker cs ov))
  <= Chunker.chunkSize (Chunker.NewChunker cs ov) ->
  exists result,
    Chunker.ChunkText (length text) (Chunker.NewChunker cs ov) text
    = Returns result /\
    forall i a b, nth_error result i = Some a -> nth_error result (S i) = Some b ->
                  Chunker.StartOffset a < Chunker.StartOffset b.
Proof.
  intros Hfits Hadvance.
  destruct (NewChunker_coerces cs ov) as [Hsize Hov].
  set (c := Chunker.NewChunker cs ov) in *.
  destruct text as [|b0 t].
  - exists []. split; [reflexivity |]. intros i a b Ha. destruct i; discriminate.
  - remember (b0 :: t) as text eqn:Etext.
    assert (Hne : text <> []) by (subst text; discriminate).
    pose proof (runes_nonempty text Hne) as Hpos.
    pose proof (runes_len_le text) as Hle.
    assert (Halloc : allocatable (Utf8.runes text))
      by (unfold allocatable in *; lia).
    assert (Hrun : exists result,
               Chunker.ChunkText (length text) c text = Returns result).
    { unfold Chunker.ChunkText. rewrite Etext. rewrite <- Etext.
      destruct (GoInt.len (Utf8.runes text) <=? Chunker.chunkSize c) eqn:Hone;
        [eauto |].
      apply Z.leb_gt in Hone.
      apply (chunkLoop_terminates c (Utf8.runes text) Hsize Hone Hov Halloc
                                  Hadvance).
      - cbn [Chunker.position]. lia.
      - cbn [Chunker.position]. unfold GoInt.len in *. lia. }
    destruct Hrun as [result Hrun]. exists result. split; [exact Hrun |].
    intros i a b Ha Hb.
    destruct (ChunkText_spans _ c text result Hne Hfits Hsize Hov Hrun)
      as [_ [_ [[Hone ->] | [Hone Hl]]]].
    + destruct i; cbn in Hb; [discriminate | destruct i; discriminate].
    + assert (Hstart : 0 <= 0 < GoInt.len (Utf8.runes text)) by lia.
      apply (map_nth_error Chunker.span) in Ha, Hb.
      exact (spans_starts_increase c _ Hsize Hone Hov Halloc Hadvance 0 _ Hl Hstart
                                   i _ _ Ha Hb).
Qed.

Lemma ChunkText_returns_advancing_chunks_witness :
  let text := gostr "0123456789 0123456789 0123456789 0123456789" in
  exists result,
    Chunker.ChunkText (length text) (Chunker.NewChunker 20 0) text
    = Returns result /\
    forall i a b, nth_error result i = Some a -> nth_error result (S i) = Some b ->
                  Chunker.StartOffset a < Chunker.StartOffset b.
Proof.
  intros text.
  apply (ChunkText_returns_advancing_chunks 20 0 text).
  - unfold allocatable. vm_compute. discriminate.
  - vm_compute. discriminate.
Defined.

(** ** The orchestrator's [Index] *)

(** Which source a request names, when it names exactly one. *)
Lemma fetchContent_source (w : Service.World) (req : Service.IndexRequest)
      (f : Service.fetched) :
  Service.fetchContent w req = Ok f ->
  Service.source f
  = (if Service.hasFilePath req then Service.FilePath req
     else if Service.hasURL req then Service.URL req
          else Service.IndexSource req) /\
  Service.sourceType f
  = (if Service.hasFilePath req then gostr "file"
     else if Service.hasURL req then gostr "url"
          else gostr "content").
Proof.
  unfold Service.fetchContent.
  destruct (Service.hasFilePath req).
  - destruct (Service.ReadFile w _); [| discriminate].
    intros H. injection H as <-. split; reflexivity.
  - destruct (Service.hasURL req).
    + destruct (Service.FetchURL w _); [| discriminate].
      intros H. injection H as <-. split; reflexivity.
    + intros H. injection H as <-. split; reflexivity.
Qed.

Lemma storageChunks_length (chunks : list Chunker.Chunk)
      (chunkEmbeddings : list (list float32)) :
  GoInt.len chunkEmbeddings = GoInt.len chunks ->
  GoInt.len (Service.storageChunks chunks chunkEmbeddings) = GoInt.len chunks.
Proof.
  unfold Service.storageChunks, GoInt.len. intros H.
  rewrite length_map, length_combine. lia.
Qed.

(** The steps behind a successful [Index]. *)
Lemma Index_success_steps
      (w : Service.World) (p : Embeddings.Provider) (env : Storage.Env)
      (c : Chunker.Chunker) (fuel : nat) (db db' : Storage.Database)
      (req : Service.IndexRequest) (st st' : Embeddings.clientState)
      (resp : Service.IndexResponse) :
  Service.Index w p env c fuel db req st = (st', db', Returns (Ok resp)) ->
  exists f chunks chunkEmbeddings,
    Service.sourceCount req = 1 /\
    Service.fetchContent w req = Ok f /\
    Service.checkIndexed env db req (Service.source f) = None /\
    Chunker.ChunkText fuel c (Service.content f) = Returns chunks /\
    chunks <> [] /\
    Embeddings.Embed p (map Chunker.Content chunks) st
    = (st', Returns (Ok chunkEmbeddings)) /\
    GoInt.len chunkEmbeddings = GoInt.len chunks /\
    Storage.IndexDocument env db (Service.source f) (Service.sourceType f)
                          (Service.title f)
                          (Service.storageChunks chunks chunkEmbeddings)
    = (db', None) /\
    Service.IndexedSource resp = Service.source f /\
    Service.IndexedSourceType resp = Service.sourceType f /\
    Service.ChunkCount resp = GoInt.len chunks.
Proof.
  unfold Service.Index.
  destruct (Service.sourceCount req =? 0) eqn:Hzero; [discriminate |].
  destruct (Service.sourceCount req >? 1) eqn:Hmany; [discriminate |].
  apply Z.eqb_neq in Hzero.
  rewrite Z.gtb_ltb in Hmany. apply Z.ltb_ge in Hmany.
  assert (Hcount : 0 <= Service.sourceCount req)
    by (unfold Service.sourceCount;
        destruct (Service.hasFilePath req), (Service.hasURL req),
                 (Service.hasContent req); lia).
  destruct (Service.fetchContent w req) as [f | e]; [| discriminate].
  destruct (Service.checkIndexed env db req (Service.source f)) eqn:Hcheck;
    [discriminate |].
  destruct (Chunker.ChunkText fuel c (Service.content f))
    as [chunks | |] eqn:Hchunks; try discriminate.
  destruct chunks as [|chunk chunks]; [discriminate |].
  remember (chunk :: chunks) as all eqn:Eall.
  destruct (Embeddings.Embed p (map Chunker.Content all) st)
    as [st1 [[chunkEmbeddings | e] | |]] eqn:Hembed; try discriminate.
  destruct (GoInt.len chunkEmbeddings =? GoInt.len all) eqn:Hlen;
    [| discriminate].
  apply Z.eqb_eq in Hlen. cbn [negb].
  destruct (Storage.IndexDocument _ _ _ _ _ _) as [db1 [err |]] eqn:Hstore;
    [discriminate |].
  intros H. injection H as <- <- <-.
  exists f, all, chunkEmbeddings.
  split; [lia |]. split; [reflexivity |]. split; [exact Hcheck |].
  split; [exact Hchunks |]. split; [subst all; discriminate |].
  split; [exact Hembed |]. split; [exact Hlen |]. split; [exact Hstore |].
  cbn. auto.
Qed.

(** X19.  An [Index] that does not succeed (it returns an error, panics
    or never returns) leaves the database as it was: nothing of a document
    is stored unless all of it is. *)
Theorem Index_failure_leaves_database_unchanged
        (w : Service.World) (p : Embeddings.Provider) (env : Storage.Env)
        (c : Chunker.Chunker) (fuel : nat) (db db' : Storage.Database)
        (req : Service.IndexRequest) (st st' : Embeddings.clientState)
        (r : outcome (result Service.IndexResponse)) :
  Service.Index w p env c fuel db req st = (st', db', r) ->
  (forall resp, r <> Returns (Ok resp)) ->
  db' = db.
Proof.
  unfold Service.Index. intros H Hfail.
  destruct (Service.sourceCount req =? 0); [congruence |].
  destruct (Service.sourceCount req >? 1); [congruence |].
  destruct (Service.fetchContent w req) as [f | e]; [| congruence].
  destruct (Service.checkIndexed env db req (Service.source f)); [congruence |].
  destruct (Chunker.ChunkText fuel c (Service.content f))
    as [chunks | |]; try congruence.
  destruct chunks as [|chunk chunks]; [congruence |].
  destruct (Embeddings.Embed p _ st)
    as [st1 [[chunkEmbeddings | e] | |]]; try congruence.
  destruct (negb _); [congruence |].
  destruct (IndexDocument_cases env db (Service.source f) (Service.sourceType f)
                                (Service.title f)
                                (Service.storageChunks (chunk :: chunks)
                                                       chunkEmbeddings))
    as [[e He] | [t' [_ He]]]; rewrite He in H.
  - congruence.
  - injection H as _ _ <-. exfalso. eapply Hfail. reflexivity.
Qed.

Lemma Index_failure_leaves_database_unchanged_witness :
  exists st' e,
    Service.Index Examples.offlineWorld Examples.reversingProvider
                  Examples.quietEnv (Chunker.NewChunker 1000 100) 1
                  Examples.helloDatabase
                  (Service.mkIndexRequest (gostr "a.txt") [] [] [] true)
                  (Embeddings.mkClient 0 0)
    = (st', Examples.helloDatabase, Returns (Err e)).
Proof.
  destruct (Service.Index Examples.offlineWorld Examples.reversingProvider
                          Examples.quietEnv (Chunker.NewChunker 1000 100) 1
                          Examples.helloDatabase
                          (Service.mkIndexRequest (gostr "a.txt") [] [] [] true)
                          (Embeddings.mkClient 0 0))
    as [[st' db'] r] eqn:Hrun.
  assert (Hr : exists e, r = Returns (Err e))
    by (vm_compute in Hrun; injection Hrun as _ _ <-; eauto).
  destruct Hr as [e ->]. exists st', e. f_equal. f_equal.
  apply (Index_failure_leaves_database_unchanged _ _ _ _ _ _ _ _ _ _ _ Hrun).
  intros resp. discriminate.
Defined.

(** X20.  What a successful [Index] leaves in a consistent store: one
    document row for the source (the file path, the URL or the given source
    name, typed "file", "url" or "content"), whose [chunk_count] is the
    [ChunkCount] of the response, is positive, and is the number of chunk
    rows that refer to the row. *)
Theorem Index_success_stores_document
        (w : Service.World) (p : Embeddings.Provider) (env : Storage.Env)
        (c : Chunker.Chunker) (fuel : nat) (db db' : Storage.Database)
        (req : Service.IndexRequest) (st st' : Embeddings.clientState)
        (resp : Service.IndexResponse) :
  Storage.foreign_keys db = false ->
  Storage.consistent (Storage.tables db) ->
  Service.Index w p env c fuel db req st = (st', db', Returns (Ok resp)) ->
  Service.IndexedSource resp
  = (if Service.hasFilePath req then Service.FilePath req
     else if Service.hasURL req then Service.URL req
          else Service.IndexSource req) /\
  Service.IndexedSourceType resp
  = (if Service.hasFilePath req then gostr "file"
     else if Service.hasURL req then gostr "url"
          else gostr "content") /\
  0 < Service.ChunkCount resp /\
  exists row,
    filter (fun r => gostring_eqb (Storage.source r) (Service.IndexedSource resp))
           (Storage.documents (Storage.tables db')) = [row] /\
    Storage.source_type row = Service.IndexedSourceType resp /\
    Storage.chunk_count row = Service.ChunkCount resp /\
    GoInt.len (Storage.chunksOf (Storage.tables db') (Storage.id row))
    = Service.ChunkCount resp.
Proof.
  intros Hfk Hcons Hrun.
  apply Index_success_steps in Hrun.
  destruct Hrun as [f [chunks [embs [_ [Hfetch [_ [_ [Hne [_ [Hlen [Hstore
                    [Hsrc [Htype Hcount]]]]]]]]]]]]].
  destruct (fetchContent_source w req f Hfetch) as [Hs Ht].
  rewrite Hsrc, Htype, Hcount.
  split; [exact Hs |]. split; [exact Ht |]. split.
  - destruct chunks; [congruence |]. unfold GoInt.len. cbn [length]. lia.
  - destruct (IndexDocument_cases env db (Service.source f) (Service.sourceType f)
                                  (Service.title f)
                                  (Service.storageChunks chunks embs))
      as [[e He] | [t' [Hst He]]]; rewrite He in Hstore; [discriminate |].
    injection Hstore as <-. cbn [Storage.tables].
    rewrite Hfk in Hst.
    pose proof (commit_consistent env _ _ _ _ _ _ _ Hcons Hst) as Hcons'.
    apply indexStatements_commits in Hst. cbn zeta in Hst.
    destruct Hst as [rows [Hd _]].
    cbn [Storage.deleteBySource fst Storage.documents] in Hd.
    eexists. rewrite Hd. split; [| split; [| split]].
    + rewrite count_source_after_commit by reflexivity.
      replace (gostring_eqb (Service.source f) (Service.source f)) with true
        by (symmetry; apply gostring_eqb_eq; reflexivity).
      reflexivity.
    + reflexivity.
    + cbn [Storage.chunk_count]. apply storageChunks_length. exact Hlen.
    + destruct Hcons' as [_ [_ [_ Hcounts]]].
      rewrite Hd in Hcounts. apply Forall_app in Hcounts.
      destruct Hcounts as [_ Hrow]. inversion Hrow as [|? ? Hthis _]; subst.
      rewrite <- Hthis. cbn [Storage.chunk_count].
      apply storageChunks_length. exact Hlen.
Qed.

Lemma Index_success_stores_document_witness :
  exists st' db' resp,
    Service.Index Examples.offlineWorld Examples.reversingProvider
                  Examples.quietEnv (Chunker.NewChunker 1000 100) 1
                  Examples.helloDatabase Examples.noteRequest
                  (Embeddings.mkClient 0 0)
    = (st', db', Returns (Ok resp)) /\
    Service.IndexedSource resp = gostr "note" /\
    Service.IndexedSourceType resp = gostr "content" /\
    0 < Service.ChunkCount resp /\
    exists row,
      filter (fun r => gostring_eqb (Storage.source r) (Service.IndexedSource resp))
             (Storage.documents (Storage.tables db')) = [row] /\
      Storage.source_type row = Service.IndexedSourceType resp /\
      Storage.chunk_count row = Service.ChunkCount resp /\
      GoInt.len (Storage.chunksOf (Storage.tables db') (Storage.id row))
      = Service.ChunkCount resp.
Proof.
  destruct (Service.Index Examples.offlineWorld Examples.reversingProvider
                          Examples.quietEnv (Chunker.NewChunker 1000 100) 1
                          Examples.helloDatabase Examples.noteRequest
                          (Embeddings.mkClient 0 0))
    as [[st' db'] r] eqn:Hrun.
  assert (Hr : exists resp, r = Returns (Ok resp))
    by (vm_compute in Hrun; injection Hrun as _ _ <-; eauto).
  destruct Hr as [resp ->]. exists st', db', resp. split; [reflexivity |].
  apply (Index_success_stores_document
           Examples.offlineWorld Examples.reversingProvider Examples.quietEnv
           (Chunker.NewChunker 1000 100) 1 Examples.helloDatabase db'
           Examples.noteRequest (Embeddings.mkClient 0 0) st' resp eq_refl);
    [| exact Hrun].
  unfold Storage.consistent, Storage.sequenced. vm_compute.
  split; [constructor; [intros [] | constructor] |].
  split; [constructor; [intros [] | constructor] |].
  split; [split; constructor; try constructor; discriminate |].
  constructor; [reflexivity | constructor].
Defined.

(** X21.  Indexing is not repeated by accident: after an [Index] that
    succeeded, the same request without [reindex] fails, whatever the
    files, the network, the provider and the driver do, and changes
    neither the database nor the state of the embeddings client. *)
Theorem Index_again_without_reindex_fails
        (w w' : Service.World) (p p' : Embeddings.Provider)
        (env env' : Storage.Env) (c c' : Chunker.Chunker) (fuel fuel' : nat)
        (db db' : Storage.Database) (req : Service.IndexRequest)
        (st st' : Embeddings.clientState) (resp : Service.IndexResponse) :
  Service.Index w p env c fuel db req st = (st', db', Returns (Ok resp)) ->
  Service.Reindex req = false ->
  exists e,
    Service.Index w' p' env' c' fuel' db' req st' = (st', db', Returns (Err e)).
Proof.
  intros Hrun Hre.
  apply Index_success_steps in Hrun.
  destruct Hrun as [f [chunks [embs [Hone [Hfetch [_ [_ [_ [_ [_ [Hstore _]]]]]]]]]]].
  destruct (fetchContent_source w req f Hfetch) as [Hs _].
  assert (Hcheck : exists e,
             Service.checkIndexed env' db' req (Service.source f) = Some e).
  { unfold Service.checkIndexed, Storage.DocumentExists. rewrite Hre.
    destruct (Storage.fails env' Storage.QueryRowScan); [eauto |].
    destruct (IndexDocument_cases env db (Service.source f) (Service.sourceType f)
                                  (Service.title f)
                                  (Service.storageChunks chunks embs))
      as [[e He] | [t' [Hst He]]]; rewrite He in Hstore; [discriminate |].
    assert (Hdb : db' = Storage.mkDatabase (Storage.foreign_keys db) t')
      by congruence.
    rewrite Hdb. cbn [Storage.tables].
    apply indexStatements_commits in Hst. cbn zeta in Hst.
    destruct Hst as [rows [Hd _]].
    cbn [Storage.deleteBySource fst Storage.documents] in Hd. rewrite Hd.
    rewrite count_source_after_commit by reflexivity.
    replace (gostring_eqb (Service.source f) (Service.source f)) with true
      by (symmetry; apply gostring_eqb_eq; reflexivity).
    cbn. eauto. }
  unfold Service.Index. rewrite Hone.
  change (1 =? 0) with false. change (1 >? 1) with false. cbn iota.
  destruct (Service.fetchContent w' req) as [f' | e] eqn:Hfetch'; [| eauto].
  destruct (fetchContent_source w' req f' Hfetch') as [Hs' _].
  assert (Hsame : Service.source f' = Service.source f) by congruence.
  rewrite Hsame. destruct Hcheck as [e ->]. eauto.
Qed.

Lemma Index_again_without_reindex_fails_witness :
  exists st' db' e,
    fst (Service.Index Examples.offlineWorld Examples.reversingProvider
                       Examples.quietEnv (Chunker.NewChunker 1000 100) 1
                       Examples.helloDatabase Examples.noteRequest
                       (Embeddings.mkClient 0 0)) = (st', db') /\
    Service.Index Examples.offlineWorld Examples.reversingProvider
                  Examples.quietEnv (Chunker.NewChunker 1000 100) 1
                  db' Examples.noteRequest st'
    = (st', db', Returns (Err e)).
Proof.
  destruct (Service.Index Examples.offlineWorld Examples.reversingProvider
                          Examples.quietEnv (Chunker.NewChunker 1000 100) 1
                          Examples.helloDatabase Examples.noteRequest
                          (Embeddings.mkClient 0 0))
    as [[st' db'] r] eqn:Hrun.
  assert (Hr : exists resp, r = Returns (Ok resp))
    by (vm_compute in Hrun; injection Hrun as _ _ <-; eauto).
  destruct Hr as [resp ->].
  destruct (Index_again_without_reindex_fails
              Examples.offlineWorld Examples.offlineWorld
              Examples.reversingProvider Examples.reversingProvider
              Examples.quietEnv Examples.quietEnv
              (Chunker.NewChunker 1000 100) (Chunker.NewChunker 1000 100) 1%nat 1%nat
              _ _ _ _ _ _ Hrun eq_refl) as [e He].
  exists st', db', e. split; [reflexivity | exact He].
Defined.

(** ** Configuration *)

(** X22.  A configuration that [LoadConfig] accepts has an API key and a
    database path, and sizes with 0 <= overlap < chunk size: the chunker
    that [main] builds from it takes them as they are, without the
    replacements [NewChunker] makes for sizes out of range. *)
Theorem LoadConfig_sizes_reach_the_chunker
        (Getenv : gostring -> gostring) (cfg : Config.Config) :
  Config.LoadConfig Getenv = Ok cfg ->
  Config.OpenAIAPIKey cfg <> [] /\
  Config.DBPath cfg <> [] /\
  0 <= Config.Overlap cfg < Config.ChunkSize cfg /\
  Chunker.NewChunker (Config.ChunkSize cfg) (Config.Overlap cfg)
  = Chunker.mkChunker (Config.ChunkSize cfg) (Config.Overlap cfg).
Proof.
  unfold Config.LoadConfig.
  set (key := Getenv (gostr "OPENAI_API_KEY")).
  set (path := Config.getEnvOrDefault Getenv _ _).
  set (size := Config.getEnvAsIntOrDefault Getenv (gostr "CHUNK_SIZE") 1000).
  set (ov := Config.getEnvAsIntOrDefault Getenv (gostr "OVERLAP") 100).
  cbn [Config.OpenAIAPIKey Config.ChunkSize Config.Overlap].
  destruct key as [|k0 rest] eqn:Hkey; [discriminate |].
  destruct (size <=? 0) eqn:Hsize; [discriminate |].
  destruct (ov <? 0) eqn:Hneg; [discriminate |].
  destruct (ov >=? size) eqn:Hge; [discriminate |].
  intros H. injection H as <-.
  cbn [Config.OpenAIAPIKey Config.DBPath Config.ChunkSize Config.Overlap].
  apply Z.leb_gt in Hsize. apply Z.ltb_ge in Hneg.
  rewrite Z.geb_leb in Hge. apply Z.leb_gt in Hge.
  split; [discriminate |]. split; [| split; [lia |]].
  - subst path. unfold Config.getEnvOrDefault.
    destruct (Getenv (gostr "DB_PATH")); [vm_compute |]; discriminate.
  - unfold Chunker.NewChunker.
    replace (size <=? 0) with false by (symmetry; apply Z.leb_gt; lia).
    replace (ov <? 0) with false by (symmetry; apply Z.ltb_ge; lia).
    replace (ov >=? size) with false
      by (symmetry; rewrite Z.geb_leb; apply Z.leb_gt; lia).
    reflexivity.
Qed.

Lemma LoadConfig_sizes_reach_the_chunker_witness :
  exists cfg,
    Config.LoadConfig Examples.testEnvironment = Ok cfg /\
    Config.ChunkSize cfg = 20 /\ Config.Overlap cfg = 5 /\
    Config.OpenAIAPIKey cfg <> [] /\
    Config.DBPath cfg <> [] /\
    0 <= Config.Overlap cfg < Config.ChunkSize cfg /\
    Chunker.NewChunker (Config.ChunkSize cfg) (Config.Overlap cfg)
    = Chunker.mkChunker (Config.ChunkSize cfg) (Config.Overlap cfg).
Proof.
  destruct (Config.LoadConfig Examples.testEnvironment) as [cfg | e] eqn:Hload;
    [| vm_compute in Hload; discriminate].
  exists cfg. split; [reflexivity |].
  split; [vm_compute in Hload; injection Hload as <-; reflexivity |].
  split; [vm_compute in Hload; injection Hload as <-; reflexivity |].
  apply (LoadConfig_sizes_reach_the_chunker Examples.testEnvironment cfg Hload).
Defined.

(** X23.  The default overlap is not adapted to the chunk size: with an
    API key, a [CHUNK_SIZE] that reads as a number from 1 to 100 and an
    [OVERLAP] that is not set (or does not read as a number), [LoadConfig]
    fails with "OVERLAP must be less than CHUNK_SIZE". *)
Theorem LoadConfig_small_chunk_size_needs_overlap
        (Getenv : gostring -> gostring) (n : Z) :
  Getenv (gostr "OPENAI_API_KEY") <> [] ->
  Config.Atoi (Getenv (gostr "CHUNK_SIZE")) = Some n ->
  0 < n <= 100 ->
  Config.Atoi (Getenv (gostr "OVERLAP")) = None ->
  Config.LoadConfig Getenv
  = Err (Errorf "OVERLAP must be less than CHUNK_SIZE (overlap: %d, chunk_size: %d)"
                [VInt 100; VInt n]).
Proof.
  intros Hkey Hsize Hn Hov.
  assert (Hs : Config.getEnvAsIntOrDefault Getenv (gostr "CHUNK_SIZE") 1000 = n).
  { unfold Config.getEnvAsIntOrDefault.
    destruct (Getenv (gostr "CHUNK_SIZE")) as [|b s] eqn:E; [discriminate |].
    rewrite Hsize. reflexivity. }
  assert (Ho : Config.getEnvAsIntOrDefault Getenv (gostr "OVERLAP") 100 = 100).
  { unfold Config.getEnvAsIntOrDefault.
    destruct (Getenv (gostr "OVERLAP")) as [|b s] eqn:E; [reflexivity |].
    rewrite Hov. reflexivity. }
  unfold Config.LoadConfig.
  cbn [Config.OpenAIAPIKey Config.ChunkSize Config.Overlap].
  rewrite Hs, Ho.
  destruct (Getenv (gostr "OPENAI_API_KEY")) as [|k0 key]; [congruence |].
  replace (n <=? 0) with false by (symmetry; apply Z.leb_gt; lia).
  change (100 <? 0) with false.
  replace (100 >=? n) with true by (symmetry; apply Z.geb_le; lia).
  reflexivity.
Qed.

Lemma LoadConfig_small_chunk_size_needs_overlap_witness :
  Config.LoadConfig Examples.smallChunkEnvironment
  = Err (Errorf "OVERLAP must be less than CHUNK_SIZE (overlap: %d, chunk_size: %d)"
                [VInt 100; VInt 50]).
Proof.
  apply (LoadConfig_small_chunk_size_needs_overlap Examples.smallChunkEnvironment 50).
  - vm_compute. discriminate.
  - vm_compute. reflexivity.
  - lia.
  - vm_compute. reflexivity.
Defined.

(** ** Instances of the properties above *)

Lemma reassemble_any_order_witness :
  Embeddings.reassemble 2 [Embeddings.mkItem (repeat 7 1536) 1;
                           Embeddings.mkItem (repeat 3 1536) 0]
  = Returns (Ok [repeat 3 1536; repeat 7 1536]).
Proof.
  apply (reassemble_any_order 2 [Embeddings.mkItem (repeat 3 1536) 0;
                                 Embeddings.mkItem (repeat 7 1536) 1]).
  - apply perm_swap.
  - cbn [map Embeddings.Index].
    constructor; [intros [H | []]; discriminate |].
    constructor; [intros [] | constructor].
  - vm_compute. reflexivity.
Defined.

Lemma reassemble_nonnegative_tags_witness :
  exists r, Embeddings.reassemble 1 [Embeddings.mkItem [] 5] = Returns r.
Proof.
  apply (reassemble_nonnegative_tags 1 [Embeddings.mkItem [] 5]).
  constructor; [cbn [Embeddings.Index]; lia | constructor].
Defined.

Lemma IndexDocument_succeeds_witness :
  snd (Storage.IndexDocument Examples.quietEnv Examples.helloDatabase
                             (gostr "a.txt") (gostr "file") []
                             [Examples.worldChunk; Examples.helloChunk]) = None /\
  snd (Storage.IndexDocument Examples.quietEnv Examples.helloDatabase
                             (gostr "a.txt") (gostr "file") []
                             [Examples.worldChunk;
                              Storage.mkChunk 0 0 1 (gostr "hello") 0 5 []]) <> None.
Proof.
  split.
  - apply (IndexDocument_succeeds Examples.quietEnv Examples.helloDatabase
                                  (gostr "a.txt") (gostr "file") []
                                  [Examples.worldChunk; Examples.helloChunk]).
    + intros c _. reflexivity.
    + repeat constructor; discriminate.
  - intros H.
    apply (IndexDocument_succeeds Examples.quietEnv Examples.helloDatabase
                                  (gostr "a.txt") (gostr "file") []
                                  [Examples.worldChunk;
                                   Storage.mkChunk 0 0 1 (gostr "hello") 0 5 []])
      in H; [| intros c _; reflexivity].
    inversion H as [|? ? _ Hrest]. inversion Hrest as [|? ? Hne _].
    apply Hne. reflexivity.
Defined.

Lemma IndexDocument_keeps_orphans_witness :
  let d := Examples.rankedDatabase in
  let d' := fst (Storage.IndexDocument Examples.quietEnv d
                                       (gostr "b.txt") (gostr "file") []
                                       [Examples.worldChunk]) in
  existsb (Storage.orphan (Storage.tables d)) (Storage.chunks (Storage.tables d))
  = true /\
  Storage.sequenced (Storage.tables d') /\
  forall c, In c (Storage.chunks (Storage.tables d)) ->
            Storage.orphan (Storage.tables d) c = true ->
            Storage.orphan (Storage.tables d') c = true.
Proof.
  split; [vm_compute; reflexivity |].
  apply (IndexDocument_keeps_orphans Examples.quietEnv Examples.rankedDatabase
                                     (gostr "b.txt") (gostr "file") []
                                     [Examples.worldChunk]).
  unfold Storage.sequenced. vm_compute.
  split; repeat (constructor; [discriminate |]); constructor.
Defined.

Lemma Service_Search_bounds_results_witness :
  exists st' resp,
    Service.Search Examples.byteScore Examples.reversingProvider
                   Examples.quietEnv Examples.rankedDatabase
                   (Service.mkSearchRequest (gostr "nine") 0 (0 # 1) [])
                   (Embeddings.mkClient 0 0)
    = (st', Returns (Ok resp)) /\
    Service.Count resp = GoInt.len (Service.Results resp) /\
    Service.Count resp <= 5.
Proof.
  destruct (Service.Search Examples.byteScore Examples.reversingProvider
                           Examples.quietEnv Examples.rankedDatabase
                           (Service.mkSearchRequest (gostr "nine") 0 (0 # 1) [])
                           (Embeddings.mkClient 0 0))
    as [st' r] eqn:Hrun.
  assert (Hr : exists resp, r = Returns (Ok resp))
    by (vm_compute in Hrun; injection Hrun as _ <-; eauto).
  destruct Hr as [resp ->]. exists st', resp. split; [reflexivity |].
  apply (Service_Search_bounds_results
           Examples.byteScore Examples.reversingProvider Examples.quietEnv
           Examples.rankedDatabase
           (Service.mkSearchRequest (gostr "nine") 0 (0 # 1) [])
           (Embeddings.mkClient 0 0) st' resp Hrun).
Defined.

(** ** UTF-8: encoding and decoding *)

Section Utf8RoundTrip.

Import Utf8.

(** *** Bit operations as arithmetic *)

Lemma lor_add (n a b : Z) :
  0 <= n -> a mod 2 ^ n = 0 -> 0 <= b < 2 ^ n -> Z.lor a b = a + b.
Proof.
  intros Hn Ha Hb.
  assert (Hland : Z.land a b = 0).
  { apply Z.bits_inj'. intros i Hi. rewrite Z.land_spec, Z.bits_0.
    destruct (Z.lt_ge_cases i n) as [Hlow | Hhigh].
    - assert (Hq : a = a / 2 ^ n * 2 ^ n).
      { pose proof (Z.div_mod a (2 ^ n) ltac:(lia)). lia. }
      rewrite Hq, Z.mul_pow2_bits_low by lia. reflexivity.
    - rewrite (testbit_above b n i) by lia. apply andb_false_r. }
  rewrite <- Z.lxor_lor by exact Hland. symmetry.
  apply Z.add_nocarry_lxor. exact Hland.
Qed.

Lemma low6_mod (x : Z) : low6 x = x mod 64.
Proof. unfold low6. change 0x3F with (Z.ones 6). apply Z.land_ones. lia. Qed.

Lemma value2_arith (b0 b1 : Z) :
  value2 b0 b1 = b0 mod 32 * 64 + b1 mod 64.
Proof.
  unfold value2. rewrite low6_mod.
  change 0x1F with (Z.ones 5). rewrite Z.land_ones, Z.shiftl_mul_pow2 by lia.
  change (2 ^ 5) with 32. change (2 ^ 6) with 64.
  apply (lor_add 6); [lia | | ]; change (2 ^ 6) with 64;
    Z.div_mod_to_equations; lia.
Qed.

Lemma value3_arith (b0 b1 b2 : Z) :
  value3 b0 b1 b2 = b0 mod 16 * 4096 + b1 mod 64 * 64 + b2 mod 64.
Proof.
  unfold value3. rewrite !low6_mod.
  change 0x0F with (Z.ones 4). rewrite Z.land_ones, !Z.shiftl_mul_pow2 by lia.
  change (2 ^ 4) with 16. change (2 ^ 12) with 4096. change (2 ^ 6) with 64.
  rewrite (lor_add 12 (b0 mod 16 * 4096) (b1 mod 64 * 64));
    [| lia | change (2 ^ 12) with 4096; Z.div_mod_to_equations; lia ..].
  apply (lor_add 6); [lia | | ]; change (2 ^ 6) with 64;
    Z.div_mod_to_equations; lia.
Qed.

Lemma value4_arith (b0 b1 b2 b3 : Z) :
  value4 b0 b1 b2 b3
  = b0 mod 8 * 262144 + b1 mod 64 * 4096 + b2 mod 64 * 64 + b3 mod 64.
Proof.
  unfold value4. rewrite !low6_mod.
  change 0x07 with (Z.ones 3). rewrite Z.land_ones, !Z.shiftl_mul_pow2 by lia.
  change (2 ^ 3) with 8. change (2 ^ 18) with 262144.
  change (2 ^ 12) with 4096. change (2 ^ 6) with 64.
  rewrite (lor_add 18 (b0 mod 8 * 262144) (b1 mod 64 * 4096));
    [| lia | change (2 ^ 18) with 262144; Z.div_mod_to_equations; lia ..].
  rewrite (lor_add 12 _ (b2 mod 64 * 64));
    [| lia | change (2 ^ 12) with 4096; Z.div_mod_to_equations; lia ..].
  apply (lor_add 6); [lia | | ]; change (2 ^ 6) with 64;
    Z.div_mod_to_equations; lia.
Qed.

Lemma ValidRune_iff (r : rune) :
  ValidRune r = true <-> 0 <= r < 0xD800 \/ 0xDFFF < r <= 0x10FFFF.
Proof.
  unfold ValidRune. rewrite orb_true_iff, !andb_true_iff.
  rewrite !Z.leb_le, !Z.ltb_lt. tauto.
Qed.

(** The table [first], by the length of the sequence. *)
Lemma first_cases (b0 sz lo hi : Z) :
  first b0 = Some (sz, lo, hi) ->
  (sz = 2 /\ 0xC2 <= b0 <= 0xDF /\ lo = 0x80 /\ hi = 0xBF) \/
  (sz = 3 /\ 0xE0 <= b0 <= 0xEF /\
   lo = (if b0 =? 0xE0 then 0xA0 else 0x80) /\
   hi = (if b0 =? 0xED then 0x9F else 0xBF)) \/
  (sz = 4 /\ 0xF0 <= b0 <= 0xF4 /\
   lo = (if b0 =? 0xF0 then 0x90 else 0x80) /\
   hi = (if b0 =? 0xF4 then 0x8F else 0xBF)).
Proof.
  assert (Hif : forall (x y : Z) (u v w : Z),
             (x = y -> w = u) -> (x <> y -> w = v) ->
             w = (if x =? y then u else v))
    by (intros x y u v w H1 H2; destruct (Z.eqb_spec x y); auto).
  unfold first.
  repeat match goal with
         | |- context [if ?b then Some _ else _] => destruct b eqn:?
         end;
    intros H; try discriminate; injection H as <- <- <-;
    repeat match goal with
           | H : (_ && _) = true |- _ => apply andb_true_iff in H; destruct H
           | H : (_ <=? _) = true |- _ => apply Z.leb_le in H
           | H : (_ =? _) = true |- _ => apply Z.eqb_eq in H
           end;
    first [ left; repeat split; lia
          | right; left; repeat split; try lia; apply Hif; intros; lia
          | right; right; repeat split; try lia; apply Hif; intros; lia ].
Qed.

Lemma first_none (b0 : Z) : first b0 = None -> b0 < 0xC2 \/ 0xF4 < b0.
Proof.
  unfold first.
  repeat match goal with
         | |- context [if ?b then Some _ else _] => destruct b eqn:?
         end; try discriminate.
  intros _.
  repeat match goal with
         | H : (_ && _) = false |- _ => apply andb_false_iff in H
         | H : (_ =? _) = false |- _ => apply Z.eqb_neq in H
         end.
  rewrite !Z.leb_gt in *. lia.
Qed.

Lemma first_of (b0 : Z) :
  (0xC2 <= b0 <= 0xDF -> first b0 = Some (2, 0x80, 0xBF)) /\
  (0xE0 <= b0 <= 0xEF ->
   first b0 = Some (3, if b0 =? 0xE0 then 0xA0 else 0x80,
                    if b0 =? 0xED then 0x9F else 0xBF)) /\
  (0xF0 <= b0 <= 0xF4 ->
   first b0 = Some (4, if b0 =? 0xF0 then 0x90 else 0x80,
                    if b0 =? 0xF4 then 0x8F else 0xBF)).
Proof.
  destruct (first b0) as [[[sz lo] hi] |] eqn:Hfirst.
  - destruct (first_cases _ _ _ _ Hfirst)
      as [[-> [Hb [-> ->]]] | [[-> [Hb [-> ->]]] | [-> [Hb [-> ->]]]]];
      (split; [| split]); intros Hb'; first [reflexivity | lia].
  - apply first_none in Hfirst. (split; [| split]); intros Hb; lia.
Qed.

(** *** What the decoder gives is a scalar value *)

Lemma decoded2_valid (b0 b1 : Z) : ValidRune (value2 b0 b1) = true.
Proof.
  apply ValidRune_iff. rewrite value2_arith.
  left. Z.div_mod_to_equations. lia.
Qed.

Lemma decoded3_valid (b0 b1 b2 sz lo hi : Z) :
  first b0 = Some (sz, lo, hi) ->
  (lo <=? b1) && (b1 <=? hi) = true -> (sz =? 3) = true ->
  ValidRune (value3 b0 b1 b2) = true.
Proof.
  intros Hfirst Hb1 Hsz. apply Z.eqb_eq in Hsz.
  apply andb_true_iff in Hb1. destruct Hb1 as [Hlo Hhi].
  apply Z.leb_le in Hlo. apply Z.leb_le in Hhi.
  apply ValidRune_iff. rewrite value3_arith.
  destruct (first_cases _ _ _ _ Hfirst)
    as [[? _] | [[_ [Hb [-> ->]]] | [? _]]]; try lia.
  destruct (Z.eqb_spec b0 0xE0); destruct (Z.eqb_spec b0 0xED);
    Z.div_mod_to_equations; lia.
Qed.

Lemma decoded4_valid (b0 b1 b2 b3 sz lo hi : Z) :
  first b0 = Some (sz, lo, hi) ->
  (lo <=? b1) && (b1 <=? hi) = true ->
  (sz =? 2) = false -> (sz =? 3) = false ->
  ValidRune (value4 b0 b1 b2 b3) = true.
Proof.
  intros Hfirst Hb1 Hsz2 Hsz3.
  apply Z.eqb_neq in Hsz2. apply Z.eqb_neq in Hsz3.
  apply andb_true_iff in Hb1. destruct Hb1 as [Hlo Hhi].
  apply Z.leb_le in Hlo. apply Z.leb_le in Hhi.
  apply ValidRune_iff. rewrite value4_arith.
  destruct (first_cases _ _ _ _ Hfirst)
    as [[? _] | [[? _] | [_ [Hb [-> ->]]]]]; try lia.
  destruct (Z.eqb_spec b0 0xF0); destruct (Z.eqb_spec b0 0xF4);
    Z.div_mod_to_equations; lia.
Qed.

(** *** Encoding a scalar value gives a sequence that decodes to it *)

Lemma encode_decodes (r : rune) :
  ValidRune r = true -> decodes (EncodeRune r) r = true.
Proof.
  intros Hvalid. apply ValidRune_iff in Hvalid. unfold EncodeRune.
  destruct ((0 <=? r) && (r <=? 0x7F)) eqn:H1.
  { apply andb_true_iff in H1. destruct H1 as [Ha Hb].
    apply Z.leb_le in Ha. apply Z.leb_le in Hb. cbn [decodes].
    apply andb_true_iff. split; [apply Z.ltb_lt; lia | apply Z.eqb_refl]. }
  assert (Hr1 : 0x7F < r).
  { apply andb_false_iff in H1. rewrite !Z.leb_gt in H1. lia. }
  clear H1.
  destruct ((0 <=? r) && (r <=? 0x7FF)) eqn:H2.
  { apply andb_true_iff in H2. destruct H2 as [_ Hb]. apply Z.leb_le in Hb.
    rewrite low6_mod, Z.shiftr_div_pow2 by lia. change (2 ^ 6) with 64.
    rewrite (lor_add 6 0xC0 (r / 64))
      by (try change (2 ^ 6) with 64; Z.div_mod_to_equations; lia).
    rewrite (lor_add 7 0x80 (r mod 64))
      by (try change (2 ^ 7) with 128; Z.div_mod_to_equations; lia).
    cbn [decodes].
    destruct (first_of (0xC0 + r / 64)) as [Hfirst _].
    rewrite Hfirst by (Z.div_mod_to_equations; lia).
    rewrite value2_arith.
    repeat (apply andb_true_iff; split);
      rewrite ?negb_true_iff, ?Z.ltb_ge, ?Z.leb_le, ?Z.eqb_eq;
      try reflexivity; Z.div_mod_to_equations; lia. }
  assert (Hr2 : 0x7FF < r).
  { apply andb_false_iff in H2. rewrite !Z.leb_gt in H2. lia. }
  clear H2.
  destruct ((r <? 0) || (0x10FFFF <? r) || ((0xD800 <=? r) && (r <=? 0xDFFF)))
           eqn:H3.
  { exfalso. rewrite !orb_true_iff, andb_true_iff in H3.
    rewrite !Z.ltb_lt, !Z.leb_le in H3. lia. }
  clear H3.
  destruct (r <=? 0xFFFF) eqn:H4.
  { apply Z.leb_le in H4.
    rewrite !low6_mod, !Z.shiftr_div_pow2 by lia.
    change (2 ^ 6) with 64. change (2 ^ 12) with 4096.
    rewrite (lor_add 5 0xE0 (r / 4096))
      by (try change (2 ^ 5) with 32; Z.div_mod_to_equations; lia).
    rewrite !(lor_add 7 0x80)
      by (try change (2 ^ 7) with 128; Z.div_mod_to_equations; lia).
    cbn [decodes].
    destruct (first_of (0xE0 + r / 4096)) as [_ [Hfirst _]].
    rewrite Hfirst by (Z.div_mod_to_equations; lia).
    rewrite value3_arith. unfold cont.
    destruct (Z.eqb_spec (0xE0 + r / 4096) 0xE0);
      destruct (Z.eqb_spec (0xE0 + r / 4096) 0xED);
      repeat (apply andb_true_iff; split);
      rewrite ?negb_true_iff, ?Z.ltb_ge, ?Z.leb_le, ?Z.eqb_eq;
      try reflexivity; Z.div_mod_to_equations; lia. }
  apply Z.leb_gt in H4.
  rewrite !low6_mod, !Z.shiftr_div_pow2 by lia.
  change (2 ^ 6) with 64. change (2 ^ 12) with 4096. change (2 ^ 18) with 262144.
  rewrite (lor_add 3 0xF0 (r / 262144))
    by (try change (2 ^ 3) with 8; Z.div_mod_to_equations; lia).
  rewrite !(lor_add 7 0x80)
    by (try change (2 ^ 7) with 128; Z.div_mod_to_equations; lia).
  cbn [decodes].
  destruct (first_of (0xF0 + r / 262144)) as [_ [_ Hfirst]].
  rewrite Hfirst by (Z.div_mod_to_equations; lia).
  rewrite value4_arith. unfold cont.
  destruct (Z.eqb_spec (0xF0 + r / 262144) 0xF0);
    destruct (Z.eqb_spec (0xF0 + r / 262144) 0xF4);
    repeat (apply andb_true_iff; split);
    rewrite ?negb_true_iff, ?Z.ltb_ge, ?Z.leb_le, ?Z.eqb_eq;
    try reflexivity; Z.div_mod_to_equations; lia.
Qed.

Lemma runes_cons (b0 : Z) (t : gostring) :
  runes (b0 :: t) =
  if b0 <? 0x80 then b0 :: runes t
  else
    match first b0 with
    | None => RuneError :: runes t
    | Some (sz, lo, hi) =>
      match t with
      | [] => RuneError :: runes t
      | b1 :: t1 =>
        if negb ((lo <=? b1) && (b1 <=? hi)) then RuneError :: runes t
        else if sz =? 2 then value2 b0 b1 :: runes t1
        else
          match t1 with
          | [] => RuneError :: runes t
          | b2 :: t2 =>
            if negb (cont b2) then RuneError :: runes t
            else if sz =? 3 then value3 b0 b1 b2 :: runes t2
            else
              match t2 with
              | [] => RuneError :: runes t
              | b3 :: t3 =>
                if negb (cont b3) then RuneError :: runes t
                else value4 b0 b1 b2 b3 :: runes t3
              end
          end
      end
    end.
Proof. reflexivity. Qed.

(** A sequence that the decoder reads as [r] is read so before any text. *)
Lemma decodes_sound (bs : gostring) (r : rune) :
  decodes bs r = true -> forall rest, runes (bs ++ rest) = r :: runes rest.
Proof.
  destruct bs as [|b0 [|b1 [|b2 [|b3 [|b4 bs]]]]]; cbn [decodes]; try discriminate;
    intros H rest; cbn [app]; rewrite runes_cons.
  - apply andb_true_iff in H. destruct H as [H0 Hr]. apply Z.eqb_eq in Hr.
    rewrite H0, Hr. reflexivity.
  - apply andb_true_iff in H. destruct H as [H0 H]. apply negb_true_iff in H0.
    rewrite H0. destruct (first b0) as [[[sz lo] hi] |]; [| discriminate].
    repeat (apply andb_true_iff in H; destruct H as [H ?]).
    match goal with Hr : (_ =? r) = true |- _ => apply Z.eqb_eq in Hr; rewrite Hr end.
    match goal with Hs : (sz =? 2) = true |- _ => rewrite Hs end.
    match goal with Hb : (b1 <=? hi) = true |- _ => rewrite Hb end.
    rewrite H. reflexivity.
  - apply andb_true_iff in H. destruct H as [H0 H]. apply negb_true_iff in H0.
    rewrite H0. destruct (first b0) as [[[sz lo] hi] |]; [| discriminate].
    repeat (apply andb_true_iff in H; destruct H as [H ?]).
    match goal with Hr : (_ =? r) = true |- _ => apply Z.eqb_eq in Hr; rewrite Hr end.
    match goal with Hs : (sz =? 3) = true |- _ => rewrite Hs end.
    match goal with Hs : negb (sz =? 2) = true |- _ =>
                    apply negb_true_iff in Hs; rewrite Hs end.
    match goal with Hc : cont b2 = true |- _ => rewrite Hc end.
    match goal with Hb : (b1 <=? hi) = true |- _ => rewrite Hb end.
    rewrite H. reflexivity.
  - apply andb_true_iff in H. destruct H as [H0 H]. apply negb_true_iff in H0.
    rewrite H0. destruct (first b0) as [[[sz lo] hi] |]; [| discriminate].
    repeat (apply andb_true_iff in H; destruct H as [H ?]).
    match goal with Hr : (_ =? r) = true |- _ => apply Z.eqb_eq in Hr; rewrite Hr end.
    match goal with Hs : negb (sz =? 3) = true |- _ =>
                    apply negb_true_iff in Hs; rewrite Hs end.
    match goal with Hs : negb (sz =? 2) = true |- _ =>
                    apply negb_true_iff in Hs; rewrite Hs end.
    match goal with Hc : cont b2 = true |- _ => rewrite Hc end.
    match goal with Hc : cont b3 = true |- _ => rewrite Hc end.
    match goal with Hb : (b1 <=? hi) = true |- _ => rewrite Hb end.
    rewrite H. reflexivity.
Qed.

(** Encoding a scalar value and decoding it gives the value back. *)
Lemma encode_then_decode (r : rune) :
  ValidRune r = true ->
  forall rest, runes (EncodeRune r ++ rest) = r :: runes rest.
Proof.
  intros Hvalid. apply decodes_sound. apply encode_decodes. exact Hvalid.
Qed.

Lemma runes_string_of_runes (rs : list rune) :
  Forall (fun r => ValidRune r = true) rs ->
  runes (string_of_runes rs) = rs.
Proof.
  induction 1 as [|r rs Hr _ IH]; [reflexivity |].
  unfold string_of_runes in *. cbn [flat_map].
  rewrite encode_then_decode by exact Hr. rewrite IH. reflexivity.
Qed.

(** Decoding bytes gives scalar values only. *)
Lemma runes_valid (n : nat) :
  forall s, (length s <= n)%nat -> Forall (fun b => 0 <= b) s ->
            Forall (fun r => ValidRune r = true) (runes s).
Proof.
  induction n as [|n IH]; intros s Hlen Hbytes.
  - destruct s; [constructor | cbn in Hlen; lia].
  - destruct s as [|b0 t]; [constructor |].
    cbn [length] in Hlen.
    inversion Hbytes as [|? ? Hb0 Ht]; subst.
    assert (IHt : Forall (fun r => ValidRune r = true) (runes t))
      by (apply IH; [lia | exact Ht]).
    assert (Herror : Forall (fun r => ValidRune r = true) (RuneError :: runes t))
      by (constructor; [reflexivity | exact IHt]).
    rewrite runes_cons.
    destruct (b0 <? 0x80) eqn:Hascii.
    { constructor; [| exact IHt]. apply Z.ltb_lt in Hascii.
      unfold ValidRune. apply orb_true_iff. left.
      apply andb_true_iff. split; [apply Z.leb_le | apply Z.ltb_lt]; lia. }
    destruct (first b0) as [[[sz lo] hi] |] eqn:Hfirst; [| exact Herror].
    destruct t as [|b1 t1]; [exact Herror |].
    destruct ((lo <=? b1) && (b1 <=? hi)) eqn:Hb1; [| exact Herror].
    cbn [negb]. cbn [length] in Hlen.
    inversion Ht as [|? ? _ Ht1]; subst.
    destruct (sz =? 2) eqn:Hsz2.
    { constructor; [apply decoded2_valid | apply IH; [lia | exact Ht1]]. }
    destruct t1 as [|b2 t2]; [exact Herror |].
    destruct (cont b2) eqn:Hb2; [| exact Herror].
    cbn [negb]. cbn [length] in Hlen.
    inversion Ht1 as [|? ? _ Ht2]; subst.
    destruct (sz =? 3) eqn:Hsz3.
    { constructor; [eapply decoded3_valid; eassumption | apply IH; [lia | exact Ht2]]. }
    destruct t2 as [|b3 t3]; [exact Herror |].
    destruct (cont b3) eqn:Hb3; [| exact Herror].
    cbn [negb]. cbn [length] in Hlen.
    inversion Ht2 as [|? ? _ Ht3]; subst.
    constructor; [eapply decoded4_valid; eassumption | apply IH; [lia | exact Ht3]].
Qed.

End Utf8RoundTrip.

(** ** The content of a chunk *)

(** Every chunk the loop emits holds the encoding of the runes of its
    span. *)
Lemma chunkLoop_contents (c : Chunker.Chunker) (runes : list rune) (fuel : nat) :
  forall st result,
    Chunker.chunkLoop fuel c runes st = Returns result ->
    Forall (fun ch => Chunker.Content ch
                      = Utf8.string_of_runes
                          (Chunker.runesBetween runes (Chunker.StartOffset ch)
                                        (Chunker.EndOffset ch)))
           (Chunker.chunks st) ->
    Forall (fun ch => Chunker.Content ch
                      = Utf8.string_of_runes
                          (Chunker.runesBetween runes (Chunker.StartOffset ch)
                                        (Chunker.EndOffset ch)))
           result.
Proof.
  induction fuel as [|fuel IH]; intros st result Hrun Hst; [discriminate |].
  cbn [Chunker.chunkLoop] in Hrun.
  destruct (Chunker.position st <? GoInt.len runes);
    [| injection Hrun as <-; exact Hst].
  unfold Chunker.loopBody in Hrun.
  destruct (Chunker.chunkEnd c runes (Chunker.position st)) as [e | |];
    cbn [bind] in Hrun; try discriminate.
  unfold slice in Hrun.
  destruct ((0 <=? Chunker.position st) && (Chunker.position st <=? e)
            && (e <=? GoInt.len runes)); cbn [bind] in Hrun; [| discriminate].
  assert (Hnew : Forall (fun ch => Chunker.Content ch
                      = Utf8.string_of_runes
                          (Chunker.runesBetween runes (Chunker.StartOffset ch)
                                        (Chunker.EndOffset ch)))
                        (Chunker.chunks st ++
                         [Chunker.mkChunk
                            (Utf8.string_of_runes
                               (firstn (Z.to_nat (e - Chunker.position st))
                                       (skipn (Z.to_nat (Chunker.position st)) runes)))
                            (Chunker.chunkIndex st) (Chunker.position st) e]))
    by (apply Forall_app; split; [exact Hst | constructor; [reflexivity | constructor]]).
  destruct (e >=? GoInt.len runes); cbn [bind] in Hrun.
  - injection Hrun as <-. exact Hnew.
  - apply (IH _ _ Hrun). exact Hnew.
Qed.

Lemma skipn_In {A : Type} (n : nat) (l : list A) (x : A) :
  In x (skipn n l) -> In x l.
Proof.
  intros H. rewrite <- (firstn_skipn n l). apply in_or_app. right. exact H.
Qed.

Lemma Forall_runesBetween (P : rune -> Prop) (runes : list rune) (lo hi : Z) :
  Forall P runes -> Forall P (Chunker.runesBetween runes lo hi).
Proof.
  intros H. unfold Chunker.runesBetween. apply Forall_forall. intros r Hr.
  rewrite Forall_forall in H. apply H.
  apply firstn_In in Hr. apply skipn_In in Hr. exact Hr.
Qed.

Lemma runesBetween_length (runes : list rune) (lo hi : Z) :
  0 <= lo <= hi -> hi <= GoInt.len runes ->
  GoInt.len (Chunker.runesBetween runes lo hi) = hi - lo.
Proof.
  intros Hlo Hhi. unfold Chunker.runesBetween, GoInt.len in *.
  rewrite length_firstn, length_skipn. lia.
Qed.

(** X29.  Chunks hold whole characters: for a text of bytes, the content
    of every chunk [ChunkText] returns decodes to exactly the code points
    of the text from [StartOffset] up to [EndOffset], so it has
    [EndOffset - StartOffset] code points and no multi-byte character is
    cut. *)
Theorem ChunkText_content_is_its_span
        (fuel : nat) (cs ov : Z) (text : gostring) (result : list Chunker.Chunk) :
  allocatable text ->
  Forall (fun b => 0 <= b <= 255) text ->
  Chunker.ChunkText fuel (Chunker.NewChunker cs ov) text = Returns result ->
  Forall (fun ch =>
            Utf8.runes (Chunker.Content ch)
            = Chunker.runesBetween (Utf8.runes text) (Chunker.StartOffset ch)
                           (Chunker.EndOffset ch) /\
            Utf8.RuneCountInString (Chunker.Content ch)
            = Chunker.EndOffset ch - Chunker.StartOffset ch) result.
Proof.
  intros Hfits Hbytes Hrun.
  destruct text as [|b0 t];
    [cbn in Hrun; injection Hrun as <-; constructor |].
  remember (b0 :: t) as text eqn:Etext.
  assert (Hne : text <> []) by (subst text; discriminate).
  destruct (NewChunker_coerces cs ov) as [Hsize Hov].
  set (c := Chunker.NewChunker cs ov) in *.
  assert (Hvalid : Forall (fun r => Utf8.ValidRune r = true) (Utf8.runes text)).
  { apply (runes_valid (length text)); [lia |].
    eapply Forall_impl; [| exact Hbytes]. intros b Hb. cbn beta in Hb. lia. }
  destruct (ChunkText_spans fuel c text result Hne Hfits Hsize Hov Hrun)
    as [Hpos [Halloc [[Hone ->] | [Hone Hl]]]].
  - constructor; [| constructor].
    cbn [Chunker.Content Chunker.StartOffset Chunker.EndOffset].
    unfold Chunker.runesBetween, Utf8.RuneCountInString.
    rewrite Z.sub_0_r. cbn [Z.to_nat skipn].
    unfold GoInt.len. rewrite Nat2Z.id, firstn_all. split; [reflexivity | lia].
  - assert (Hstart : 0 <= 0 < GoInt.len (Utf8.runes text)) by lia.
    pose proof (spans_bounds c _ Hsize Hone Hov Halloc 0 _ Hl Hstart) as Hb.
    rewrite Forall_map in Hb.
    assert (Hcontents :
              Forall (fun ch => Chunker.Content ch
                                = Utf8.string_of_runes
                                    (Chunker.runesBetween (Utf8.runes text)
                                                  (Chunker.StartOffset ch)
                                                  (Chunker.EndOffset ch))) result).
    { unfold Chunker.ChunkText in Hrun. rewrite Etext in Hrun. rewrite <- Etext in Hrun.
      replace (GoInt.len (Utf8.runes text) <=? Chunker.chunkSize c) with false in Hrun
        by (symmetry; apply Z.leb_gt; lia).
      apply (chunkLoop_contents c (Utf8.runes text) fuel _ result Hrun).
      constructor. }
    pose proof (Forall_and Hb Hcontents) as H.
    eapply Forall_impl; [| exact H].
    intros ch [[Hrange Hend] Hcontent]. cbn [Chunker.span fst snd] in *.
    assert (Hdecoded : Utf8.runes (Chunker.Content ch)
                       = Chunker.runesBetween (Utf8.runes text) (Chunker.StartOffset ch)
                                      (Chunker.EndOffset ch)).
    { rewrite Hcontent. apply runes_string_of_runes.
      apply Forall_runesBetween. exact Hvalid. }
    split; [exact Hdecoded |].
    unfold Utf8.RuneCountInString. rewrite Hdecoded.
    apply runesBetween_length; lia.
Qed.

Lemma ChunkText_content_is_its_span_witness :
  let text := gostr "Hello " ++ Examples.twoHan ++ gostr " Hello "
                    ++ Examples.twoHan ++ gostr " Hello " ++ Examples.twoHan in
  exists result,
    Chunker.ChunkText 10 (Chunker.NewChunker 8 2) text = Returns result /\
    Forall (fun ch =>
              Utf8.runes (Chunker.Content ch)
              = Chunker.runesBetween (Utf8.runes text) (Chunker.StartOffset ch)
                             (Chunker.EndOffset ch) /\
              Utf8.RuneCountInString (Chunker.Content ch)
              = Chunker.EndOffset ch - Chunker.StartOffset ch) result.
Proof.
  intros text.
  destruct (Chunker.ChunkText 10 (Chunker.NewChunker 8 2) text)
    as [result | |] eqn:Hrun; [| vm_compute in Hrun; discriminate ..].
  exists result. split; [reflexivity |].
  apply (ChunkText_content_is_its_span 10 8 2 text result).
  - unfold allocatable. vm_compute. discriminate.
  - subst text. vm_compute. repeat (constructor; [split; discriminate |]). constructor.
  - exact Hrun.
Defined.

(** ** The fetcher's content types *)

Lemma HasPrefix_shorter (prefix more : gostring) :
  forall s, Fetcher.HasPrefix s (prefix ++ more) = true ->
            Fetcher.HasPrefix s prefix = true.
Proof.
  induction prefix as [|p prefix IH]; intros s H; [destruct s; reflexivity |].
  destruct s as [|b s]; [discriminate |].
  cbn [app Fetcher.HasPrefix] in *.
  apply andb_true_iff in H. destruct H as [Hb H].
  rewrite Hb. cbn [andb]. apply IH. exact H.
Qed.

Lemma Contains_shorter (substr more : gostring) :
  forall s, Fetcher.Contains s (substr ++ more) = true ->
            Fetcher.Contains s substr = true.
Proof.
  induction s as [|b s IH]; intros H.
  - cbn [Fetcher.Contains] in *. rewrite orb_false_r in *.
    eapply HasPrefix_shorter. exact H.
  - cbn [Fetcher.Contains] in *. apply orb_true_iff in H. apply orb_true_iff.
    destruct H as [H | H]; [left; eapply HasPrefix_shorter; exact H | right; auto].
Qed.

(** X30.  [isTextContent] accepts a content type exactly when its
    lower-case form contains "text/" anywhere: the tests for "text/plain",
    "text/html" and "text/markdown" decide nothing, and every other text/...
    type is accepted as well. *)
Theorem isTextContent_accepts_any_text_type
        (ToLower : gostring -> gostring) (contentType : gostring) :
  Fetcher.isTextContent ToLower contentType
  = Fetcher.Contains (ToLower contentType) (gostr "text/").
Proof.
  unfold Fetcher.isTextContent. cbv zeta.
  destruct (Fetcher.Contains (ToLower contentType) (gostr "text/")) eqn:Htext;
    [apply orb_true_r |].
  assert (Hnone : forall more,
             Fetcher.Contains (ToLower contentType) (gostr "text/" ++ more) = false).
  { intros more.
    destruct (Fetcher.Contains (ToLower contentType) (gostr "text/" ++ more)) eqn:E;
      [| reflexivity].
    apply Contains_shorter in E. congruence. }
  change (gostr "text/plain") with (gostr "text/" ++ gostr "plain").
  change (gostr "text/html") with (gostr "text/" ++ gostr "html").
  change (gostr "text/markdown") with (gostr "text/" ++ gostr "markdown").
  rewrite !Hnone. reflexivity.
Qed.
